(** * UFC fight-winner predictor (src/model/ufc_nn.c): a shallow embedding

    The C program is embedded function by function.  Conventions:

    - C [int] counters are [Z]; every counter below is bounded by twice the
      number of processed fights, so no signed overflow is reachable for
      datasets of fewer than 2^30 rows and the wrap-around is not written out.
    - [double] / [long double] values are exact real numbers ([R]) wherever the
      code calls [logl], [expl], [tanhl] or [sqrt]; the epoch loop and the
      threshold search only compare and divide counts, and use rationals ([Q])
      so that they can be run.  Rounding is outside the model.
    - A pointer into the [fighters] / [h2h] arrays is the pair of the block
      the array was in when the pointer was taken and the slot; [realloc] is
      an oracle that answers, for a requested capacity, failure, growth in
      place or a move to a new block.  Using a pointer into a block the array
      has left is undefined behaviour: the function has no result ([None]). *)

From Stdlib Require Import ZArith QArith String Ascii List Lia Reals Lra Psatz.
From stdpp Require Import base list strings gmap.

Local Open Scope string_scope.
Local Open Scope list_scope.
Local Open Scope Z_scope.

(** ** Data model *)

Record FighterRecord := mkFighterRecord {
  name : string;
  r_weight_class : string;
  wins : Z;
  losses : Z;
  total : Z
}.

Record HeadToHeadRecord := mkHeadToHeadRecord {
  name_a : string;
  name_b : string;
  h_weight_class : string;
  wins_a : Z;
  wins_b : Z;
  h_total : Z
}.

(** [fighters] and [h2h] hold the slots [0 .. count-1] of the two C arrays, so
    [fighter_count] and [h2h_count] are their lengths.  [fighters_block] and
    [h2h_block] name the allocation each array lives in at the moment: a
    [realloc] that moves an array gives it a new block, and the pointers into
    the old block dangle. *)
Record MatchContext := mkMatchContext {
  fighters : list FighterRecord;
  fighter_cap : Z;
  fighters_block : nat;
  h2h : list HeadToHeadRecord;
  h2h_cap : Z;
  h2h_block : nat
}.

Definition fighter_count (ctx : MatchContext) : Z := Z.of_nat (length (fighters ctx)).
Definition h2h_count (ctx : MatchContext) : Z := Z.of_nat (length (h2h ctx)).

(** [memset(ctx, 0, sizeof *ctx)] *)
Definition init_context : MatchContext :=
  {| fighters := []; fighter_cap := 0; fighters_block := 0;
     h2h := []; h2h_cap := 0; h2h_block := 0 |}.

(** A [FighterRecord *] or [HeadToHeadRecord *]: the block it points into and
    the slot. *)
Record SlotPtr := mkSlotPtr { ptr_block : nat; ptr_slot : nat }.

(** What [realloc] answers. *)
Inductive ReallocResult := ReallocFails | ReallocInPlace | ReallocMoves.

(** [UFCFight]: the two [double] statistic tuples are real numbers; [label]
    is 1 if fighter1 won, 0 if fighter2 won, -1 for a draw or no contest. *)
Record UFCFight := mkUFCFight {
  event_date : string;
  weight_class : string;
  fighter1 : string;
  fighter2 : string;
  f1_height : R; f1_reach : R; f1_age : R;
  f1_sig_strikes_pm : R; f1_sig_strikes_acc : R;
  f1_sig_strikes_abs : R; f1_sig_strikes_def : R;
  f1_takedown_avg : R; f1_takedown_acc : R; f1_takedown_def : R;
  f1_sub_avg : R; f1_weight : R;
  f2_height : R; f2_reach : R; f2_age : R;
  f2_sig_strikes_pm : R; f2_sig_strikes_acc : R;
  f2_sig_strikes_abs : R; f2_sig_strikes_def : R;
  f2_takedown_avg : R; f2_takedown_acc : R; f2_takedown_def : R;
  f2_sub_avg : R; f2_weight : R;
  label : Z
}.

(** ** Context tracker *)

Section ContextTracker.

(** [realloc cap] is the answer of [realloc] to a request for capacity [cap]. *)
Variable realloc : Z -> ReallocResult.

Definition ensure_fighter_cap (ctx : MatchContext) : option MatchContext :=
  if fighter_count ctx <? fighter_cap ctx then Some ctx
  else
    let next_cap := if fighter_cap ctx =? 0 then 128 else fighter_cap ctx * 2 in
    match realloc next_cap with
    | ReallocFails => None
    | ReallocInPlace =>
        Some {| fighters := fighters ctx; fighter_cap := next_cap;
                fighters_block := fighters_block ctx;
                h2h := h2h ctx; h2h_cap := h2h_cap ctx; h2h_block := h2h_block ctx |}
    | ReallocMoves =>
        Some {| fighters := fighters ctx; fighter_cap := next_cap;
                fighters_block := S (fighters_block ctx);
                h2h := h2h ctx; h2h_cap := h2h_cap ctx; h2h_block := h2h_block ctx |}
    end.

Definition ensure_h2h_cap (ctx : MatchContext) : option MatchContext :=
  if h2h_count ctx <? h2h_cap ctx then Some ctx
  else
    let next_cap := if h2h_cap ctx =? 0 then 128 else h2h_cap ctx * 2 in
    match realloc next_cap with
    | ReallocFails => None
    | ReallocInPlace =>
        Some {| fighters := fighters ctx; fighter_cap := fighter_cap ctx;
                fighters_block := fighters_block ctx;
                h2h := h2h ctx; h2h_cap := next_cap; h2h_block := h2h_block ctx |}
    | ReallocMoves =>
        Some {| fighters := fighters ctx; fighter_cap := fighter_cap ctx;
                fighters_block := fighters_block ctx;
                h2h := h2h ctx; h2h_cap := next_cap; h2h_block := S (h2h_block ctx) |}
    end.

(** [strcmp(r.name, n) == 0 && strcmp(r.weight_class, wc) == 0] *)
Definition fighter_matches (n wc : string) (r : FighterRecord) : Prop :=
  name r = n /\ r_weight_class r = wc.

#[global] Instance fighter_matches_dec n wc r : Decision (fighter_matches n wc r).
Proof. unfold fighter_matches. apply _. Defined.

(** The first loop of [get_or_add_fighter] and the whole of
    [find_fighter_record]: the first matching slot. *)
Definition find_fighter_record (ctx : MatchContext) (n wc : string)
  : option (nat * FighterRecord) :=
  list_find (fighter_matches n wc) (fighters ctx).

(** The names are at most 63 characters long (they come from [char[64]]
    fields), so [strncpy] copies them whole.  [None] is the NULL pointer. *)
Definition get_or_add_fighter (ctx : MatchContext) (n wc : string)
  : option SlotPtr * MatchContext :=
  match find_fighter_record ctx n wc with
  | Some (i, _) => (Some {| ptr_block := fighters_block ctx; ptr_slot := i |}, ctx)
  | None =>
      match ensure_fighter_cap ctx with
      | None => (None, ctx)
      | Some ctx' =>
          let record := {| name := n; r_weight_class := wc;
                           wins := 0; losses := 0; total := 0 |} in
          (Some {| ptr_block := fighters_block ctx';
                   ptr_slot := length (fighters ctx') |},
           {| fighters := fighters ctx' ++ [record];
              fighter_cap := fighter_cap ctx';
              fighters_block := fighters_block ctx';
              h2h := h2h ctx'; h2h_cap := h2h_cap ctx';
              h2h_block := h2h_block ctx' |})
      end
  end.

(** [strcmp(left, right) > 0] on unsigned bytes *)
Definition strcmp_gt (a b : string) : bool :=
  match String.compare a b with Gt => true | _ => false end.

Definition h2h_matches (l r wc : string) (h : HeadToHeadRecord) : Prop :=
  name_a h = l /\ name_b h = r /\ h_weight_class h = wc.

#[global] Instance h2h_matches_dec l r wc h : Decision (h2h_matches l r wc h).
Proof. unfold h2h_matches. apply _. Defined.

Definition get_or_add_h2h (ctx : MatchContext) (f1 f2 wc : string)
  : option SlotPtr * MatchContext :=
  let left := if strcmp_gt f1 f2 then f2 else f1 in
  let right := if strcmp_gt f1 f2 then f1 else f2 in
  match list_find (h2h_matches left right wc) (h2h ctx) with
  | Some (i, _) => (Some {| ptr_block := h2h_block ctx; ptr_slot := i |}, ctx)
  | None =>
      match ensure_h2h_cap ctx with
      | None => (None, ctx)
      | Some ctx' =>
          let record := {| name_a := left; name_b := right; h_weight_class := wc;
                           wins_a := 0; wins_b := 0; h_total := 0 |} in
          (Some {| ptr_block := h2h_block ctx'; ptr_slot := length (h2h ctx') |},
           {| fighters := fighters ctx'; fighter_cap := fighter_cap ctx';
              fighters_block := fighters_block ctx';
              h2h := h2h ctx' ++ [record]; h2h_cap := h2h_cap ctx';
              h2h_block := h2h_block ctx' |})
      end
  end.

(** A pointer may be used while the array is still in the block it points
    into. *)
Definition fighter_ptr_live (ctx : MatchContext) (p : SlotPtr) : bool :=
  bool_decide (ptr_block p = fighters_block ctx).
Definition h2h_ptr_live (ctx : MatchContext) (p : SlotPtr) : bool :=
  bool_decide (ptr_block p = h2h_block ctx).

(** Field updates through a live slot pointer. *)
Definition with_fighter (i : nat) (f : FighterRecord -> FighterRecord)
                        (ctx : MatchContext) : MatchContext :=
  {| fighters := alter f i (fighters ctx); fighter_cap := fighter_cap ctx;
     fighters_block := fighters_block ctx;
     h2h := h2h ctx; h2h_cap := h2h_cap ctx; h2h_block := h2h_block ctx |}.

Definition with_h2h (i : nat) (f : HeadToHeadRecord -> HeadToHeadRecord)
                    (ctx : MatchContext) : MatchContext :=
  {| fighters := fighters ctx; fighter_cap := fighter_cap ctx;
     fighters_block := fighters_block ctx;
     h2h := alter f i (h2h ctx); h2h_cap := h2h_cap ctx; h2h_block := h2h_block ctx |}.

Definition inc_total (r : FighterRecord) : FighterRecord :=
  {| name := name r; r_weight_class := r_weight_class r;
     wins := wins r; losses := losses r; total := total r + 1 |}.
Definition inc_wins (r : FighterRecord) : FighterRecord :=
  {| name := name r; r_weight_class := r_weight_class r;
     wins := wins r + 1; losses := losses r; total := total r |}.
Definition inc_losses (r : FighterRecord) : FighterRecord :=
  {| name := name r; r_weight_class := r_weight_class r;
     wins := wins r; losses := losses r + 1; total := total r |}.

Definition inc_h_total (h : HeadToHeadRecord) : HeadToHeadRecord :=
  {| name_a := name_a h; name_b := name_b h; h_weight_class := h_weight_class h;
     wins_a := wins_a h; wins_b := wins_b h; h_total := h_total h + 1 |}.
(** [if (strcmp(h->name_a, winner) == 0) h->wins_a++; else h->wins_b++;] *)
Definition inc_h_wins (winner : string) (h : HeadToHeadRecord) : HeadToHeadRecord :=
  if decide (name_a h = winner)
  then {| name_a := name_a h; name_b := name_b h; h_weight_class := h_weight_class h;
          wins_a := wins_a h + 1; wins_b := wins_b h; h_total := h_total h |}
  else {| name_a := name_a h; name_b := name_b h; h_weight_class := h_weight_class h;
          wins_a := wins_a h; wins_b := wins_b h + 1; h_total := h_total h |}.

(** [update_context_with_result]; the result is [None] when the behaviour is
    undefined: [r1] was obtained before the second [get_or_add_fighter], and
    is written through after it, so it dangles if that call moved the array. *)
Definition update_context_with_result (ctx : MatchContext) (fight : UFCFight)
  : option MatchContext :=
  let '(r1, ctx) := get_or_add_fighter ctx (fighter1 fight) (weight_class fight) in
  let '(r2, ctx) := get_or_add_fighter ctx (fighter2 fight) (weight_class fight) in
  let '(h, ctx) := get_or_add_h2h ctx (fighter1 fight) (fighter2 fight) (weight_class fight) in
  match r1, r2, h with
  | Some r1, Some r2, Some h =>
      if fighter_ptr_live ctx r1 && fighter_ptr_live ctx r2 && h2h_ptr_live ctx h then
        let r1 := ptr_slot r1 in
        let r2 := ptr_slot r2 in
        let h := ptr_slot h in
        let ctx := with_fighter r1 inc_total ctx in
        let ctx := with_fighter r2 inc_total ctx in
        let ctx := with_h2h h inc_h_total ctx in
        if label fight =? 1 then
          let ctx := with_fighter r1 inc_wins ctx in
          let ctx := with_fighter r2 inc_losses ctx in
          Some (with_h2h h (inc_h_wins (fighter1 fight)) ctx)
        else if label fight =? 0 then
          let ctx := with_fighter r2 inc_wins ctx in
          let ctx := with_fighter r1 inc_losses ctx in
          Some (with_h2h h (inc_h_wins (fighter2 fight)) ctx)
        else Some ctx
      else None
  | _, _, _ => Some ctx
  end.

(** [for (i = 0; i < n; i++) update_context_with_result(&ctx, &fights[i]);] *)
Fixpoint record_all (ctx : MatchContext) (fights : list UFCFight)
  : option MatchContext :=
  match fights with
  | [] => Some ctx
  | fight :: rest =>
      ctx ← update_context_with_result ctx fight;
      record_all ctx rest
  end.

End ContextTracker.

(** ** Feature engineering *)

Definition INPUT_SIZE : nat := 20.
Definition FEAT_WIN_RATE_DELTA : nat := 14.
Definition FEAT_TOTAL_WINS_DELTA : nat := 15.
Definition FEAT_TOTAL_FIGHTS_DELTA : nat := 16.
Definition FEAT_WEIGHTED_SCORE_DELTA : nat := 17.
Definition FEAT_SUB_STYLE_DELTA : nat := 18.
Definition FEAT_H2H_DELTA : nat := 19.

Definition prior_win_rate (record : option FighterRecord) : R :=
  match record with
  | None => 0.5
  | Some r => if total r =? 0 then 0.5
              else (IZR (wins r) + 1.0) / (IZR (total r) + 2.0)
  end%R.

(** [log1p(x)] is [ln (1 + x)]. *)
Definition weighted_score (record : option FighterRecord) : R :=
  match record with
  | None => 0.0
  | Some r => if total r =? 0 then 0.0
              else prior_win_rate record * ln (1 + IZR (total r))
  end%R.

Definition head_to_head_bias (record : option HeadToHeadRecord) (f1 f2 : string) : R :=
  match record with
  | None => 0.0%R
  | Some h =>
      if h_total h =? 0 then 0.0%R
      else
        let '(f1_wins, f2_wins) :=
          if bool_decide (name_a h = f1) && bool_decide (name_b h = f2)
          then (wins_a h, wins_b h)
          else if bool_decide (name_a h = f2) && bool_decide (name_b h = f1)
               then (wins_b h, wins_a h)
               else (0, 0) in
        (IZR (f1_wins - f2_wins) / IZR (h_total h))%R
  end.

(** [x >= 1.0 ? 1 : 0] *)
Definition sub_style (sub_avg : R) : Z := if Rle_dec 1.0 sub_avg then 1 else 0.

(** The twenty entries written by [compute_features], in index order, from
    the fight and the three records the pointers [r1], [r2], [h] refer to. *)
Definition feature_vector (fight : UFCFight)
    (r1 r2 : option FighterRecord) (h : option HeadToHeadRecord) : list R :=
  let f1_strike_net := (f1_sig_strikes_pm fight - f1_sig_strikes_abs fight)%R in
  let f2_strike_net := (f2_sig_strikes_pm fight - f2_sig_strikes_abs fight)%R in
  let f1_grapple := (f1_takedown_avg fight * f1_takedown_acc fight + f1_sub_avg fight)%R in
  let f2_grapple := (f2_takedown_avg fight * f2_takedown_acc fight + f2_sub_avg fight)%R in
  let wr1 := prior_win_rate r1 in
  let wr2 := prior_win_rate r2 in
  let wins1 := match r1 with Some r => wins r | None => 0 end in
  let wins2 := match r2 with Some r => wins r | None => 0 end in
  let fights1 := match r1 with Some r => total r | None => 0 end in
  let fights2 := match r2 with Some r => total r | None => 0 end in
  let wscore1 := weighted_score r1 in
  let wscore2 := weighted_score r2 in
  let style1 := sub_style (f1_sub_avg fight) in
  let style2 := sub_style (f2_sub_avg fight) in
  [ f1_height fight - f2_height fight;
    f1_reach fight - f2_reach fight;
    f1_age fight - f2_age fight;
    f1_sig_strikes_pm fight - f2_sig_strikes_pm fight;
    f1_sig_strikes_acc fight - f2_sig_strikes_acc fight;
    f1_sig_strikes_abs fight - f2_sig_strikes_abs fight;
    f1_sig_strikes_def fight - f2_sig_strikes_def fight;
    f1_takedown_avg fight - f2_takedown_avg fight;
    f1_takedown_acc fight - f2_takedown_acc fight;
    f1_takedown_def fight - f2_takedown_def fight;
    f1_sub_avg fight - f2_sub_avg fight;
    f1_weight fight - f2_weight fight;
    f1_strike_net - f2_strike_net;
    f1_grapple - f2_grapple;
    wr1 - wr2;
    IZR (wins1 - wins2);
    IZR (fights1 - fights2);
    wscore1 - wscore2;
    IZR (style1 - style2);
    head_to_head_bias h (fighter1 fight) (fighter2 fight) ]%R.

Section FeatureEngineer.

Variable realloc : Z -> ReallocResult.

(** The records behind the pointers as [compute_features] reads them: a NULL
    pointer reads nothing, a dangling one is undefined ([None]). *)
Definition read_fighter (ctx : MatchContext) (r : option SlotPtr)
  : option (option FighterRecord) :=
  match r with
  | None => Some None
  | Some p => if fighter_ptr_live ctx p then Some (fighters ctx !! ptr_slot p) else None
  end.

Definition read_h2h (ctx : MatchContext) (h : option SlotPtr)
  : option (option HeadToHeadRecord) :=
  match h with
  | None => Some None
  | Some p => if h2h_ptr_live ctx p then Some (h2h ctx !! ptr_slot p) else None
  end.

(** The three [get_or_add] calls of [compute_features] and the records read
    through the returned pointers afterwards. *)
Definition lookup_records (fight : UFCFight) (ctx : MatchContext)
  : option ((option FighterRecord * option FighterRecord * option HeadToHeadRecord)
            * MatchContext) :=
  let '(r1, ctx) := get_or_add_fighter realloc ctx (fighter1 fight) (weight_class fight) in
  let '(r2, ctx) := get_or_add_fighter realloc ctx (fighter2 fight) (weight_class fight) in
  let '(h, ctx) := get_or_add_h2h realloc ctx (fighter1 fight) (fighter2 fight)
                                  (weight_class fight) in
  r1 ← read_fighter ctx r1;
  r2 ← read_fighter ctx r2;
  h ← read_h2h ctx h;
  Some ((r1, r2, h), ctx).

(** [compute_features] with a context ([ctx != NULL], as at every call in
    the program): the feature vector and the context with the slots added
    by the look-ups; [None] when a dangling pointer is read. *)
Definition compute_features (fight : UFCFight) (ctx : MatchContext)
  : option (list R * MatchContext) :=
  '(recs, ctx) ← lookup_records fight ctx;
  Some (feature_vector fight recs.1.1 recs.1.2 recs.2, ctx).

(** [compute_features] with [ctx == NULL]: the three pointers stay NULL. *)
Definition compute_features_no_context (fight : UFCFight) : list R :=
  feature_vector fight None None None.

(** [train], split: [(num_samples * 8) / 10], clamped into [1, num_samples - 1]. *)
Definition train_base_count (num_samples : Z) : Z :=
  let t := (num_samples * 8) ÷ 10 in
  let t := if t <? 1 then 1 else t in
  if t >=? num_samples then num_samples - 1 else t.

(** [train], feature loop from index [i] on:
    [compute_features(&fights[i], raw_features[i], &train_ctx);
     if (i < train_base_count) update_context_with_result(&train_ctx, &fights[i]);] *)
Fixpoint feature_loop (tbc i : Z) (ctx : MatchContext) (fights : list UFCFight)
  : option (list (list R)) :=
  match fights with
  | [] => Some []
  | fight :: rest =>
      '(features, ctx) ← compute_features fight ctx;
      ctx ← (if i <? tbc then update_context_with_result realloc ctx fight
             else Some ctx);
      raw_features ← feature_loop tbc (i + 1) ctx rest;
      Some (features :: raw_features)
  end.

(** The raw feature matrix of [train] for the array [fights] as it stands
    after [qsort] (a chronologically sorted array is left as it is); [None]
    is the early return on an empty validation split, or undefined
    behaviour in the loop. *)
Definition train_raw_features (fights : list UFCFight) : option (list (list R)) :=
  let num_samples := Z.of_nat (length fights) in
  let tbc := train_base_count num_samples in
  let val_count := num_samples - tbc in
  if val_count <? 1 then None
  else feature_loop tbc 0 init_context fights.

(** The same scan, keeping the records read for each fight. *)
Fixpoint records_loop (tbc i : Z) (ctx : MatchContext) (fights : list UFCFight)
  : option (list (option FighterRecord * option FighterRecord
                  * option HeadToHeadRecord)) :=
  match fights with
  | [] => Some []
  | fight :: rest =>
      '(recs, ctx) ← lookup_records fight ctx;
      ctx ← (if i <? tbc then update_context_with_result realloc ctx fight
             else Some ctx);
      records ← records_loop tbc (i + 1) ctx rest;
      Some (recs :: records)
  end.

End FeatureEngineer.

(** [strcmp(a.event_date, b.event_date) < 0] for consecutive rows: the array
    is strictly chronological, which [qsort] leaves unchanged. *)
Definition date_before (a b : UFCFight) : Prop :=
  String.compare (event_date a) (event_date b) = Lt.

Fixpoint chronological (fights : list UFCFight) : Prop :=
  match fights with
  | a :: ((b :: _) as rest) => date_before a b /\ chronological rest
  | _ => True
  end.

(** All fields but the outcome. *)
Definition forget_label (fight : UFCFight) : UFCFight :=
  {| event_date := event_date fight; weight_class := weight_class fight;
     fighter1 := fighter1 fight; fighter2 := fighter2 fight;
     f1_height := f1_height fight; f1_reach := f1_reach fight; f1_age := f1_age fight;
     f1_sig_strikes_pm := f1_sig_strikes_pm fight;
     f1_sig_strikes_acc := f1_sig_strikes_acc fight;
     f1_sig_strikes_abs := f1_sig_strikes_abs fight;
     f1_sig_strikes_def := f1_sig_strikes_def fight;
     f1_takedown_avg := f1_takedown_avg fight; f1_takedown_acc := f1_takedown_acc fight;
     f1_takedown_def := f1_takedown_def fight;
     f1_sub_avg := f1_sub_avg fight; f1_weight := f1_weight fight;
     f2_height := f2_height fight; f2_reach := f2_reach fight; f2_age := f2_age fight;
     f2_sig_strikes_pm := f2_sig_strikes_pm fight;
     f2_sig_strikes_acc := f2_sig_strikes_acc fight;
     f2_sig_strikes_abs := f2_sig_strikes_abs fight;
     f2_sig_strikes_def := f2_sig_strikes_def fight;
     f2_takedown_avg := f2_takedown_avg fight; f2_takedown_acc := f2_takedown_acc fight;
     f2_takedown_def := f2_takedown_def fight;
     f2_sub_avg := f2_sub_avg fight; f2_weight := f2_weight fight;
     label := 0 |}.

(** ** Counting the observations of a fighter (the words of the specification) *)

Definition key (r : FighterRecord) : string * string := (name r, r_weight_class r).

(** Number of sides (0, 1 or 2) of [fight] that carry the name [n] in class [wc]. *)
Definition side_count (k : string * string) (fight : UFCFight) : Z :=
  (if decide ((fighter1 fight, weight_class fight) = k) then 1 else 0) +
  (if decide ((fighter2 fight, weight_class fight) = k) then 1 else 0).

Definition appearances (k : string * string) (fights : list UFCFight) : Z :=
  foldr (fun fight acc => side_count k fight + acc) 0 fights.

(** [fight] involves the fighter [k]: as fighter1 or as fighter2. *)
Definition involves (k : string * string) (fight : UFCFight) : bool :=
  bool_decide ((fighter1 fight, weight_class fight) = k)
  || bool_decide ((fighter2 fight, weight_class fight) = k).

Definition involving (k : string * string) (fights : list UFCFight) : Z :=
  Z.of_nat (length (List.filter (involves k) fights)).

(** The label is resolved: 1 (fighter1 won) or 0 (fighter2 won). *)
Definition resolved (fight : UFCFight) : Prop := label fight = 1 \/ label fight = 0.

(** The predicate of the context tracker after the fights [fs] were recorded. *)
Definition record_ok (fs : list UFCFight) (r : FighterRecord) : Prop :=
  total r = appearances (key r) fs /\ wins r + losses r = total r.

Definition ctx_inv (ctx : MatchContext) (fs : list UFCFight) : Prop :=
  NoDup (key <$> fighters ctx)
  /\ Forall (record_ok fs) (fighters ctx)
  /\ (forall k, appearances k fs <> 0 -> k ∈ (key <$> fighters ctx)).

(** A retained CSV row with the given names and label; the statistics are
    fixed (positive height and age on both sides, as the loader requires). *)
Definition sample_fight (date wc f1 f2 : string) (lbl : Z) : UFCFight :=
  {| event_date := date; weight_class := wc; fighter1 := f1; fighter2 := f2;
     f1_height := 180; f1_reach := 185; f1_age := 30;
     f1_sig_strikes_pm := 4; f1_sig_strikes_acc := 0; f1_sig_strikes_abs := 3;
     f1_sig_strikes_def := 0; f1_takedown_avg := 1; f1_takedown_acc := 0;
     f1_takedown_def := 0; f1_sub_avg := 0; f1_weight := 155;
     f2_height := 178; f2_reach := 180; f2_age := 28;
     f2_sig_strikes_pm := 3; f2_sig_strikes_acc := 0; f2_sig_strikes_abs := 4;
     f2_sig_strikes_def := 0; f2_takedown_avg := 0; f2_takedown_acc := 0;
     f2_takedown_def := 0; f2_sub_avg := 0; f2_weight := 155;
     label := lbl |}%R.

(** ** Network *)

Definition HIDDEN_1_SIZE : nat := 64.
Definition HIDDEN_2_SIZE : nat := 32.
Definition OUTPUT_SIZE : nat := 1.

(** Arrays are lists; [a[i]] is [nth i a 0] and [a[i][j]] is
    [nth j (nth i a []) 0]. *)
Record Model := mkModel {
  w1 : list (list R); b1 : list R;
  w2 : list (list R); b2 : list R;
  w3 : list (list R); b3 : list R;
  v_w1 : list (list R); v_b1 : list R;
  v_w2 : list (list R); v_b2 : list R;
  v_w3 : list (list R); v_b3 : list R;
  h1 : list R; h2 : list R; output : list R;
  feat_mean : list R;
  feat_std : list R;
  num_trained_samples : Z
}.

(** The activations over the reals; [ld_tanh] and [sigmoid_ld] below are the
    same functions with every operation rounded to [long double]. *)
Definition tanh_act (x : R) : R := tanh x.
Definition sigmoid (x : R) : R := (1 / (1 + exp (- x)))%R.

(** [sum = bias; for (i = 0; i < n; i++) sum += term(i);] *)
Definition weighted_sum (bias : R) (n : nat) (term : nat -> R) : R :=
  fold_left (fun sum i => (sum + term i)%R) (seq 0 n) bias.

Definition set_activations (m : Model) (a1 a2 out : list R) : Model :=
  {| w1 := w1 m; b1 := b1 m; w2 := w2 m; b2 := b2 m; w3 := w3 m; b3 := b3 m;
     v_w1 := v_w1 m; v_b1 := v_b1 m; v_w2 := v_w2 m; v_b2 := v_b2 m;
     v_w3 := v_w3 m; v_b3 := v_b3 m;
     h1 := a1; h2 := a2; output := out;
     feat_mean := feat_mean m; feat_std := feat_std m;
     num_trained_samples := num_trained_samples m |}.

Definition forward (m : Model) (inp : list R) : Model :=
  let a1 := (fun j => tanh_act (weighted_sum (nth j (b1 m) 0%R) INPUT_SIZE
                        (fun i => (nth i inp 0 * nth j (nth i (w1 m) []) 0)%R)))
              <$> seq 0 HIDDEN_1_SIZE in
  let a2 := (fun j => tanh_act (weighted_sum (nth j (b2 m) 0%R) HIDDEN_1_SIZE
                        (fun i => (nth i a1 0 * nth j (nth i (w2 m) []) 0)%R)))
              <$> seq 0 HIDDEN_2_SIZE in
  let out := (fun k => sigmoid (weighted_sum (nth k (b3 m) 0%R) HIDDEN_2_SIZE
                        (fun j => (nth j a2 0 * nth k (nth j (w3 m) []) 0)%R)))
              <$> seq 0 OUTPUT_SIZE in
  set_activations m a1 a2 out.

(** [m->output[0]] after [forward(m, inp)]. *)
Definition predict (m : Model) (inp : list R) : R := nth 0 (output (forward m inp)) 0%R.

(** One term of the cross-entropy sum of the epoch loop. *)
Definition cross_entropy (pred target : R) : R :=
  (- target * ln (pred + 1e-15) - (1 - target) * ln (1 - pred + 1e-15))%R.

(** [he_init]: [rand_value] is what [rand()] returned. *)
Definition he_init (RAND_MAX : Z) (rand_value : Z) (fan_in : nat) : R :=
  ((IZR rand_value / IZR RAND_MAX * 2 - 1) * sqrt (2 / INR fan_in))%R.

(** [init_model]: everything zeroed, then the weights drawn in the order of
    the three loops; [rand n] is the value of the [n]-th call of [rand()]. *)
Definition init_model (RAND_MAX : Z) (rand : nat -> Z) : Model :=
  let n1 := (INPUT_SIZE * HIDDEN_1_SIZE)%nat in
  let n2 := (HIDDEN_1_SIZE * HIDDEN_2_SIZE)%nat in
  let zeros2 rows cols := replicate rows (replicate cols 0%R) in
  {| w1 := (fun i => (fun j => he_init RAND_MAX (rand (i * HIDDEN_1_SIZE + j)%nat) INPUT_SIZE)
                       <$> seq 0 HIDDEN_1_SIZE) <$> seq 0 INPUT_SIZE;
     b1 := replicate HIDDEN_1_SIZE 0%R;
     w2 := (fun i => (fun j => he_init RAND_MAX (rand (n1 + i * HIDDEN_2_SIZE + j)%nat)
                                       HIDDEN_1_SIZE)
                       <$> seq 0 HIDDEN_2_SIZE) <$> seq 0 HIDDEN_1_SIZE;
     b2 := replicate HIDDEN_2_SIZE 0%R;
     w3 := (fun i => [he_init RAND_MAX (rand (n1 + n2 + i)%nat) HIDDEN_2_SIZE])
             <$> seq 0 HIDDEN_2_SIZE;
     b3 := replicate OUTPUT_SIZE 0%R;
     v_w1 := zeros2 INPUT_SIZE HIDDEN_1_SIZE; v_b1 := replicate HIDDEN_1_SIZE 0%R;
     v_w2 := zeros2 HIDDEN_1_SIZE HIDDEN_2_SIZE; v_b2 := replicate HIDDEN_2_SIZE 0%R;
     v_w3 := zeros2 HIDDEN_2_SIZE OUTPUT_SIZE; v_b3 := replicate OUTPUT_SIZE 0%R;
     h1 := replicate HIDDEN_1_SIZE 0%R; h2 := replicate HIDDEN_2_SIZE 0%R;
     output := replicate OUTPUT_SIZE 0%R;
     feat_mean := replicate INPUT_SIZE 0%R;
     feat_std := replicate INPUT_SIZE 0%R;
     num_trained_samples := 0 |}.

(** ** Normalizer *)

Definition column_sum (rows : list (list R)) (j : nat) : R :=
  fold_left (fun sum row => (sum + nth j row 0)%R) rows 0%R.

Definition column_sq_sum (rows : list (list R)) (j : nat) : R :=
  fold_left (fun sq_sum row => (sq_sum + nth j row 0 * nth j row 0)%R) rows 0%R.

Definition set_normalization (m : Model) (mean std : list R) : Model :=
  {| w1 := w1 m; b1 := b1 m; w2 := w2 m; b2 := b2 m; w3 := w3 m; b3 := b3 m;
     v_w1 := v_w1 m; v_b1 := v_b1 m; v_w2 := v_w2 m; v_b2 := v_b2 m;
     v_w3 := v_w3 m; v_b3 := v_b3 m;
     h1 := h1 m; h2 := h2 m; output := output m;
     feat_mean := mean; feat_std := std;
     num_trained_samples := num_trained_samples m |}.

(** [compute_normalization(raw, count, m)]: the rows [0 .. count-1]. *)
Definition normalization_mean (rows : list (list R)) (count : nat) (j : nat) : R :=
  (column_sum rows j / INR count)%R.

Definition normalization_std (rows : list (list R)) (count : nat) (j : nat) : R :=
  let mean := normalization_mean rows count j in
  let variance := (column_sq_sum rows j / INR count - mean * mean)%R in
  let std := sqrt (if Rgt_dec variance 0 then variance else 1e-8%R) in
  if Rlt_dec std 1e-8 then 1.0%R else std.

Definition compute_normalization (raw : list (list R)) (count : nat) (m : Model) : Model :=
  let rows := take count raw in
  set_normalization m
    (normalization_mean rows count <$> seq 0 INPUT_SIZE)
    (normalization_std rows count <$> seq 0 INPUT_SIZE).

Definition normalize_features (features : list R) (m : Model) : list R :=
  (fun i => ((nth i features 0 - nth i (feat_mean m) 0) / nth i (feat_std m) 0)%R)
    <$> seq 0 INPUT_SIZE.

(** The inverse affine map of the specification: [x * std + mean]. *)
Definition denormalize_features (normalized : list R) (m : Model) : list R :=
  (fun i => (nth i normalized 0 * nth i (feat_std m) 0 + nth i (feat_mean m) 0)%R)
    <$> seq 0 INPUT_SIZE.

(** ** Trainer: mirrored augmentation and validation rows *)

(** One turn of the augmentation loop of [train]; a row of [INPUT_SIZE]
    entries is copied, and negated entry by entry into row [i + B]. *)
Definition augment_step (B : nat) (raw_features : list (list R)) (labels : list R)
    (bufs : list (list R) * list R) (i : nat) : list (list R) * list R :=
  let row := nth i raw_features [] in
  let l := nth i labels 0%R in
  (<[(i + B)%nat := Ropp <$> row]> (<[i := row]> bufs.1),
   <[(i + B)%nat := (1 - l)%R]> (<[i := l]> bufs.2)).

(** [aug_raw0] and [aug_labels0] are the two buffers as [malloc] returned
    them ([augmented_samples = 2 * B] slots of unspecified content). *)
Definition augment (B : nat) (raw_features : list (list R)) (labels : list R)
    (aug_raw0 : list (list R)) (aug_labels0 : list R) : list (list R) * list R :=
  fold_left (augment_step B raw_features labels) (seq 0 B) (aug_raw0, aug_labels0).

(** [val_data[i] = normalize(raw_features[B + i]); val_labels[i] = labels[B + i]] *)
Definition validation_set (B val_count : nat) (raw_features : list (list R))
    (labels : list R) (m : Model) : list (list R) * list R :=
  ((fun i => normalize_features (nth (B + i) raw_features []) m) <$> seq 0 val_count,
   (fun i => nth (B + i) labels 0%R) <$> seq 0 val_count).

(** [labels[i] = (long double)fights[i].label] *)
Definition train_labels (fights : list UFCFight) : list R :=
  (fun fight => IZR (label fight)) <$> fights.

(** ** Inference *)

Definition temperature_scale_probability (prob temperature : R) : R :=
  let eps := 1e-12%R in
  if Rle_dec temperature 1.0 then prob
  else
    let prob := if Rlt_dec prob eps then eps else prob in
    let prob := if Rgt_dec prob (1.0 - eps) then (1.0 - eps)%R else prob in
    let logit := ln (prob / (1.0 - prob)) in
    sigmoid (logit / temperature).

(** [features[k] *= scale] *)
Definition scale_feature (k : nat) (scale : R) (features : list R) : list R :=
  alter (fun x => (x * scale)%R) k features.

(** The [if (future_mode)] block of [predict_interactive] on the features. *)
Definition damp_future_features (features : list R) : list R :=
  let context_scale := 0.20%R in
  let h2h_scale := 0.05%R in
  scale_feature FEAT_H2H_DELTA h2h_scale
    (scale_feature FEAT_WEIGHTED_SCORE_DELTA context_scale
       (scale_feature FEAT_TOTAL_FIGHTS_DELTA context_scale
          (scale_feature FEAT_TOTAL_WINS_DELTA context_scale
             (scale_feature FEAT_WIN_RATE_DELTA context_scale features)))).

(** [predict_interactive], from the computed [features] to the two reported
    probabilities, for the model [active_model] already selected. *)
Definition report_prediction (active_model : Model) (features : list R)
    (future_mode : bool) : R * R :=
  let features := if future_mode then damp_future_features features else features in
  let normalized := normalize_features features active_model in
  let prob_f1_wins := predict active_model normalized in
  let prob_f1_wins :=
    if future_mode then temperature_scale_probability prob_f1_wins 4.0
    else prob_f1_wins in
  let prob_f2_wins := (1.0 - prob_f1_wins)%R in
  (prob_f1_wins, prob_f2_wins).

(** A query that passed the guards of [predict_interactive] (both fighters
    known, statistics not identical). *)
Definition predict_query (realloc : Z -> ReallocResult) (active_model : Model)
    (fight : UFCFight) (pred_ctx : MatchContext) (future_mode : bool)
  : option (R * R) :=
  '(features, _) ← compute_features realloc fight pred_ctx;
  Some (report_prediction active_model features future_mode).

(** The recalibration of the specification: [sigmoid (logit (clamp p) / 4)]. *)
Definition clamp_probability (p : R) : R :=
  Rmin (Rmax p 1e-12) (1 - 1e-12).
Definition logit (p : R) : R := ln (p / (1 - p)).
Definition recalibrate (p : R) : R := sigmoid (logit (clamp_probability p) / 4).

(** The damping factors of the specification, by feature index. *)
Definition future_scale (i : nat) : R :=
  if bool_decide (i = FEAT_WIN_RATE_DELTA \/ i = FEAT_TOTAL_WINS_DELTA
                  \/ i = FEAT_TOTAL_FIGHTS_DELTA \/ i = FEAT_WEIGHTED_SCORE_DELTA)
  then 0.20%R
  else if bool_decide (i = FEAT_H2H_DELTA) then 0.05%R else 1%R.

(** ** Trainer: epoch loop control *)

Definition max_epochs : nat := 500.
Definition patience : Z := 50.

Inductive LoopExit := EarlyStop | Cancelled | MaxEpochs.

(** How the epoch loop ended: the number of completed epochs (the last
    completed epoch is [epochs_completed - 1]) and the best accuracy. *)
Record TrainRun := mkTrainRun {
  epochs_completed : nat;
  loop_exit : LoopExit;
  best_val_acc : Q
}.

(** The block "Early stopping on validation accuracy": [None] is [break]. *)
Definition early_stopping_step (best : Q) (no_improve : Z) (val_acc : Q)
  : option (Q * Z) :=
  if negb (Qle_bool val_acc best) then Some (val_acc, 0)
  else
    let no_improve := no_improve + 1 in
    if no_improve >=? patience then None else Some (best, no_improve).

Section EpochLoop.

(** [val_acc e] is [val_correct / val_count] measured in epoch [e] (a ratio
    of two counts); [keep_running e] is the cancellation flag as polled at
    the head of epoch [e]. *)
Variable val_acc : nat -> Q.
Variable keep_running : nat -> bool.

(** [for (epoch = ...; epoch < max_epochs && keep_running; epoch++)] with
    [fuel = max_epochs - epoch] turns left. *)
Fixpoint epoch_loop (fuel epoch : nat) (best : Q) (no_improve : Z) : TrainRun :=
  match fuel with
  | O => {| epochs_completed := epoch; loop_exit := MaxEpochs; best_val_acc := best |}
  | S fuel =>
      if keep_running epoch then
        match early_stopping_step best no_improve (val_acc epoch) with
        | Some (best, no_improve) => epoch_loop fuel (S epoch) best no_improve
        | None => {| epochs_completed := S epoch; loop_exit := EarlyStop;
                     best_val_acc := best |}
        end
      else {| epochs_completed := epoch; loop_exit := Cancelled;
              best_val_acc := best |}
  end.

Definition train_epochs : TrainRun := epoch_loop max_epochs 0 0 0.

(** [(best_val_acc, no_improve)] at the head of epoch [n], if the loop gets
    there. *)
Fixpoint state_before (n : nat) : option (Q * Z) :=
  match n with
  | O => Some (0%Q, 0)
  | S k =>
      match state_before k with
      | Some (best, no_improve) =>
          if keep_running k
          then early_stopping_step best no_improve (val_acc k)
          else None
      | None => None
      end
  end.

End EpochLoop.

(** ** Evaluator: threshold search *)

Record Confusion := mkConfusion { stp : Z; stn : Z; sfp : Z; sfn : Z }.

(** [val_probs[i] >= threshold ? 1 : 0] *)
Definition pred_class (prob threshold : Q) : Z :=
  if Qle_bool threshold prob then 1 else 0.

(** One turn of the counting loop; a sample is [(val_probs[i], val_true[i])]. *)
Definition count_sample (threshold : Q) (c : Confusion) (sample : Q * Z) : Confusion :=
  let pred_class := pred_class sample.1 threshold in
  let true_class := sample.2 in
  if (pred_class =? 1) && (true_class =? 1)
  then {| stp := stp c + 1; stn := stn c; sfp := sfp c; sfn := sfn c |}
  else if (pred_class =? 0) && (true_class =? 0)
  then {| stp := stp c; stn := stn c + 1; sfp := sfp c; sfn := sfn c |}
  else if (pred_class =? 1) && (true_class =? 0)
  then {| stp := stp c; stn := stn c; sfp := sfp c + 1; sfn := sfn c |}
  else if (pred_class =? 0) && (true_class =? 1)
  then {| stp := stp c; stn := stn c; sfp := sfp c; sfn := sfn c + 1 |}
  else c.

Definition confusion_at (threshold : Q) (samples : list (Q * Z)) : Confusion :=
  fold_left (count_sample threshold) samples
            {| stp := 0; stn := 0; sfp := 0; sfn := 0 |}.

(** [den > 0 ? num / den : 0] *)
Definition rate (num den : Z) : Q :=
  if den >? 0 then (inject_Z num / inject_Z den)%Q else 0%Q.

Definition bal_acc (threshold : Q) (samples : list (Q * Z)) : Q :=
  let c := confusion_at threshold samples in
  let tpr := rate (stp c) (stp c + sfn c) in
  let tnr := rate (stn c) (stn c + sfp c) in
  ((1 # 2) * (tpr + tnr))%Q.

(** [(long double)step / 100.0L] *)
Definition grid_threshold (step : Z) : Q := (inject_Z step / 100)%Q.

(** One turn of the grid loop on [(best_threshold, best_bal_acc)]. *)
Definition search_step (samples : list (Q * Z)) (best : Q * Q) (step : Z) : Q * Q :=
  let threshold := grid_threshold step in
  let bal_acc := bal_acc threshold samples in
  if negb (Qle_bool bal_acc best.2) then (threshold, bal_acc) else best.

(** [for (step = 20; step <= 80; step++)] from [(0.5, -1.0)]. *)
Definition threshold_search (samples : list (Q * Z)) : Q * Q :=
  fold_left (search_step samples) (seqZ 20 61) ((1 # 2)%Q, (- 1)%Q).

(** The threshold [t] separates the samples perfectly. *)
Definition separates (t : Q) (samples : list (Q * Z)) : Prop :=
  Forall (fun sample => (sample.2 = 1 /\ (t <= sample.1)%Q)
                        \/ (sample.2 = 0 /\ (sample.1 < t)%Q)) samples.

(** ** Persistence *)

(** [sizeof(Model)] on LP64 with 16-byte [long double]: 7011 long doubles,
    40 doubles and one int, padded to the alignment of the record. *)
Definition sizeof_Model : Z :=
  let long_doubles :=
    2 * (20 * 64 + 64 + 64 * 32 + 32 + 32 * 1 + 1) + (64 + 32 + 1) in
  let unpadded := long_doubles * 16 + (20 + 20) * 8 + 4 in
  ((unpadded + 15) / 16) * 16.

(** The files by path; a [Model] in memory is its object representation, a
    list of [sizeof_Model] bytes. *)
Definition FileSystem := gmap string (list Byte.byte).

(** [save_model]: [can_create] tells whether [fopen(path, "wb")] succeeds;
    the result of [fwrite] is not looked at. *)
Definition save_model (can_create : string -> bool) (m : list Byte.byte)
    (path : string) (fs : FileSystem) : Z * FileSystem :=
  if can_create path
  then (0, <[path := take (Z.to_nat sizeof_Model) m]> fs)
  else (-1, fs).

(** [load_model]: the return value and the content of [*m] afterwards. *)
Definition load_model (m : list Byte.byte) (path : string) (fs : FileSystem)
  : Z * list Byte.byte :=
  match fs !! path with
  | None => (-1, m)
  | Some content =>
      let sz := Z.of_nat (length content) in
      if sz <? sizeof_Model then (-1, m)
      else (0, take (Z.to_nat sizeof_Model) content)
  end.

(** [predict_interactive]: [active_model = *m], replaced by the class model
    when that loads. *)
Definition select_active_model (m : list Byte.byte) (class_model_path : string)
    (fs : FileSystem) : list Byte.byte :=
  let class_model := replicate (Z.to_nat sizeof_Model) Byte.x00 in
  match load_model class_model class_model_path fs with
  | (0, class_model) => class_model
  | _ => m
  end.

(** [main], global model: load it, or else [init_model], [train] and
    [save_model]; [trained] is the model that training produces. *)
Definition load_or_train (can_create : string -> bool) (trained : list Byte.byte)
    (model_path : string) (fs : FileSystem) : list Byte.byte * FileSystem :=
  let model := replicate (Z.to_nat sizeof_Model) Byte.x00 in
  match load_model model model_path fs with
  | (0, model) => (model, fs)
  | _ => (trained, (save_model can_create trained model_path fs).2)
  end.

(** ** Auxiliary notions of the statements *)

(** The record [get_or_add_fighter] appends for a new key. *)
Definition zero_record (k : string * string) : FighterRecord :=
  {| name := k.1; r_weight_class := k.2; wins := 0; losses := 0; total := 0 |}.

(** With distinct keys an update through the slot pointer of key [k] is the
    same as updating every record whose key is [k]. *)
Definition on_key (k : string * string) (g : FighterRecord -> FighterRecord)
                  (r : FighterRecord) : FighterRecord :=
  if decide (key r = k) then g r else r.

(** Slot [i] holds the only record with key [k]. *)
Definition slot_of (l : list FighterRecord) (i : nat) (k : string * string) : Prop :=
  NoDup (key <$> l) /\ exists r, l !! i = Some r /\ key r = k.

(** [g] changes counters only. *)
Definition keeps_key (g : FighterRecord -> FighterRecord) : Prop :=
  forall r, key (g r) = key r.

(** What [update_context_with_result] does to a record, by its key. *)
Definition bump (fight : UFCFight) (r : FighterRecord) : FighterRecord :=
  let k1 := (fighter1 fight, weight_class fight) in
  let k2 := (fighter2 fight, weight_class fight) in
  let r := on_key k2 inc_total (on_key k1 inc_total r) in
  if label fight =? 1 then on_key k2 inc_losses (on_key k1 inc_wins r)
  else if label fight =? 0 then on_key k1 inc_losses (on_key k2 inc_wins r)
  else r.

(** Rows agree from index [i] on: equal below the boundary, equal up to the
    outcome from the boundary on. *)
Fixpoint agree_from (tbc i : Z) (A B : list UFCFight) : Prop :=
  match A, B with
  | [], [] => True
  | a :: A, b :: B =>
      (if i <? tbc then a = b else forget_label a = forget_label b)
      /\ agree_from tbc (i + 1) A B
  | _, _ => False
  end.

(** The fight-count delta (feature 16) from the records read for a row. *)
Definition fights_delta
    (recs : option FighterRecord * option FighterRecord * option HeadToHeadRecord)
  : Z :=
  match recs.1.1 with Some r => total r | None => 0 end
  - match recs.1.2 with Some r => total r | None => 0 end.

(** The biases as [init_model] leaves them. *)
Definition zero_biases (m : Model) : Prop :=
  (forall j, nth j (b1 m) 0 = 0)%R /\ (forall j, nth j (b2 m) 0 = 0)%R
  /\ (forall k, nth k (b3 m) 0 = 0)%R.

(** The shape of the grid loop: keep the first strict maximum of [f]. *)
Definition keep_max (f : Z -> Q) (g : Z -> Q) (best : Q * Q) (s : Z) : Q * Q :=
  if negb (Qle_bool (f s) best.2) then (g s, f s) else best.

(** All four counters are non-negative. *)
Definition counts_nonneg (c : Confusion) : Prop :=
  (0 <= stp c /\ 0 <= stn c /\ 0 <= sfp c /\ 0 <= sfn c)%Z.

(** Number of samples of a class. *)
Definition class_count (y : Z) (samples : list (Q * Z)) : Z :=
  Z.of_nat (length (List.filter (fun sample => sample.2 =? y)%Z samples)).

(** ** Sample inputs *)

Definition two_bouts : list UFCFight :=
  [ sample_fight "2020-01-18" "Lightweight" "Ann" "Bea" 1;
    sample_fight "2020-06-27" "Lightweight" "Bea" "Cyd" 0 ].

Definition seven_bouts : list UFCFight :=
  [ sample_fight "2021-01-16" "Lightweight" "Dee" "Eve" 1;
    sample_fight "2021-02-13" "Lightweight" "Fay" "Gia" 0;
    sample_fight "2021-03-27" "Lightweight" "Dee" "Fay" 1;
    sample_fight "2021-04-24" "Lightweight" "Eve" "Gia" 0;
    sample_fight "2021-05-15" "Lightweight" "Ann" "Bea" 1;
    sample_fight "2021-06-12" "Lightweight" "Ann" "Cyd" 0;
    sample_fight "2021-07-10" "Lightweight" "Bea" "Cyd" 1 ].

Definition two_rows : list (list R) :=
  [ replicate INPUT_SIZE 1%R; replicate INPUT_SIZE 3%R ].

Definition plateau_after_3 (e : nat) : Q := if (e =? 3)%nat then 3 # 4 else 1 # 2.

Definition separable_pair : list (Q * Z) := [ ((9 # 10)%Q, 1); ((1 # 10)%Q, 0) ].

(** ** CSV reader *)

Definition dquote : ascii := "034"%char.
Definition comma : ascii := ","%char.

(** [parse_csv_field], first loop: walk to the start of column [col_idx];
    the result is the rest of the line from [line + i] on, [current_col] and
    [in_quotes]. *)
Fixpoint skip_columns (line : string) (col_idx current_col : Z) (in_quotes : bool)
  : string * Z * bool :=
  match line with
  | EmptyString => (line, current_col, in_quotes)
  | String c rest =>
      if current_col <? col_idx then
        if Ascii.eqb c dquote then skip_columns rest col_idx current_col (negb in_quotes)
        else if Ascii.eqb c comma && negb in_quotes
             then skip_columns rest col_idx (current_col + 1) in_quotes
             else skip_columns rest col_idx current_col in_quotes
      else (line, current_col, in_quotes)
  end.

(** [parse_csv_field], second loop: the characters stored into [out] from
    [out_idx] on. *)
Fixpoint extract_field (line : string) (in_quotes : bool) (out_idx out_size : Z)
  : string :=
  match line with
  | EmptyString => EmptyString
  | String c rest =>
      if out_idx <? out_size - 1 then
        let next_is_quote :=
          match rest with String c' _ => Ascii.eqb c' dquote | EmptyString => false end in
        if in_quotes && Ascii.eqb c dquote && next_is_quote then
          match rest with
          | String _ rest' => String dquote (extract_field rest' in_quotes (out_idx + 1) out_size)
          | EmptyString => EmptyString
          end
        else if in_quotes && Ascii.eqb c dquote then EmptyString
        else if negb in_quotes && Ascii.eqb c comma then EmptyString
        else String c (extract_field rest in_quotes (out_idx + 1) out_size)
      else EmptyString
  end.

(** [parse_csv_field(line, col_idx, out, out_size)]: the return value and the
    content of [out] afterwards. *)
Definition parse_csv_field (line : string) (col_idx : Z) (out : string) (out_size : Z)
  : Z * string :=
  let '(line, current_col, in_quotes) := skip_columns line col_idx 0 false in
  if negb (current_col =? col_idx) then (-1, out)
  else
    let '(line, in_quotes) :=
      match line with
      | String c rest => if Ascii.eqb c dquote then (rest, true) else (line, in_quotes)
      | EmptyString => (line, in_quotes)
      end in
    (0, extract_field line in_quotes 0 out_size).

(** Auxiliary: writing a CSV line. *)

(** A cell written as it is: it holds no comma and no quote. *)
Fixpoint plain (s : string) : bool :=
  match s with
  | EmptyString => true
  | String c rest => negb (Ascii.eqb c dquote) && negb (Ascii.eqb c comma) && plain rest
  end.

(** Every quote doubled. *)
Fixpoint double_quotes (s : string) : string :=
  match s with
  | EmptyString => EmptyString
  | String c rest =>
      if Ascii.eqb c dquote then String dquote (String dquote (double_quotes rest))
      else String c (double_quotes rest)
  end.

(** A cell is written quoted ([true]) or, when it is plain, as it is. *)
Definition render_cell (cell : bool * string) : string :=
  if cell.1 then String dquote (double_quotes cell.2 +:+ String dquote EmptyString)
  else cell.2.

Definition cell_ok (cell : bool * string) : bool := cell.1 || plain cell.2.

Definition render_line (cells : list (bool * string)) : string :=
  String.concat "," (render_cell <$> cells).

Definition csv_sample : list (bool * string) :=
  [ (false, "7"); (true, "Smith, Jr."); (false, "Lightweight") ].

(** ** Names and dates *)

(** [tolower] and [isalnum] of the C locale (the program never calls
    [setlocale]), on an [unsigned char]. *)
Definition tolower (c : ascii) : ascii :=
  let n := N_of_ascii c in
  if (65 <=? n)%N && (n <=? 90)%N then ascii_of_N (n + 32) else c.

Definition isalnum (c : ascii) : bool :=
  let n := N_of_ascii c in
  ((48 <=? n) && (n <=? 57) || (65 <=? n) && (n <=? 90) || (97 <=? n) && (n <=? 122))%N.

(** The loop and the final test of [name_equals_ci]. *)
Fixpoint name_equals_ci_loop (a b : string) : bool :=
  match a, b with
  | String ca a', String cb b' =>
      if negb (Ascii.eqb (tolower ca) (tolower cb)) then false
      else name_equals_ci_loop a' b'
  | EmptyString, EmptyString => true
  | _, _ => false
  end.

(** [name_equals_ci]; [None] is the NULL pointer. *)
Definition name_equals_ci (a b : option string) : bool :=
  match a, b with
  | Some a, Some b => name_equals_ci_loop a b
  | _, _ => false
  end.

Definition months : list string :=
  [ "January"; "February"; "March"; "April"; "May"; "June";
    "July"; "August"; "September"; "October"; "November"; "December" ].

(** [for (i = 0; i < 12; i++) if (name_equals_ci(month, months[i])) return i + 1;] *)
Fixpoint month_to_number_loop (month : option string) (i : Z) (rest : list string) : Z :=
  match rest with
  | [] => 0
  | m :: rest =>
      if name_equals_ci month (Some m) then i + 1
      else month_to_number_loop month (i + 1) rest
  end.

Definition month_to_number (month : option string) : Z :=
  month_to_number_loop month 0 months.

(** [is_allowed_weight_class] *)
Definition is_allowed_weight_class (weight_class : option string) : bool :=
  match weight_class with
  | Some (String _ _) => true
  | _ => false
  end.

(** [sanitize_class_name], the loop: [out] and [i] advance together. *)
Fixpoint sanitize_loop (src : string) (out dst_size : Z) : string :=
  match src with
  | EmptyString => EmptyString
  | String ch rest =>
      if out + 1 <? dst_size then
        String (if isalnum ch then tolower ch else "_"%char)
               (sanitize_loop rest (out + 1) dst_size)
      else EmptyString
  end.

(** [sanitize_class_name]: [None] is the return value -1, [Some dst] the
    return value 0 with the content of [dst]. *)
Definition sanitize_class_name (src : option string) (dst_size : Z) : option string :=
  match src with
  | None => None
  | Some src =>
      if dst_size <? 2 then None
      else
        let dst := sanitize_loop src 0 dst_size in
        Some (match dst with EmptyString => "u" | _ => dst end)
  end.

(** [build_class_model_path]: [snprintf] returns the length of the whole
    text; [Some path] is the return value 0. *)
Definition build_class_model_path (weight_class : option string) (path_size : Z)
  : option string :=
  match sanitize_class_name weight_class 128 with
  | None => None
  | Some slug =>
      let text := "ufc_model_" +:+ slug +:+ ".bin" in
      let written := Z.of_nat (String.length text) in
      if (0 <? written) && (written <? path_size) then Some text else None
  end.

(** Spec-side notions. *)
Fixpoint lower (s : string) : string :=
  match s with
  | EmptyString => EmptyString
  | String c rest => String (tolower c) (lower rest)
  end.

Definition slug_char (c : ascii) : bool :=
  let n := N_of_ascii c in
  ((48 <=? n) && (n <=? 57) || (97 <=? n) && (n <=? 122) || (n =? 95))%N.

Fixpoint all_chars (p : ascii -> bool) (s : string) : bool :=
  match s with
  | EmptyString => true
  | String c rest => p c && all_chars p rest
  end.

(** ** Fight history queries *)

(** [strncpy(dst, src, n)] into a zero-filled buffer of [n + 1] bytes, which
    is what every destination below is: the first [n] characters of [src]. *)
Definition strncpy (src : string) (n : Z) : string :=
  String.substring 0 (Z.to_nat n) src.

(** [name_equals_ci(fight.fighter1, n) || name_equals_ci(fight.fighter2, n)] *)
Definition names_fighter (fight : UFCFight) (n : string) : bool :=
  name_equals_ci (Some (fighter1 fight)) (Some n)
  || name_equals_ci (Some (fighter2 fight)) (Some n).

(** [fighter_exists_in_history] *)
Definition fighter_exists_in_history (fights : list UFCFight)
    (fighter_name : option string) : bool :=
  match fighter_name with
  | None | Some EmptyString => false
  | Some n => existsb (fun fight => names_fighter fight n) fights
  end.

(** The locals of [infer_latest_weight_class]. *)
Record LatestClasses := mkLatestClasses {
  latest_f1 : Z; latest_f2 : Z; class_f1 : string; class_f2 : string
}.

Section LatestWeightClass.

(** [event_date_to_key] reads the date with [sscanf]; the functions below
    hold for whatever key it assigns. *)
Variable event_date_to_key : string -> Z.

(** One iteration of the loop of [infer_latest_weight_class]. *)
Definition infer_step (f1 f2 : string) (st : LatestClasses) (fight : UFCFight)
  : LatestClasses :=
  let key := event_date_to_key (event_date fight) in
  if key <=? 0 then st
  else
    let st :=
      if names_fighter fight f1 then
        if key >? latest_f1 st
        then {| latest_f1 := key; latest_f2 := latest_f2 st;
                class_f1 := strncpy (weight_class fight) 63; class_f2 := class_f2 st |}
        else st
      else st in
    if names_fighter fight f2 then
      if key >? latest_f2 st
      then {| latest_f1 := latest_f1 st; latest_f2 := key;
              class_f1 := class_f1 st; class_f2 := strncpy (weight_class fight) 63 |}
      else st
    else st.

(** [infer_latest_weight_class]: the return value and the content of
    [out_class] afterwards. *)
Definition infer_latest_weight_class (fights : list UFCFight) (f1 f2 : string)
    (out_class : string) (out_size : Z) : Z * string :=
  let st := fold_left (infer_step f1 f2) fights
              {| latest_f1 := 0; latest_f2 := 0; class_f1 := ""; class_f2 := "" |} in
  if (latest_f1 st =? 0) && (latest_f2 st =? 0) then (0, out_class)
  else if (latest_f1 st >? 0) && (latest_f2 st >? 0) then
    if String.eqb (class_f1 st) (class_f2 st)
    then (1, strncpy (class_f1 st) (out_size - 1))
    else if latest_f1 st >=? latest_f2 st
         then (2, strncpy (class_f1 st) (out_size - 1))
         else (2, strncpy (class_f2 st) (out_size - 1))
  else if latest_f1 st >? 0
       then (1, strncpy (class_f1 st) (out_size - 1))
       else (1, strncpy (class_f2 st) (out_size - 1)).

End LatestWeightClass.

(** The twelve statistics of one side, in the order of the struct. *)
Definition side_stats (fight : UFCFight) (side : Z) : list R :=
  if side =? 1
  then [ f1_height fight; f1_reach fight; f1_age fight;
         f1_sig_strikes_pm fight; f1_sig_strikes_acc fight;
         f1_sig_strikes_abs fight; f1_sig_strikes_def fight;
         f1_takedown_avg fight; f1_takedown_acc fight; f1_takedown_def fight;
         f1_sub_avg fight; f1_weight fight ]
  else [ f2_height fight; f2_reach fight; f2_age fight;
         f2_sig_strikes_pm fight; f2_sig_strikes_acc fight;
         f2_sig_strikes_abs fight; f2_sig_strikes_def fight;
         f2_takedown_avg fight; f2_takedown_acc fight; f2_takedown_def fight;
         f2_sub_avg fight; f2_weight fight ].

(** [apply_fighter_stats]: [stats[0..11]] written to side 1 when
    [fighter_index == 1], to side 2 otherwise. *)
Definition apply_fighter_stats (fight : UFCFight) (fighter_index : Z) (stats : list R)
  : UFCFight :=
  let s i := nth i stats 0%R in
  if fighter_index =? 1 then
    {| event_date := event_date fight; weight_class := weight_class fight;
       fighter1 := fighter1 fight; fighter2 := fighter2 fight;
       f1_height := s 0%nat; f1_reach := s 1%nat; f1_age := s 2%nat;
       f1_sig_strikes_pm := s 3%nat; f1_sig_strikes_acc := s 4%nat;
       f1_sig_strikes_abs := s 5%nat; f1_sig_strikes_def := s 6%nat;
       f1_takedown_avg := s 7%nat; f1_takedown_acc := s 8%nat;
       f1_takedown_def := s 9%nat; f1_sub_avg := s 10%nat; f1_weight := s 11%nat;
       f2_height := f2_height fight; f2_reach := f2_reach fight; f2_age := f2_age fight;
       f2_sig_strikes_pm := f2_sig_strikes_pm fight;
       f2_sig_strikes_acc := f2_sig_strikes_acc fight;
       f2_sig_strikes_abs := f2_sig_strikes_abs fight;
       f2_sig_strikes_def := f2_sig_strikes_def fight;
       f2_takedown_avg := f2_takedown_avg fight; f2_takedown_acc := f2_takedown_acc fight;
       f2_takedown_def := f2_takedown_def fight;
       f2_sub_avg := f2_sub_avg fight; f2_weight := f2_weight fight;
       label := label fight |}
  else
    {| event_date := event_date fight; weight_class := weight_class fight;
       fighter1 := fighter1 fight; fighter2 := fighter2 fight;
       f1_height := f1_height fight; f1_reach := f1_reach fight; f1_age := f1_age fight;
       f1_sig_strikes_pm := f1_sig_strikes_pm fight;
       f1_sig_strikes_acc := f1_sig_strikes_acc fight;
       f1_sig_strikes_abs := f1_sig_strikes_abs fight;
       f1_sig_strikes_def := f1_sig_strikes_def fight;
       f1_takedown_avg := f1_takedown_avg fight; f1_takedown_acc := f1_takedown_acc fight;
       f1_takedown_def := f1_takedown_def fight;
       f1_sub_avg := f1_sub_avg fight; f1_weight := f1_weight fight;
       f2_height := s 0%nat; f2_reach := s 1%nat; f2_age := s 2%nat;
       f2_sig_strikes_pm := s 3%nat; f2_sig_strikes_acc := s 4%nat;
       f2_sig_strikes_abs := s 5%nat; f2_sig_strikes_def := s 6%nat;
       f2_takedown_avg := s 7%nat; f2_takedown_acc := s 8%nat;
       f2_takedown_def := s 9%nat; f2_sub_avg := s 10%nat; f2_weight := s 11%nat;
       label := label fight |}.

(** [copy_fighter_stats]: the twelve source values are read from side
    [src_side] of [src] and stored to side [dst_side] of [dst]; a side other
    than 1 is side 2. *)
Definition copy_fighter_stats (dst : UFCFight) (dst_side : Z)
    (src : UFCFight) (src_side : Z) : UFCFight :=
  let s_height := if src_side =? 1 then f1_height src else f2_height src in
  let s_reach := if src_side =? 1 then f1_reach src else f2_reach src in
  let s_age := if src_side =? 1 then f1_age src else f2_age src in
  let s_sig_pm := if src_side =? 1 then f1_sig_strikes_pm src else f2_sig_strikes_pm src in
  let s_sig_acc := if src_side =? 1 then f1_sig_strikes_acc src else f2_sig_strikes_acc src in
  let s_sig_abs := if src_side =? 1 then f1_sig_strikes_abs src else f2_sig_strikes_abs src in
  let s_sig_def := if src_side =? 1 then f1_sig_strikes_def src else f2_sig_strikes_def src in
  let s_td_avg := if src_side =? 1 then f1_takedown_avg src else f2_takedown_avg src in
  let s_td_acc := if src_side =? 1 then f1_takedown_acc src else f2_takedown_acc src in
  let s_td_def := if src_side =? 1 then f1_takedown_def src else f2_takedown_def src in
  let s_sub := if src_side =? 1 then f1_sub_avg src else f2_sub_avg src in
  let s_weight := if src_side =? 1 then f1_weight src else f2_weight src in
  apply_fighter_stats dst dst_side
    [ s_height; s_reach; s_age; s_sig_pm; s_sig_acc; s_sig_abs; s_sig_def;
      s_td_avg; s_td_acc; s_td_def; s_sub; s_weight ].

(** [strcmp(fights[i].fighter1, name) == 0 ? 1 : strcmp(fights[i].fighter2, name) == 0 ? 2 : 0] *)
Definition hit_side (fight : UFCFight) (fighter_name : string) : Z :=
  if String.eqb (fighter1 fight) fighter_name then 1
  else if String.eqb (fighter2 fight) fighter_name then 2 else 0.

(** The loop of [load_latest_fighter_snapshot] from index [i] on; [all] is the
    whole array, read at [best_idx]. *)
Fixpoint snapshot_loop (all rest : list UFCFight) (i : Z)
    (weight_class_name fighter_name : string) (best_idx best_side : Z) : Z * Z :=
  match rest with
  | [] => (best_idx, best_side)
  | fight :: rest =>
      if negb (String.eqb (weight_class fight) weight_class_name)
      then snapshot_loop all rest (i + 1) weight_class_name fighter_name best_idx best_side
      else if hit_side fight fighter_name =? 0
      then snapshot_loop all rest (i + 1) weight_class_name fighter_name best_idx best_side
      else if (best_idx <? 0)
              || strcmp_gt (event_date fight)
                   (from_option event_date "" (all !! Z.to_nat best_idx))
      then snapshot_loop all rest (i + 1) weight_class_name fighter_name
             i (hit_side fight fighter_name)
      else snapshot_loop all rest (i + 1) weight_class_name fighter_name best_idx best_side
  end.

(** [load_latest_fighter_snapshot]: the return value and [*query] afterwards. *)
Definition load_latest_fighter_snapshot (fights : list UFCFight)
    (weight_class_name fighter_name : string) (query : UFCFight) (query_side : Z)
  : Z * UFCFight :=
  let '(best_idx, best_side) :=
    snapshot_loop fights fights 0 weight_class_name fighter_name (-1) 0 in
  if best_idx <? 0 then (-1, query)
  else
    match fights !! Z.to_nat best_idx with
    | Some src => (0, copy_fighter_stats query query_side src best_side)
    | None => (-1, query)
    end.

(** Spec-side notions. *)

(** [latest] and [cls] are the newest positive key, and the class of the
    first fight carrying it, among the fights of [seen] that name [f]. *)
Definition latest_of (key : string -> Z) (f : string) (seen : list UFCFight)
    (latest : Z) (cls : string) : Prop :=
  0 <= latest
  /\ (forall g, g ∈ seen -> names_fighter g f = true ->
                key (event_date g) <= latest)
  /\ (0 < latest ->
      exists fight, fight ∈ seen /\ names_fighter fight f = true
                    /\ key (event_date fight) = latest
                    /\ cls = strncpy (weight_class fight) 63).

(** A fight of the class that names the fighter exactly. *)
Definition snapshot_match (wc n : string) (fight : UFCFight) : Prop :=
  weight_class fight = wc /\ hit_side fight n <> 0.

Definition other_side (side : Z) : Z := if side =? 1 then 2 else 1.

(** The state of the loop of [load_latest_fighter_snapshot] after the fights
    [seen]. *)
Definition snapshot_inv (wc n : string) (all seen : list UFCFight)
    (best_idx best_side : Z) : Prop :=
  (best_idx = -1 /\ forall g, g ∈ seen -> ~ snapshot_match wc n g)
  \/ (exists b, 0 <= best_idx /\ all !! Z.to_nat best_idx = Some b
               /\ b ∈ seen /\ snapshot_match wc n b /\ best_side = hit_side b n
               /\ forall g, g ∈ seen -> snapshot_match wc n g ->
                            strcmp_gt (event_date g) (event_date b) = false).

(** Counters that a record can hold after any sequence of updates. *)
Definition fighter_counts_sane (r : FighterRecord) : Prop :=
  0 <= wins r /\ 0 <= losses r /\ wins r + losses r <= total r.

Definition h2h_counts_sane (h : HeadToHeadRecord) : Prop :=
  0 <= wins_a h /\ 0 <= wins_b h /\ wins_a h + wins_b h <= h_total h.

Definition context_sane (ctx : MatchContext) : Prop :=
  Forall fighter_counts_sane (fighters ctx) /\ Forall h2h_counts_sane (h2h ctx).

(** The fight with the two corners exchanged. *)
Definition swap_corners (fight : UFCFight) : UFCFight :=
  {| event_date := event_date fight; weight_class := weight_class fight;
     fighter1 := fighter2 fight; fighter2 := fighter1 fight;
     f1_height := f2_height fight; f1_reach := f2_reach fight; f1_age := f2_age fight;
     f1_sig_strikes_pm := f2_sig_strikes_pm fight;
     f1_sig_strikes_acc := f2_sig_strikes_acc fight;
     f1_sig_strikes_abs := f2_sig_strikes_abs fight;
     f1_sig_strikes_def := f2_sig_strikes_def fight;
     f1_takedown_avg := f2_takedown_avg fight; f1_takedown_acc := f2_takedown_acc fight;
     f1_takedown_def := f2_takedown_def fight;
     f1_sub_avg := f2_sub_avg fight; f1_weight := f2_weight fight;
     f2_height := f1_height fight; f2_reach := f1_reach fight; f2_age := f1_age fight;
     f2_sig_strikes_pm := f1_sig_strikes_pm fight;
     f2_sig_strikes_acc := f1_sig_strikes_acc fight;
     f2_sig_strikes_abs := f1_sig_strikes_abs fight;
     f2_sig_strikes_def := f1_sig_strikes_def fight;
     f2_takedown_avg := f1_takedown_avg fight; f2_takedown_acc := f1_takedown_acc fight;
     f2_takedown_def := f1_takedown_def fight;
     f2_sub_avg := f1_sub_avg fight; f2_weight := f1_weight fight;
     label := 1 - label fight |}.

(** ** Class-specific training *)

(** [WeightClassBucket]: [fights] holds the slots [0 .. count-1]. *)
Record WeightClassBucket := mkWeightClassBucket {
  b_weight_class : string;
  b_fights : list UFCFight;
  b_cap : Z
}.

Section ClassTraining.

Variable realloc : Z -> ReallocResult.

(** [get_or_add_bucket]: the slot the returned pointer refers to (the callers
    use it before any other allocation), the array and [*cap] afterwards. *)
Definition get_or_add_bucket (buckets : list WeightClassBucket) (cap : Z)
    (weight_class_name : string) : option nat * list WeightClassBucket * Z :=
  match list_find (fun b => b_weight_class b = weight_class_name) buckets with
  | Some (i, _) => (Some i, buckets, cap)
  | None =>
      let grown :=
        if Z.of_nat (length buckets) >=? cap then
          let next_cap := if cap =? 0 then 16 else cap * 2 in
          match realloc next_cap with
          | ReallocFails => None
          | _ => Some next_cap
          end
        else Some cap in
      match grown with
      | None => (None, buckets, cap)
      | Some cap =>
          let bucket := {| b_weight_class := strncpy weight_class_name 63;
                           b_fights := []; b_cap := 0 |} in
          (Some (length buckets), buckets ++ [bucket], cap)
      end
  end.

(** [bucket_push_fight]: [None] is the return value -1. *)
Definition bucket_push_fight (bucket : WeightClassBucket) (fight : UFCFight)
  : option WeightClassBucket :=
  let grown :=
    if Z.of_nat (length (b_fights bucket)) >=? b_cap bucket then
      let next_cap := if b_cap bucket =? 0 then 128 else b_cap bucket * 2 in
      match realloc next_cap with
      | ReallocFails => None
      | _ => Some next_cap
      end
    else Some (b_cap bucket) in
  match grown with
  | None => None
  | Some cap =>
      Some {| b_weight_class := b_weight_class bucket;
              b_fights := b_fights bucket ++ [fight]; b_cap := cap |}
  end.

(** [fights[i].weight_class[0] ? fights[i].weight_class : "Unknown"] *)
Definition class_or_unknown (fight : UFCFight) : string :=
  match weight_class fight with
  | EmptyString => "Unknown"
  | wc => wc
  end.

(** [train_models_by_class], first loop; [None] is the return value -1. *)
Fixpoint bucket_fights (fights : list UFCFight) (buckets : list WeightClassBucket)
    (bucket_cap : Z) : option (list WeightClassBucket * Z) :=
  match fights with
  | [] => Some (buckets, bucket_cap)
  | fight :: rest =>
      match get_or_add_bucket buckets bucket_cap (class_or_unknown fight) with
      | (None, _, _) => None
      | (Some i, buckets, bucket_cap) =>
          bucket ← buckets !! i;
          bucket ← bucket_push_fight bucket fight;
          bucket_fights rest (<[i := bucket]> buckets) bucket_cap
      end
  end.

(** [init_model] and [train] on the fights of a bucket leave the bytes
    [trained fights] in [class_model]. *)
Variable trained : list UFCFight -> list Byte.byte.
Variable can_create : string -> bool.

(** [train_models_by_class], second loop: the return value and the files. *)
Fixpoint train_buckets (buckets : list WeightClassBucket) (fs : FileSystem)
  : Z * FileSystem :=
  match buckets with
  | [] => (0, fs)
  | bucket :: rest =>
      if Z.of_nat (length (b_fights bucket)) <? 20 then train_buckets rest fs
      else
        let class_model := trained (b_fights bucket) in
        match build_class_model_path (Some (b_weight_class bucket)) 256 with
        | None => (-1, fs)
        | Some class_model_path =>
            match save_model can_create class_model class_model_path fs with
            | (0, fs) => train_buckets rest fs
            | (_, fs) => (-1, fs)
            end
        end
  end.

Definition train_models_by_class (fights : list UFCFight) (fs : FileSystem)
  : Z * FileSystem :=
  match bucket_fights fights [] 0 with
  | None => (-1, fs)
  | Some (buckets, _) => train_buckets buckets fs
  end.

End ClassTraining.

(** Spec-side: the buckets after the fights [seen]. *)
Definition buckets_of (seen : list UFCFight) (buckets : list WeightClassBucket) : Prop :=
  NoDup (b_weight_class <$> buckets)
  /\ Forall (fun b => b_fights b
                      = List.filter (fun f => String.eqb (class_or_unknown f)
                                                (b_weight_class b)) seen
                      /\ b_fights b <> []) buckets
  /\ (forall f, f ∈ seen -> class_or_unknown f ∈ (b_weight_class <$> buckets)).

(** A file of [sizeof(Model)] bytes is at [path]. *)
Definition model_file (fs : FileSystem) (path : string) : Prop :=
  exists content, fs !! path = Some content /\ length content = Z.to_nat sizeof_Model.

(** Twenty fights of one class, and a model image of [sizeof(Model)] zero
    bytes. *)
Definition twenty_bouts : list UFCFight :=
  replicate 20 (sample_fight "2021-01-16" "Lightweight" "Dee" "Eve" 1).

Definition blank_model : list Byte.byte := replicate (Z.to_nat sizeof_Model) Byte.x00.

(** ** Evaluator: report *)

Record ClassStats := mkClassStats {
  cs_weight_class : string;
  cs_total : Z;
  cs_correct : Z
}.

Section ClassAccuracy.

Variable realloc : Z -> ReallocResult.

(** [get_or_add_class_stats] for a non-NULL class name: the slot the returned
    pointer refers to (it is used at once), the array and [*cap] afterwards. *)
Definition get_or_add_class_stats (stats : list ClassStats) (cap : Z)
    (weight_class_name : string) : option nat * list ClassStats * Z :=
  match list_find (fun s => cs_weight_class s = weight_class_name) stats with
  | Some (i, _) => (Some i, stats, cap)
  | None =>
      let grown :=
        if Z.of_nat (length stats) >=? cap then
          let next_cap := if cap =? 0 then 16 else cap * 2 in
          match realloc next_cap with
          | ReallocFails => None
          | _ => Some next_cap
          end
        else Some cap in
      match grown with
      | None => (None, stats, cap)
      | Some cap =>
          let slot :=
            {| cs_weight_class :=
                 match weight_class_name with
                 | EmptyString => strncpy "Unknown" 63
                 | _ => strncpy weight_class_name 63
                 end;
               cs_total := 0; cs_correct := 0 |} in
          (Some (length stats), stats ++ [slot], cap)
      end
  end.

(** [bucket->total++; if (pred_class == true_class) bucket->correct++;] *)
Definition count_in_class (pred_class true_class : Z) (s : ClassStats) : ClassStats :=
  {| cs_weight_class := cs_weight_class s;
     cs_total := cs_total s + 1;
     cs_correct := if pred_class =? true_class then cs_correct s + 1 else cs_correct s |}.

(** One turn of the last loop of [evaluate_model]; a sample is
    [(val_probs[i], val_true[i], fights[train_base_count + i].weight_class)].
    The four-way count is the one of the search loop. *)
Definition report_step (best_threshold : Q)
    (st : Confusion * list ClassStats * Z) (sample : Q * Z * string)
  : Confusion * list ClassStats * Z :=
  let '(c, class_stats, class_cap) := st in
  let '(prob, true_class, weight_class_name) := sample in
  let c := count_sample best_threshold c (prob, true_class) in
  match get_or_add_class_stats class_stats class_cap weight_class_name with
  | (Some bucket, class_stats, class_cap) =>
      (c, alter (count_in_class (pred_class prob best_threshold) true_class)
                bucket class_stats, class_cap)
  | (None, class_stats, class_cap) => (c, class_stats, class_cap)
  end.

End ClassAccuracy.

(** What [evaluate_model] prints. *)
Record EvalReport := mkEvalReport {
  best_threshold : Q;
  tp : Z; tn : Z; fp : Z; fn : Z;
  accuracy : Q; precision : Q; recall : Q; f1 : Q;
  specificity : Q; balanced_accuracy : Q;
  class_stats : list ClassStats
}.

(** [evaluate_model] from the validation probabilities on. *)
Definition evaluate_report (realloc : Z -> ReallocResult)
    (samples : list (Q * Z * string)) : EvalReport :=
  let best_threshold := (threshold_search (fst <$> samples)).1 in
  let '(c, class_stats, _) :=
    fold_left (report_step realloc best_threshold) samples
      ({| stp := 0; stn := 0; sfp := 0; sfn := 0 |}, [], 0) in
  let tp := stp c in
  let tn := stn c in
  let fp := sfp c in
  let fn := sfn c in
  let total := tp + tn + fp + fn in
  let accuracy := rate (tp + tn) total in
  let precision := rate tp (tp + fp) in
  let recall := rate tp (tp + fn) in
  let f1 := if negb (Qle_bool (precision + recall) 0)
            then (2 * precision * recall / (precision + recall))%Q else 0%Q in
  let specificity := rate tn (tn + fp) in
  let balanced_accuracy := ((1 # 2) * (recall + specificity))%Q in
  {| best_threshold := best_threshold; tp := tp; tn := tn; fp := fp; fn := fn;
     accuracy := accuracy; precision := precision; recall := recall; f1 := f1;
     specificity := specificity; balanced_accuracy := balanced_accuracy;
     class_stats := class_stats |}.

(** Spec-side sums over the per-class table. *)
Fixpoint sum_total (stats : list ClassStats) : Z :=
  match stats with [] => 0 | s :: stats => cs_total s + sum_total stats end.
Fixpoint sum_correct (stats : list ClassStats) : Z :=
  match stats with [] => 0 | s :: stats => cs_correct s + sum_correct stats end.

Definition class_counts_ok (s : ClassStats) : Prop := 0 <= cs_correct s <= cs_total s.

(** ** Trainer: shuffle *)

(** [tmp = a[i]; a[i] = a[j]; a[j] = tmp;] -- [None] when an index is outside
    the array (undefined behaviour). *)
Definition swap_slots {A} (a : list A) (i j : Z) : option (list A) :=
  if (0 <=? i) && (0 <=? j) then
    match a !! Z.to_nat i, a !! Z.to_nat j with
    | Some tmp, Some aj => Some (<[Z.to_nat j := tmp]> (<[Z.to_nat i := aj]> a))
    | _, _ => None
    end
  else None.

Section EpochShuffle.

(** [rand calls] is what [rand()] returns after [calls] earlier calls. *)
Variable rand : nat -> Z.

(** [for (i = ...; i > 0; i--) { j = rand() % (i + 1); swap rows and labels }]
    from index [i] down; the result holds the two arrays and the number of
    calls of [rand] made so far. *)
Fixpoint shuffle_from (i : nat) (calls : nat) (data : list (list R)) (labels : list R)
  : option (list (list R) * list R * nat) :=
  match i with
  | O => Some (data, labels, calls)
  | S i' =>
      let j := Z.rem (rand calls) (Z.of_nat i + 1) in
      data ← swap_slots data (Z.of_nat i) j;
      labels ← swap_slots labels (Z.of_nat i) j;
      shuffle_from i' (S calls) data labels
  end.

(** The shuffle of one epoch: [i] starts at [train_count - 1]. *)
Definition shuffle (calls : nat) (data : list (list R)) (labels : list R)
  : option (list (list R) * list R * nat) :=
  shuffle_from (length data - 1) calls data labels.

End EpochShuffle.

(** ** Loader *)

(** [strstr(haystack, needle) != NULL] *)
Fixpoint strstr (haystack needle : string) : bool :=
  String.prefix needle haystack
  || match haystack with
     | String _ rest => strstr rest needle
     | EmptyString => false
     end.

(** [x > 0.0 ? num / den : 0.0] and [x > 0.0 ? 1.0 - num / den : 0.0] *)
Definition ratio_or_zero (x num den : R) : R :=
  if Rlt_dec 0.0 x then (num / den)%R else 0.0%R.
Definition miss_or_zero (x num den : R) : R :=
  if Rlt_dec 0.0 x then (1.0 - num / den)%R else 0.0%R.

(** [x <= y] and [x < y] on [double]s, as conditions. *)
Definition Rleb (x y : R) : bool := if Rle_dec x y then true else false.
Definition Rltb (x y : R) : bool := if Rlt_dec x y then true else false.

(** The label of a row from its [outcome] column. *)
Definition outcome_label (outcome : string) : Z :=
  if String.eqb outcome "1" || strstr outcome "fighter1" then 1
  else if String.eqb outcome "0" || strstr outcome "fighter2" then 0
  else -1.

Section CsvLoader.

(** [atof] stands for the C library function. *)
Variable atof : string -> R.

(** [parse_csv_field(line, col, field, sizeof(field)); x = atof(field);] with
    the shared buffer [field]: a missing column leaves it as it was. *)
Definition read_number (line : string) (col : Z) (field : string) : R * string :=
  let field := (parse_csv_field line col field 256).2 in
  (atof field, field).

(** [parse_csv_field] into a field of the slot, zeroed by [memset]. *)
Definition read_text (line : string) (col : Z) (size : Z) : string :=
  (parse_csv_field line col "" size).2.

(** The body of the [while (fgets(...))] loop of [load_ufc_data] for one
    line: the fight when the row is counted, and [field] afterwards. *)
Definition load_row (line : string) (field : string) : option UFCFight * string :=
  let event_date := read_text line 1 32 in
  let weight_class := read_text line 2 64 in
  let fighter1 := read_text line 4 64 in
  let fighter2 := read_text line 5 64 in
  let outcome := read_text line 3 16 in
  let '(f1_age, field) := read_number line 6 field in
  let '(f1_height, field) := read_number line 7 field in
  let '(f1_reach, field) := read_number line 8 field in
  let '(f1_weight, field) := read_number line 9 field in
  let '(f2_age, field) := read_number line 11 field in
  let '(f2_height, field) := read_number line 12 field in
  let '(f2_reach, field) := read_number line 13 field in
  let '(f2_weight, field) := read_number line 14 field in
  let '(f1_sig_landed, field) := read_number line 50 field in
  let '(f1_sig_attempted, field) := read_number line 51 field in
  let '(f1_td_landed, field) := read_number line 52 field in
  let '(f1_td_attempted, field) := read_number line 53 field in
  let '(f1_sub_attempts, field) := read_number line 56 field in
  let '(f1_minutes, field) := read_number line 57 field in
  let '(f2_sig_landed, field) := read_number line 58 field in
  let '(f2_sig_attempted, field) := read_number line 59 field in
  let '(f2_td_landed, field) := read_number line 60 field in
  let '(f2_td_attempted, field) := read_number line 61 field in
  let '(f2_sub_attempts, field) := read_number line 64 field in
  let '(f2_minutes, field) := read_number line 65 field in
  if Rleb f1_minutes 0.0 || Rleb f2_minutes 0.0 then (None, field)
  else
    let label := outcome_label outcome in
    let fight :=
      {| event_date := event_date; weight_class := weight_class;
         fighter1 := fighter1; fighter2 := fighter2;
         f1_height := f1_height; f1_reach := f1_reach; f1_age := f1_age;
         f1_sig_strikes_pm := f1_sig_landed / f1_minutes;
         f1_sig_strikes_acc := ratio_or_zero f1_sig_attempted f1_sig_landed f1_sig_attempted;
         f1_sig_strikes_abs := f2_sig_landed / f1_minutes;
         f1_sig_strikes_def := miss_or_zero f2_sig_attempted f2_sig_landed f2_sig_attempted;
         f1_takedown_avg := f1_td_landed / f1_minutes * 15.0;
         f1_takedown_acc := ratio_or_zero f1_td_attempted f1_td_landed f1_td_attempted;
         f1_takedown_def := miss_or_zero f2_td_attempted f2_td_landed f2_td_attempted;
         f1_sub_avg := f1_sub_attempts / f1_minutes * 15.0;
         f1_weight := f1_weight;
         f2_height := f2_height; f2_reach := f2_reach; f2_age := f2_age;
         f2_sig_strikes_pm := f2_sig_landed / f2_minutes;
         f2_sig_strikes_acc := ratio_or_zero f2_sig_attempted f2_sig_landed f2_sig_attempted;
         f2_sig_strikes_abs := f1_sig_landed / f2_minutes;
         f2_sig_strikes_def := miss_or_zero f1_sig_attempted f1_sig_landed f1_sig_attempted;
         f2_takedown_avg := f2_td_landed / f2_minutes * 15.0;
         f2_takedown_acc := ratio_or_zero f2_td_attempted f2_td_landed f2_td_attempted;
         f2_takedown_def := miss_or_zero f1_td_attempted f1_td_landed f1_td_attempted;
         f2_sub_avg := f2_sub_attempts / f2_minutes * 15.0;
         f2_weight := f2_weight;
         label := label |}%R in
    if (label >=? 0) && Rltb 0 f1_height && Rltb 0 f2_height
       && Rltb 0 f1_age && Rltb 0 f2_age
       && is_allowed_weight_class (Some weight_class)
    then (Some fight, field) else (None, field).

(** The loop over the lines that follow the header. *)
Fixpoint load_rows (lines : list string) (field : string) : list UFCFight :=
  match lines with
  | [] => []
  | line :: lines =>
      let '(fight, field) := load_row line field in
      match fight with
      | Some fight => fight :: load_rows lines field
      | None => load_rows lines field
      end
  end.

(** [load_ufc_data] on the lines [fgets] delivers ([None]: the file cannot
    be opened): the return value and the fights counted. *)
Definition load_ufc_data (file : option (list string)) : Z * list UFCFight :=
  match file with
  | None => (-1, [])
  | Some [] => (-1, [])
  | Some (header :: lines) => (0, load_rows lines "")
  end.

End CsvLoader.

(** What the loader guarantees of a fight it counts. *)
Definition loaded_ok (fight : UFCFight) : Prop :=
  resolved fight
  /\ (0 < f1_height fight /\ 0 < f2_height fight /\ 0 < f1_age fight /\ 0 < f2_age fight)%R
  /\ weight_class fight <> ""
  /\ Z.of_nat (String.length (event_date fight)) <= 31
  /\ Z.of_nat (String.length (weight_class fight)) <= 63
  /\ Z.of_nat (String.length (fighter1 fight)) <= 63
  /\ Z.of_nat (String.length (fighter2 fight)) <= 63.

(** ** Inference: the announced winner *)

Inductive Verdict := WinnerFighter1 | WinnerFighter2 | Unsure.

(** The last lines of [predict_interactive]. *)
Definition predicted_winner (prob_f1_wins prob_f2_wins : R) : Verdict :=
  let decision_threshold := 0.95%R in
  if Rle_dec decision_threshold prob_f1_wins then WinnerFighter1
  else if Rle_dec decision_threshold prob_f2_wins then WinnerFighter2
  else Unsure.

Definition report_verdict (active_model : Model) (features : list R)
    (future_mode : bool) : Verdict :=
  let '(prob_f1_wins, prob_f2_wins) :=
    report_prediction active_model features future_mode in
  predicted_winner prob_f1_wins prob_f2_wins.

(** ** Trainer: learning rate *)

(** [lr = initial_lr * powl(0.95, epoch / 20.0); if (lr < min_lr) lr = min_lr;] *)
Definition learning_rate (epoch : nat) : R :=
  let initial_lr := 0.01%R in
  let min_lr := 0.0001%R in
  let lr := (initial_lr * Rpower 0.95 (INR epoch / 20.0))%R in
  if Rlt_dec lr min_lr then min_lr else lr.

(** ** Command line *)

Record Flags := mkFlags {
  flag_load : bool; flag_predict : bool; flag_eval : bool;
  flag_global : bool; flag_matchup : bool; flag_predict_future : bool
}.

(** One turn of the loop over [argv[1 .. argc-1]]. *)
Definition parse_arg (flags : Flags) (arg : string) : Flags :=
  if String.eqb arg "--load" then
    {| flag_load := true; flag_predict := flag_predict flags;
       flag_eval := flag_eval flags; flag_global := flag_global flags;
       flag_matchup := flag_matchup flags;
       flag_predict_future := flag_predict_future flags |}
  else if String.eqb arg "--predict" then
    {| flag_load := flag_load flags; flag_predict := true;
       flag_eval := flag_eval flags; flag_global := flag_global flags;
       flag_matchup := flag_matchup flags; flag_predict_future := true |}
  else if String.eqb arg "--predict-future" then
    {| flag_load := flag_load flags; flag_predict := true;
       flag_eval := flag_eval flags; flag_global := flag_global flags;
       flag_matchup := flag_matchup flags; flag_predict_future := true |}
  else if String.eqb arg "--predict-historical" then
    {| flag_load := flag_load flags; flag_predict := true;
       flag_eval := flag_eval flags; flag_global := flag_global flags;
       flag_matchup := flag_matchup flags; flag_predict_future := false |}
  else if String.eqb arg "--eval" then
    {| flag_load := flag_load flags; flag_predict := flag_predict flags;
       flag_eval := true; flag_global := flag_global flags;
       flag_matchup := flag_matchup flags;
       flag_predict_future := flag_predict_future flags |}
  else if String.eqb arg "--global" then
    {| flag_load := flag_load flags; flag_predict := flag_predict flags;
       flag_eval := flag_eval flags; flag_global := true;
       flag_matchup := flag_matchup flags;
       flag_predict_future := flag_predict_future flags |}
  else if String.eqb arg "--matchup" then
    {| flag_load := flag_load flags; flag_predict := flag_predict flags;
       flag_eval := flag_eval flags; flag_global := flag_global flags;
       flag_matchup := true; flag_predict_future := flag_predict_future flags |}
  else flags.

(** The flags of [main] after the loop; [args] is [argv] without [argv[0]]. *)
Definition parse_args (args : list string) : Flags :=
  fold_left parse_arg args
    {| flag_load := false; flag_predict := false; flag_eval := false;
       flag_global := false; flag_matchup := false; flag_predict_future := true |}.

(** What [main] goes on to call. *)
Inductive MainStep :=
| TrainModelsByClass | LoadModel | InitTrainSave
| EvaluateModel | EvaluationUnsupported | AnalyzeMatchup
| PredictInteractive (future_mode : bool).

(** [main] after the flags: [data_loaded] is [load_ufc_data(...) >= 0],
    [classes_trained] is [train_models_by_class(...) == 0], [model_loaded] is
    [load_model(&model, model_path) == 0] where it is called.  The result is
    the exit status and the calls made, in order. *)
Definition main_steps (flags : Flags) (data_loaded classes_trained model_loaded : bool)
  : Z * list MainStep :=
  if negb data_loaded then (1, [])
  else
    let '(failed, model_steps) :=
      if negb (flag_global flags) && negb (flag_load flags) then
        if negb classes_trained then (true, [TrainModelsByClass])
        else if flag_predict flags then
          (false, TrainModelsByClass :: LoadModel
                  :: (if model_loaded then [] else [InitTrainSave]))
        else (false, [TrainModelsByClass])
      else if negb (flag_global flags) && flag_load flags then (false, [LoadModel])
      else if flag_load flags then
        (false, LoadModel :: (if model_loaded then [] else [InitTrainSave]))
      else (false, [InitTrainSave]) in
    if failed then (1, model_steps)
    else
      (0, model_steps
          ++ (if flag_eval flags && flag_global flags then [EvaluateModel]
              else if flag_eval flags && negb (flag_global flags)
                   then [EvaluationUnsupported] else [])
          ++ (if flag_matchup flags then [AnalyzeMatchup] else [])
          ++ (if flag_predict flags then [PredictInteractive (flag_predict_future flags)]
              else [])).

Definition predict_flags : list string :=
  [ "--predict"; "--predict-future"; "--predict-historical" ].

(** ** Long double arithmetic *)

(** [long double] on x86-64 is the x87 extended format: 64 bits of precision,
    exponents up to 16384, subnormal numbers down to [2^-16445]. *)
Definition LDBL_MANT_DIG : Z := 64.
Definition LDBL_MAX_EXP : Z := 16384.
Definition ld_emin : Z := 3 - LDBL_MAX_EXP - LDBL_MANT_DIG.

(** A [long double]: a real number, an infinity or a NaN.  The sign of a zero
    is not tracked. *)
Inductive ldouble := LFin (x : R) | LPInf | LNInf | LNaN.

Definition bpow (e : Z) : R := powerRZ 2 e.

(** The exponent [e] with [2^(e-1) <= |x| < 2^e], for [x <> 0]. *)
Definition mag (x : R) : Z := Zfloor (ln (Rabs x) / ln 2) + 1.

(** Rounding to the nearest integer, ties to even. *)
Definition Znearest (x : R) : Z :=
  let f := Zfloor x in
  if Rlt_dec (x - IZR f) (/ 2) then f
  else if Rlt_dec (/ 2) (x - IZR f) then f + 1
  else if Z.even f then f else f + 1.

(** The exponent of the last place of [x]. *)
Definition ld_exponent (x : R) : Z := Z.max (mag x - LDBL_MANT_DIG) ld_emin.

(** [x] rounded to 64 significant bits, whatever its exponent. *)
Definition round_unbounded (x : R) : R :=
  (IZR (Znearest (x * bpow (- ld_exponent x))) * bpow (ld_exponent x))%R.

(** Rounding to [long double] in the default mode (to nearest, ties to even):
    a result of magnitude [2^16384] or more is an infinity. *)
Definition ld_round (x : R) : ldouble :=
  if Req_EM_T x 0 then LFin 0
  else
    let y := round_unbounded x in
    if Rlt_dec (Rabs y) (bpow LDBL_MAX_EXP) then LFin y
    else if Rlt_dec 0 x then LPInf else LNInf.

(** [-a], [a + b], [a - b], [a * b] and [a / b] on [long double]. *)
Definition ld_opp (a : ldouble) : ldouble :=
  match a with
  | LFin x => LFin (- x)
  | LPInf => LNInf
  | LNInf => LPInf
  | LNaN => LNaN
  end.

Definition ld_add (a b : ldouble) : ldouble :=
  match a, b with
  | LNaN, _ | _, LNaN => LNaN
  | LFin x, LFin y => ld_round (x + y)
  | LPInf, LNInf | LNInf, LPInf => LNaN
  | LPInf, _ | _, LPInf => LPInf
  | LNInf, _ | _, LNInf => LNInf
  end.

Definition ld_sub (a b : ldouble) : ldouble := ld_add a (ld_opp b).

(** An infinity times [x]. *)
Definition ld_scale_inf (inf : ldouble) (x : R) : ldouble :=
  if Req_EM_T x 0 then LNaN else if Rlt_dec 0 x then inf else ld_opp inf.

Definition ld_mul (a b : ldouble) : ldouble :=
  match a, b with
  | LNaN, _ | _, LNaN => LNaN
  | LFin x, LFin y => ld_round (x * y)
  | LFin x, inf | inf, LFin x => ld_scale_inf inf x
  | LPInf, LPInf | LNInf, LNInf => LPInf
  | LPInf, LNInf | LNInf, LPInf => LNInf
  end.

(** A zero divisor gives an infinity or a NaN by the signs of both operands;
    the sign of a zero is not tracked, so this case stands as [LNaN] here.
    The one division of [forward] never has a zero divisor
    ([sigmoid_ld_divisor]). *)
Definition ld_div (a b : ldouble) : ldouble :=
  match a, b with
  | LNaN, _ | _, LNaN => LNaN
  | LFin x, LFin y => if Req_EM_T y 0 then LNaN else ld_round (x / y)
  | LFin _, _ => LFin 0
  | inf, LFin y => ld_scale_inf inf y
  | _, _ => LNaN
  end.

(** *** The forward pass in long double *)

Section LongDoubleForward.

(** [expl(x)] and [tanhl(x)] of libm at a finite [x]. *)
Variables expl tanhl : R -> ldouble.

(** [expl] and [tanhl] at any [long double] (C11 F.10.3.1, F.10.2.6). *)
Definition ld_exp (a : ldouble) : ldouble :=
  match a with
  | LFin x => expl x
  | LPInf => LPInf
  | LNInf => LFin 0
  | LNaN => LNaN
  end.

Definition ld_tanh (a : ldouble) : ldouble :=
  match a with
  | LFin x => tanhl x
  | LPInf => LFin 1
  | LNInf => LFin (-1)
  | LNaN => LNaN
  end.

(** [1.0L / (1.0L + expl(-x))] *)
Definition sigmoid_ld (x : ldouble) : ldouble :=
  ld_div (LFin 1) (ld_add (LFin 1) (ld_exp (ld_opp x))).

(** [sum = bias; for (i = 0; i < n; i++) sum += term(i);] *)
Definition weighted_sum_ld (bias : ldouble) (n : nat) (term : nat -> ldouble)
  : ldouble :=
  fold_left (fun sum i => ld_add sum (term i)) (seq 0 n) bias.

(** [forward] with every operation rounded: [h1], [h2] and [output]
    afterwards.  The weights, biases and inputs are the finite numbers of
    [m] and [inp]. *)
Definition forward_ld (m : Model) (inp : list R)
  : list ldouble * list ldouble * list ldouble :=
  let a1 := (fun j => ld_tanh (weighted_sum_ld (LFin (nth j (b1 m) 0%R)) INPUT_SIZE
                        (fun i => ld_mul (LFin (nth i inp 0%R))
                                         (LFin (nth j (nth i (w1 m) []) 0%R)))))
              <$> seq 0 HIDDEN_1_SIZE in
  let a2 := (fun j => ld_tanh (weighted_sum_ld (LFin (nth j (b2 m) 0%R)) HIDDEN_1_SIZE
                        (fun i => ld_mul (nth i a1 (LFin 0))
                                         (LFin (nth j (nth i (w2 m) []) 0%R)))))
              <$> seq 0 HIDDEN_2_SIZE in
  let out := (fun k => sigmoid_ld (weighted_sum_ld (LFin (nth k (b3 m) 0%R)) HIDDEN_2_SIZE
                        (fun j => ld_mul (nth j a2 (LFin 0))
                                         (LFin (nth k (nth j (w3 m) []) 0%R)))))
              <$> seq 0 OUTPUT_SIZE in
  (a1, a2, out).

(** [m->output[0]] after [forward(m, inp)]. *)
Definition predict_ld (m : Model) (inp : list R) : ldouble :=
  nth 0 (forward_ld m inp).2 (LFin 0).

End LongDoubleForward.

(** [pred + 1e-15L] and [1.0L - pred + 1e-15L], the arguments of [logl] in the
    cross-entropy term of [train]. *)
Definition log_arguments_ld (pred : ldouble) : ldouble * ldouble :=
  (ld_add pred (ld_round 1e-15), ld_add (ld_sub (LFin 1) pred) (ld_round 1e-15)).

(** A libm whose [expl] and [tanhl] are correctly rounded. *)
Definition expl_rn (x : R) : ldouble := ld_round (exp x).
Definition tanhl_rn (x : R) : ldouble := ld_round (tanh x).

(** A model with every weight and bias zero, except the output bias. *)
Definition constant_model (bias : R) : Model :=
  {| w1 := replicate INPUT_SIZE (replicate HIDDEN_1_SIZE 0%R);
     b1 := replicate HIDDEN_1_SIZE 0%R;
     w2 := replicate HIDDEN_1_SIZE (replicate HIDDEN_2_SIZE 0%R);
     b2 := replicate HIDDEN_2_SIZE 0%R;
     w3 := replicate HIDDEN_2_SIZE (replicate OUTPUT_SIZE 0%R);
     b3 := [bias];
     v_w1 := []; v_b1 := []; v_w2 := []; v_b2 := []; v_w3 := []; v_b3 := [];
     h1 := []; h2 := []; output := [];
     feat_mean := replicate INPUT_SIZE 0%R;
     feat_std := replicate INPUT_SIZE 1%R;
     num_trained_samples := 0 |}.

(** * Theorems *)

(** ** Context tracker *)

Section ContextTrackerFacts.

Variable realloc : Z -> ReallocResult.

Lemma fighter_matches_key n wc r : fighter_matches n wc r <-> key r = (n, wc).
Proof. unfold fighter_matches, key. split; [intros [-> ->]; done | intros [= -> ->]; done]. Qed.

(** *** Blocks and pointers *)

Lemma ensure_fighter_cap_frame ctx ctx' :
  ensure_fighter_cap realloc ctx = Some ctx' ->
  fighters ctx' = fighters ctx /\ h2h ctx' = h2h ctx /\ h2h_block ctx' = h2h_block ctx
  /\ ((forall cap, realloc cap <> ReallocMoves) -> fighters_block ctx' = fighters_block ctx).
Proof.
  unfold ensure_fighter_cap. destruct (_ <? _); [by intros [= <-]|].
  destruct (realloc _) eqn:E; intros [= <-]; simpl; try done.
  repeat split. intros H. by destruct (H _ E).
Qed.

Lemma ensure_h2h_cap_frame ctx ctx' :
  ensure_h2h_cap realloc ctx = Some ctx' ->
  fighters ctx' = fighters ctx /\ h2h ctx' = h2h ctx
  /\ fighters_block ctx' = fighters_block ctx.
Proof.
  unfold ensure_h2h_cap. destruct (_ <? _); [by intros [= <-]|].
  destruct (realloc _); intros [= <-]; done.
Qed.

(** The pointer [get_or_add_fighter] returns points into the block the array
    is in on return; the second array is not touched. *)
Lemma get_or_add_fighter_frame ctx n wc p ctx' :
  get_or_add_fighter realloc ctx n wc = (p, ctx') ->
  h2h ctx' = h2h ctx /\ h2h_block ctx' = h2h_block ctx
  /\ (forall q, p = Some q -> ptr_block q = fighters_block ctx')
  /\ ((forall cap, realloc cap <> ReallocMoves) -> fighters_block ctx' = fighters_block ctx).
Proof.
  unfold get_or_add_fighter.
  destruct (find_fighter_record _ _ _) as [[i r]|].
  { intros [= <- <-]. repeat split; try done. by intros q [= <-]. }
  destruct (ensure_fighter_cap realloc ctx) as [ctx1|] eqn:E.
  - apply ensure_fighter_cap_frame in E as (_ & Hh & Hb & Hf).
    intros [= <- <-]. simpl. repeat split; try done. by intros q [= <-].
  - intros [= <- <-]. done.
Qed.

Lemma get_or_add_h2h_frame ctx f1 f2 wc p ctx' :
  get_or_add_h2h realloc ctx f1 f2 wc = (p, ctx') ->
  fighters ctx' = fighters ctx /\ fighters_block ctx' = fighters_block ctx
  /\ (forall q, p = Some q -> ptr_block q = h2h_block ctx').
Proof.
  unfold get_or_add_h2h.
  destruct (list_find _ _) as [[i r]|].
  { intros [= <- <-]. repeat split; try done. by intros q [= <-]. }
  destruct (ensure_h2h_cap realloc ctx) as [ctx1|] eqn:E.
  - apply ensure_h2h_cap_frame in E as (Hf & _ & Hb).
    intros [= <- <-]. simpl. repeat split; try done. by intros q [= <-].
  - intros [= <- <-]. done.
Qed.

(** When no reallocation moves an array, no pointer dangles. *)
Lemma update_context_with_result_defined ctx fight :
  (forall cap, realloc cap <> ReallocMoves) ->
  is_Some (update_context_with_result realloc ctx fight).
Proof.
  intros Hstay. unfold update_context_with_result.
  destruct (get_or_add_fighter _ ctx _ _) as [r1 ctx1] eqn:E1.
  destruct (get_or_add_fighter _ ctx1 _ _) as [r2 ctx2] eqn:E2.
  destruct (get_or_add_h2h _ ctx2 _ _ _) as [h ctx3] eqn:E3.
  apply get_or_add_fighter_frame in E1 as (_ & _ & Hp1 & _).
  apply get_or_add_fighter_frame in E2 as (_ & _ & Hp2 & Hb2).
  apply get_or_add_h2h_frame in E3 as (_ & Hb3 & Hp3).
  destruct r1 as [r1|], r2 as [r2|], h as [h|]; try done.
  unfold fighter_ptr_live, h2h_ptr_live.
  rewrite !bool_decide_eq_true_2; simpl.
  - repeat case_match; done.
  - by apply Hp3.
  - rewrite Hb3. by apply Hp2.
  - rewrite Hb3, Hb2 by done. by apply Hp1.
Qed.

Lemma record_all_defined ctx fights :
  (forall cap, realloc cap <> ReallocMoves) ->
  is_Some (record_all realloc ctx fights).
Proof.
  intros Hstay. revert ctx. induction fights as [|f fights IH]; intros ctx; [done|].
  simpl. destruct (update_context_with_result_defined ctx f Hstay) as [ctx' ->].
  apply IH.
Qed.

(** *** Counts, when every allocation succeeds *)

Hypothesis realloc_succeeds : forall cap, realloc cap <> ReallocFails.

Lemma ensure_fighter_cap_ok ctx :
  exists ctx', ensure_fighter_cap realloc ctx = Some ctx'
               /\ fighters ctx' = fighters ctx /\ h2h ctx' = h2h ctx.
Proof.
  unfold ensure_fighter_cap. destruct (_ <? _); [eauto|].
  destruct (realloc _) eqn:E; [by destruct (realloc_succeeds _ E)|eauto..].
Qed.

Lemma ensure_h2h_cap_ok ctx :
  exists ctx', ensure_h2h_cap realloc ctx = Some ctx'
               /\ fighters ctx' = fighters ctx /\ h2h ctx' = h2h ctx.
Proof.
  unfold ensure_h2h_cap. destruct (_ <? _); [eauto|].
  destruct (realloc _) eqn:E; [by destruct (realloc_succeeds _ E)|eauto..].
Qed.

(** [get_or_add_fighter] returns the slot of the key, appending a zeroed
    record when the key is new. *)
Lemma get_or_add_fighter_spec ctx n wc :
  exists p ctx' r,
    get_or_add_fighter realloc ctx n wc = (Some p, ctx')
    /\ h2h ctx' = h2h ctx
    /\ fighters ctx' !! ptr_slot p = Some r /\ key r = (n, wc)
    /\ (fighters ctx' = fighters ctx
        \/ (fighters ctx' = fighters ctx ++ [zero_record (n, wc)]
            /\ (n, wc) ∉ (key <$> fighters ctx))).
Proof.
  unfold get_or_add_fighter, find_fighter_record.
  destruct (list_find _ _) as [[i r]|] eqn:Hfind.
  - apply list_find_Some in Hfind as (Hi & Hm & _).
    eexists _, ctx, r. split; [reflexivity|]. rewrite <- fighter_matches_key. auto 10.
  - destruct (ensure_fighter_cap_ok ctx) as (ctx' & -> & Hf & Hh).
    eexists _, _, (zero_record (n, wc)). split; [reflexivity|]. simpl.
    rewrite Hf. split; [done|]. split.
    { rewrite lookup_app_r by lia. by rewrite Nat.sub_diag. }
    split; [done|]. right. split; [done|].
    apply list_find_None in Hfind.
    intros (r & Hk & Hr)%list_elem_of_fmap.
    rewrite Forall_forall in Hfind. apply (Hfind r Hr).
    by apply fighter_matches_key.
Qed.

Lemma get_or_add_h2h_spec ctx f1 f2 wc :
  exists p ctx',
    get_or_add_h2h realloc ctx f1 f2 wc = (Some p, ctx')
    /\ fighters ctx' = fighters ctx.
Proof.
  unfold get_or_add_h2h.
  destruct (list_find _ _) as [[i r]|]; [eauto|].
  destruct (ensure_h2h_cap_ok ctx) as (ctx' & -> & Hf & Hh).
  eexists _, _. split; [reflexivity|]. done.
Qed.

Lemma keeps_key_inc_total : keeps_key inc_total. Proof. done. Qed.
Lemma keeps_key_inc_wins : keeps_key inc_wins. Proof. done. Qed.
Lemma keeps_key_inc_losses : keeps_key inc_losses. Proof. done. Qed.
Lemma keeps_key_on_key k g : keeps_key g -> keeps_key (on_key k g).
Proof. intros Hg r. unfold on_key. case_decide; auto. Qed.

Lemma keeps_key_fmap g (l : list FighterRecord) : keeps_key g -> key <$> (g <$> l) = key <$> l.
Proof.
  intros Hg. rewrite <- list_fmap_compose. apply list_fmap_ext.
  intros ? r _. apply Hg.
Qed.

Lemma slot_of_fmap g (l : list FighterRecord) i k : keeps_key g -> slot_of l i k -> slot_of (g <$> l) i k.
Proof.
  intros Hg (Hnd & r & Hi & Hk). split.
  - by rewrite keeps_key_fmap.
  - exists (g r). rewrite list_lookup_fmap, Hi. split; [done|]. by rewrite Hg.
Qed.

Lemma alter_on_key g (l : list FighterRecord) i k : slot_of l i k -> alter g i l = on_key k g <$> l.
Proof.
  intros (Hnd & r & Hi & Hk). apply list_eq. intros j.
  rewrite list_lookup_fmap. destruct (decide (i = j)) as [<-|Hne].
  - rewrite list_lookup_alter_eq, Hi. simpl. unfold on_key.
    by rewrite decide_True.
  - rewrite list_lookup_alter_ne by done.
    destruct (l !! j) as [x|] eqn:Hj; [|done]. simpl. unfold on_key.
    rewrite decide_False; [done|]. intros Hx. apply Hne.
    apply (NoDup_lookup (key <$> l) i j k Hnd); rewrite list_lookup_fmap.
    + by rewrite Hi; simpl; rewrite Hk.
    + by rewrite Hj; simpl; rewrite Hx.
Qed.

Lemma slot_of_snoc (l : list FighterRecord) k :
  NoDup (key <$> l) -> k ∉ (key <$> l) ->
  slot_of (l ++ [zero_record k]) (length l) k.
Proof.
  intros Hnd Hk. split.
  - rewrite fmap_app. apply NoDup_app. split; [done|]. split.
    + intros x Hx [->|[]%elem_of_nil]%elem_of_cons. by destruct k.
    + apply NoDup_singleton.
  - exists (zero_record k). rewrite lookup_app_r by lia.
    rewrite Nat.sub_diag. by destruct k.
Qed.

Lemma slot_of_app (l : list FighterRecord) i k news :
  NoDup (key <$> (l ++ news)) -> slot_of l i k -> slot_of (l ++ news) i k.
Proof.
  intros Hnd (_ & r & Hi & Hk). split; [done|]. exists r.
  split; [|done]. by apply lookup_app_l_Some.
Qed.

Lemma slot_of_elem (l : list FighterRecord) i k : slot_of l i k -> k ∈ (key <$> l).
Proof.
  intros (_ & r & Hi & Hk). apply list_elem_of_fmap. exists r.
  split; [done|]. by eapply list_elem_of_lookup_2.
Qed.

(** The fighter array after one recorded fight: the zeroed records of the
    new keys are appended, then every record is bumped by its key. *)
Lemma update_context_fighters ctx fight ctx' :
  NoDup (key <$> fighters ctx) ->
  update_context_with_result realloc ctx fight = Some ctx' ->
  exists news,
    fighters ctx' = bump fight <$> (fighters ctx ++ news)
    /\ NoDup (key <$> (fighters ctx ++ news))
    /\ Forall (fun r => exists k, r = zero_record k /\ k ∉ (key <$> fighters ctx)) news
    /\ (fighter1 fight, weight_class fight) ∈ (key <$> (fighters ctx ++ news))
    /\ (fighter2 fight, weight_class fight) ∈ (key <$> (fighters ctx ++ news)).
Proof.
  intros Hnd. unfold update_context_with_result.
  destruct (get_or_add_fighter_spec ctx (fighter1 fight) (weight_class fight))
    as ([b1 i1] & ctx1 & r1 & -> & _ & Hi1 & Hk1 & Hl1).
  destruct (get_or_add_fighter_spec ctx1 (fighter2 fight) (weight_class fight))
    as ([b2 i2] & ctx2 & r2 & -> & _ & Hi2 & Hk2 & Hl2).
  destruct (get_or_add_h2h_spec ctx2 (fighter1 fight) (fighter2 fight) (weight_class fight))
    as ([bh ih] & ctx3 & -> & Hl3).
  destruct (_ && _ && _); [|done]. simpl in Hi1, Hi2 |- *. intros Hctx'.
  set (k1 := (fighter1 fight, weight_class fight)) in *.
  set (k2 := (fighter2 fight, weight_class fight)) in *.
  assert (exists news,
             fighters ctx3 = fighters ctx ++ news
             /\ slot_of (fighters ctx3) i1 k1 /\ slot_of (fighters ctx3) i2 k2
             /\ Forall (fun r => exists k, r = zero_record k
                                          /\ k ∉ (key <$> fighters ctx)) news)
    as (news & Hnews & Hs1 & Hs2 & Hz).
  { rewrite Hl3.
    assert (slot_of (fighters ctx1) i1 k1 /\ exists n1,
               fighters ctx1 = fighters ctx ++ n1
               /\ Forall (fun r => exists k, r = zero_record k
                                            /\ k ∉ (key <$> fighters ctx)) n1)
      as (Hs1 & n1 & Hn1 & Hz1).
    { destruct Hl1 as [Hl1|[Hl1 Hfresh]].
      - split; [split; [by rewrite Hl1|eauto]|].
        exists []. rewrite app_nil_r. auto.
      - split; [split; [|eauto]|].
        + rewrite Hl1. by apply slot_of_snoc.
        + exists [zero_record k1]. split; [done|]. repeat constructor. eauto. }
    destruct Hl2 as [Hl2|[Hl2 Hfresh]].
    - exists n1. rewrite Hl2. split; [done|]. split; [done|]. split; [|done].
      split; [apply Hs1|]. exists r2. by rewrite <- Hl2.
    - exists (n1 ++ [zero_record k2]). rewrite Hl2, Hn1, <- app_assoc.
      assert (slot_of (fighters ctx1 ++ [zero_record k2]) (length (fighters ctx1)) k2)
        as Hs2 by (apply slot_of_snoc; [apply Hs1|done]).
      rewrite Hn1, <- app_assoc in Hs2.
      split; [done|]. split.
      + rewrite app_assoc, <- Hn1. apply slot_of_app; [|done].
        rewrite Hn1, <- app_assoc. apply Hs2.
      + split.
        * assert (i2 = length (fighters ctx1)) as ->; [|by rewrite Hn1].
          rewrite Hl2 in Hi2. apply lookup_lt_Some in Hi2 as Hlt.
          rewrite length_app in Hlt. simpl in Hlt.
          destruct (decide (i2 < length (fighters ctx1))%nat) as [Hlt'|]; [|lia].
          exfalso. rewrite lookup_app_l in Hi2 by done. apply Hfresh.
          apply list_elem_of_fmap. exists r2. split; [done|].
          by eapply list_elem_of_lookup_2.
        * apply Forall_app. split; [done|]. repeat constructor.
          exists k2. split; [done|]. intros Hin. apply Hfresh.
          rewrite Hn1, fmap_app. apply elem_of_app. by left. }
  exists news. rewrite <- Hnews.
  split; [|split; [apply Hs1|split; [done|split; eapply slot_of_elem; eauto]]].
  revert Hctx'.
  pose proof keeps_key_inc_total. pose proof keeps_key_inc_wins.
  pose proof keeps_key_inc_losses.
  unfold bump. fold k1 k2.
  assert (forall g l i k, keeps_key g -> slot_of l i k ->
                          slot_of (on_key k1 g <$> l) i k) as Hk1'
    by (intros; apply slot_of_fmap; [by apply keeps_key_on_key|done]).
  assert (forall g l i k, keeps_key g -> slot_of l i k ->
                          slot_of (on_key k2 g <$> l) i k) as Hk2'
    by (intros; apply slot_of_fmap; [by apply keeps_key_on_key|done]).
  destruct (label fight =? 1); [|destruct (label fight =? 0)];
    intros [= <-]; simpl.
  - rewrite (alter_on_key inc_total _ i1 k1) by auto.
    rewrite (alter_on_key inc_total _ i2 k2) by auto.
    rewrite (alter_on_key inc_wins _ i1 k1) by auto.
    rewrite (alter_on_key inc_losses _ i2 k2) by auto 6.
    by rewrite <- !list_fmap_compose.
  - rewrite (alter_on_key inc_total _ i1 k1) by auto.
    rewrite (alter_on_key inc_total _ i2 k2) by auto.
    rewrite (alter_on_key inc_wins _ i2 k2) by auto.
    rewrite (alter_on_key inc_losses _ i1 k1) by auto 6.
    by rewrite <- !list_fmap_compose.
  - rewrite (alter_on_key inc_total _ i1 k1) by auto.
    rewrite (alter_on_key inc_total _ i2 k2) by auto.
    by rewrite <- !list_fmap_compose.
Qed.

(** The pointer that dangles: with one free slot left, a fight between two
    new fighters takes [r1] from the last free slot, then grows the array for
    [r2]; if that reallocation moves the array, [r1] is written through after
    its block is gone. *)
Lemma update_context_with_result_dangling ctx fight :
  fighter_count ctx + 1 = fighter_cap ctx ->
  (fighter1 fight, weight_class fight) ∉ (key <$> fighters ctx) ->
  (fighter2 fight, weight_class fight) ∉ (key <$> fighters ctx) ->
  fighter1 fight <> fighter2 fight ->
  realloc (fighter_cap ctx * 2) = ReallocMoves ->
  update_context_with_result realloc ctx fight = None.
Proof.
  intros Hcap Hnew1 Hnew2 Hne Hmoves. unfold update_context_with_result.
  assert (forall n (l : list FighterRecord),
             (n, weight_class fight) ∉ (key <$> l) ->
             list_find (fighter_matches n (weight_class fight)) l = None) as Hfind.
  { intros n l Hn. apply list_find_None, Forall_forall. intros r Hr Hm.
    apply Hn, list_elem_of_fmap. exists r. split; [|done].
    symmetry. by apply fighter_matches_key. }
  assert (exists ctx1,
             get_or_add_fighter realloc ctx (fighter1 fight) (weight_class fight)
             = (Some {| ptr_block := fighters_block ctx;
                        ptr_slot := length (fighters ctx) |}, ctx1)
             /\ fighters ctx1 = fighters ctx ++ [zero_record (fighter1 fight, weight_class fight)]
             /\ fighter_cap ctx1 = fighter_cap ctx
             /\ fighters_block ctx1 = fighters_block ctx)
    as (ctx1 & -> & Hf1 & Hc1 & Hb1).
  { unfold get_or_add_fighter, find_fighter_record. rewrite Hfind by done.
    unfold ensure_fighter_cap. rewrite (proj2 (Z.ltb_lt _ _)) by lia.
    eexists. split; [reflexivity|]. done. }
  assert (exists p ctx2,
             get_or_add_fighter realloc ctx1 (fighter2 fight) (weight_class fight)
             = (Some p, ctx2)
             /\ fighters_block ctx2 = S (fighters_block ctx))
    as (p & ctx2 & -> & Hb2).
  { unfold get_or_add_fighter, find_fighter_record. rewrite Hfind.
    2:{ rewrite Hf1, fmap_app, elem_of_app. intros [?|Hin]; [done|].
        apply list_elem_of_singleton in Hin. injection Hin as Hin. by apply Hne. }
    unfold ensure_fighter_cap, fighter_count in *. rewrite Hf1, Hc1, length_app.
    cbn [length]. rewrite (proj2 (Z.ltb_ge _ _)) by lia.
    rewrite (proj2 (Z.eqb_neq _ _)) by lia. rewrite Hmoves.
    eexists _, _. split; [reflexivity|]. simpl. by rewrite Hb1. }
  destruct (get_or_add_h2h_spec ctx2 (fighter1 fight) (fighter2 fight) (weight_class fight))
    as (h & ctx3 & E & _).
  pose proof (get_or_add_h2h_frame _ _ _ _ _ _ E) as (_ & Hb3 & _).
  rewrite E. unfold fighter_ptr_live at 1. cbn [ptr_block].
  rewrite Hb3, Hb2, bool_decide_eq_false_2 by lia. done.
Qed.

Lemma appearances_snoc k fs fight :
  appearances k (fs ++ [fight]) = appearances k fs + side_count k fight.
Proof.
  unfold appearances. induction fs as [|f fs IH]; simpl; [lia|].
  rewrite IH. lia.
Qed.

Lemma side_count_range k fight : 0 <= side_count k fight <= 2.
Proof. unfold side_count. repeat case_decide; lia. Qed.

Lemma appearances_nonneg k fs : 0 <= appearances k fs.
Proof.
  unfold appearances. induction fs as [|f fs IH]; simpl; [lia|].
  pose proof (side_count_range k f). lia.
Qed.

Lemma on_key_hit k g r : key r = k -> on_key k g r = g r.
Proof. intros E. unfold on_key. by rewrite decide_True. Qed.

Lemma on_key_miss k g r : key r <> k -> on_key k g r = r.
Proof. intros E. unfold on_key. by rewrite decide_False. Qed.

(** Resolve the innermost [on_key] from the hypotheses on [key r]. *)
Ltac on_key_step :=
  match goal with
  | |- context [on_key ?k ?g ?x] =>
      lazymatch x with context [on_key _ _ _] => fail | _ => idtac end;
      first [ rewrite (on_key_hit k g x) by assumption
            | rewrite (on_key_miss k g x) by assumption ]
  end.

Ltac bump_cases fight r :=
  destruct (decide (key r = (fighter1 fight, weight_class fight)));
  destruct (decide (key r = (fighter2 fight, weight_class fight)));
  repeat on_key_step; unfold side_count; simpl;
  repeat case_decide; try congruence; try done; lia.

Lemma bump_key fight r : key (bump fight r) = key r.
Proof.
  unfold bump.
  destruct (label fight =? 1); [|destruct (label fight =? 0)];
    bump_cases fight r.
Qed.

Lemma bump_total fight r :
  total (bump fight r) = total r + side_count (key r) fight.
Proof.
  unfold bump.
  destruct (label fight =? 1); [|destruct (label fight =? 0)];
    bump_cases fight r.
Qed.

Lemma bump_wins_losses fight r :
  resolved fight ->
  wins (bump fight r) + losses (bump fight r)
  = wins r + losses r + side_count (key r) fight.
Proof.
  intros [Hl|Hl]; unfold bump; rewrite Hl; simpl; bump_cases fight r.
Qed.

Lemma ctx_inv_init : ctx_inv init_context [].
Proof.
  split; [constructor|]. split; [constructor|]. intros k Hk. by simpl in Hk.
Qed.

(** One recorded fight with a resolved label preserves the predicate. *)
Lemma ctx_inv_step ctx fs fight ctx' :
  ctx_inv ctx fs -> resolved fight ->
  update_context_with_result realloc ctx fight = Some ctx' ->
  ctx_inv ctx' (fs ++ [fight]).
Proof.
  intros (Hnd & Hok & Hcov) Hres Hctx'.
  destruct (update_context_fighters ctx fight ctx' Hnd Hctx')
    as (news & Heq & Hnd' & Hz & Hin1 & Hin2).
  unfold ctx_inv. rewrite Heq. clear Heq.
  assert (key <$> (bump fight <$> (fighters ctx ++ news))
          = key <$> (fighters ctx ++ news)) as Hkeys.
  { rewrite <- list_fmap_compose. apply list_fmap_ext. intros ? r _.
    apply bump_key. }
  split; [by rewrite Hkeys|]. split.
  - apply Forall_fmap, Forall_app. split.
    + eapply Forall_impl; [exact Hok|]. intros r [Ht Hwl]. split; simpl.
      * rewrite bump_key, bump_total, appearances_snoc. lia.
      * rewrite bump_wins_losses, bump_total by done. lia.
    + eapply Forall_impl; [exact Hz|]. intros r (k & -> & Hfresh).
      assert (appearances k fs = 0) as Hzero.
      { destruct (decide (appearances k fs = 0)); [done|].
        by destruct Hfresh; apply Hcov. }
      split; simpl.
      * rewrite bump_key, bump_total, appearances_snoc.
        replace (key (zero_record k)) with k by (by destruct k).
        simpl. lia.
      * rewrite bump_wins_losses, bump_total by done. simpl. lia.
  - intros k Hk. rewrite Hkeys. rewrite appearances_snoc in Hk.
    destruct (decide (appearances k fs = 0)) as [Hz0|Hnz].
    + unfold side_count in Hk. repeat case_decide; subst; try done. lia.
    + rewrite fmap_app. apply elem_of_app. left. by apply Hcov.
Qed.

Lemma ctx_inv_record_all ctx fs fights ctx' :
  ctx_inv ctx fs -> Forall resolved fights ->
  record_all realloc ctx fights = Some ctx' ->
  ctx_inv ctx' (fs ++ fights).
Proof.
  intros Hinv Hres. revert ctx fs Hinv.
  induction Hres as [|f fights Hf _ IH]; intros ctx fs Hinv; simpl.
  - intros [= <-]. by rewrite app_nil_r.
  - destruct (update_context_with_result realloc ctx f) as [ctx1|] eqn:E; [|done].
    simpl. intros Hctx'.
    replace (fs ++ f :: fights) with ((fs ++ [f]) ++ fights)
      by (by rewrite <- app_assoc).
    eapply IH; [|exact Hctx']. by eapply ctx_inv_step.
Qed.

(** Without a fighter on both sides of one fight, the sides a fighter
    occupies are the fights that involve the fighter. *)
Lemma appearances_involving k fights :
  Forall (fun fight => fighter1 fight <> fighter2 fight) fights ->
  appearances k fights = involving k fights.
Proof.
  unfold appearances, involving.
  induction 1 as [|f fights Hf _ IH]; simpl; [done|].
  rewrite IH. unfold side_count, involves.
  repeat case_bool_decide; repeat case_decide; simpl; try lia; try done.
  destruct Hf. congruence.
Qed.

End ContextTrackerFacts.

(** ** Feature loop of [train] *)

Section FeatureLoopFacts.

Variable realloc : Z -> ReallocResult.

(** [compute_features] never reads the outcome. *)
Lemma compute_features_forget_label fight ctx :
  compute_features realloc fight ctx
  = compute_features realloc (forget_label fight) ctx.
Proof. reflexivity. Qed.

(** The scan is left to right: a prefix of the matrix is the matrix of the
    prefix, for a fixed boundary. *)
Lemma feature_loop_take tbc i ctx fights m raw :
  feature_loop realloc tbc i ctx fights = Some raw ->
  feature_loop realloc tbc i ctx (take m fights) = Some (take m raw).
Proof.
  revert m i ctx raw. induction fights as [|f fights IH]; intros m i ctx raw.
  - intros [= <-]. by destruct m.
  - destruct m as [|m]; [done|]. simpl.
    destruct (compute_features realloc f ctx) as [[features ctx1]|]; [|done].
    simpl. destruct (if i <? tbc then _ else _) as [ctx2|]; [|done]. simpl.
    destruct (feature_loop realloc tbc (i + 1) ctx2 fights) as [rest|] eqn:E; [|done].
    intros [= <-]. by rewrite (IH m _ _ _ E).
Qed.

Lemma feature_loop_length tbc i ctx fights raw :
  feature_loop realloc tbc i ctx fights = Some raw -> length raw = length fights.
Proof.
  revert i ctx raw. induction fights as [|f fights IH]; intros i ctx raw.
  - by intros [= <-].
  - simpl. destruct (compute_features realloc f ctx) as [[features ctx1]|]; [|done].
    simpl. destruct (if i <? tbc then _ else _) as [ctx2|]; [|done]. simpl.
    destruct (feature_loop realloc tbc (i + 1) ctx2 fights) as [rest|] eqn:E; [|done].
    intros [= <-]. simpl. by rewrite (IH _ _ _ E).
Qed.

(** Only the boundary tests before the last row matter; a lower boundary
    records no more fights. *)
Lemma feature_loop_boundary tbc tbc' i ctx fights raw :
  (forall j, i <= j < i + Z.of_nat (length fights) - 1 ->
             (j <? tbc) = (j <? tbc')) ->
  tbc' <= tbc ->
  feature_loop realloc tbc i ctx fights = Some raw ->
  feature_loop realloc tbc' i ctx fights = Some raw.
Proof.
  intros Hj Hle. revert i ctx raw Hj.
  induction fights as [|f fights IH]; intros i ctx raw Hj; [done|].
  simpl. destruct (compute_features realloc f ctx) as [[features ctx1]|]; [|done].
  simpl. destruct fights as [|g fights].
  - destruct (i <? tbc) eqn:E, (i <? tbc') eqn:E'; try lia; try done.
    simpl. by destruct (update_context_with_result realloc ctx1 f).
  - rewrite <- (Hj i) by (simpl length; lia).
    destruct (if i <? tbc then _ else _) as [ctx2|]; [|done]. cbn [mbind option_bind].
    destruct (feature_loop realloc tbc (i + 1) ctx2 (g :: fights)) as [rest|] eqn:E;
      [|done].
    intros [= <-]. rewrite (IH (i + 1) ctx2 rest); [done| |done].
    intros j Hr. apply Hj. simpl length in *. lia.
Qed.

Lemma feature_loop_agree tbc i ctx A B :
  agree_from tbc i A B ->
  feature_loop realloc tbc i ctx A = feature_loop realloc tbc i ctx B.
Proof.
  revert i ctx B. induction A as [|a A IH]; intros i ctx [|b B] H;
    try done.
  destruct H as [Hab Hrest]. simpl.
  destruct (i <? tbc) eqn:Hi.
  - subst b. destruct (compute_features realloc a ctx) as [[features ctx1]|]; [|done].
    simpl. destruct (update_context_with_result realloc ctx1 a) as [ctx2|]; [|done].
    simpl. by rewrite (IH _ _ B).
  - rewrite (compute_features_forget_label a), (compute_features_forget_label b), Hab.
    destruct (compute_features realloc (forget_label b) ctx) as [[features ctx1]|];
      [|done].
    simpl. by rewrite (IH _ _ B).
Qed.

Lemma agree_from_lookup tbc i A B :
  length A = length B ->
  (forall j a b, A !! j = Some a -> B !! j = Some b ->
                 if i + Z.of_nat j <? tbc then a = b
                 else forget_label a = forget_label b) ->
  agree_from tbc i A B.
Proof.
  revert i B. induction A as [|a A IH]; intros i [|b B] Hlen H; try done.
  simpl. split.
  - specialize (H 0%nat a b eq_refl eq_refl). by rewrite Z.add_0_r in H.
  - apply IH; [by injection Hlen|]. intros j a' b' Ha Hb.
    specialize (H (S j) a' b' Ha Hb).
    by replace (i + 1 + Z.of_nat j) with (i + Z.of_nat (S j)) by lia.
Qed.

Lemma train_base_count_below n : train_base_count n <= n - 1.
Proof. unfold train_base_count. repeat case_match; lia. Qed.

Lemma train_base_count_mono k n :
  0 <= k <= n -> train_base_count k <= train_base_count n.
Proof.
  intros Hkn. unfold train_base_count.
  assert (k * 8 ÷ 10 <= n * 8 ÷ 10).
  { rewrite !Z.quot_div_nonneg by lia. apply Z.div_le_mono; lia. }
  assert (k * 8 ÷ 10 <= k) by (rewrite Z.quot_div_nonneg by lia;
                               apply Z.div_le_upper_bound; lia).
  repeat case_match; lia.
Qed.

(** The clamp leaves at least one validation row, so [train] always reaches
    the feature loop. *)
Lemma train_raw_features_loop fights :
  train_raw_features realloc fights
  = feature_loop realloc
      (train_base_count (Z.of_nat (length fights))) 0 init_context fights.
Proof.
  unfold train_raw_features.
  pose proof (train_base_count_below (Z.of_nat (length fights))).
  case_match; [lia|done].
Qed.

(** The feature vector of a row, from the records read for it. *)
Lemma feature_loop_records tbc i ctx fights :
  feature_loop realloc tbc i ctx fights
  = zip_with (fun fight recs => feature_vector fight recs.1.1 recs.1.2 recs.2) fights
      <$> records_loop realloc tbc i ctx fights.
Proof.
  revert i ctx. induction fights as [|f fights IH]; intros i ctx; [done|].
  simpl. unfold compute_features.
  destruct (lookup_records realloc f ctx) as [[[[r1 r2] h] ctx1]|]; [|done].
  simpl. destruct (if i <? tbc then _ else _) as [ctx2|]; [|done]. simpl.
  rewrite IH. by destruct (records_loop realloc tbc (i + 1) ctx2 fights).
Qed.

Lemma feature_loop_fights_delta tbc i ctx fights j records recs :
  records_loop realloc tbc i ctx fights = Some records ->
  records !! j = Some recs ->
  (j < length fights)%nat ->
  feature_loop realloc tbc i ctx fights
    ≫= (fun raw => raw !! j ≫= (fun v => v !! FEAT_TOTAL_FIGHTS_DELTA))
  = Some (IZR (fights_delta recs)).
Proof.
  intros Hloop Hrecs Hj. rewrite feature_loop_records, Hloop. simpl.
  destruct (lookup_lt_is_Some_2 fights j Hj) as [f Hf].
  erewrite (proj2 (lookup_zip_with_Some _ fights _ j _)); [|eauto].
  by destruct recs as [[r1 r2] h].
Qed.

(** When no reallocation moves an array, the loop reads no dangling pointer. *)
Lemma lookup_records_defined fight ctx :
  (forall cap, realloc cap <> ReallocMoves) ->
  is_Some (lookup_records realloc fight ctx).
Proof.
  intros Hstay. unfold lookup_records.
  destruct (get_or_add_fighter _ ctx _ _) as [r1 ctx1] eqn:E1.
  destruct (get_or_add_fighter _ ctx1 _ _) as [r2 ctx2] eqn:E2.
  destruct (get_or_add_h2h _ ctx2 _ _ _) as [h ctx3] eqn:E3.
  apply get_or_add_fighter_frame in E1 as (_ & _ & Hp1 & _).
  apply get_or_add_fighter_frame in E2 as (_ & _ & Hp2 & Hb2).
  apply get_or_add_h2h_frame in E3 as (_ & Hb3 & Hp3).
  assert (is_Some (read_fighter ctx3 r1)) as [x1 ->].
  { destruct r1 as [r1|]; [|done]. unfold read_fighter, fighter_ptr_live.
    rewrite bool_decide_eq_true_2; [done|]. rewrite Hb3, Hb2 by done. by apply Hp1. }
  assert (is_Some (read_fighter ctx3 r2)) as [x2 ->].
  { destruct r2 as [r2|]; [|done]. unfold read_fighter, fighter_ptr_live.
    rewrite bool_decide_eq_true_2; [done|]. rewrite Hb3. by apply Hp2. }
  assert (is_Some (read_h2h ctx3 h)) as [xh ->].
  { destruct h as [h|]; [|done]. unfold read_h2h, h2h_ptr_live.
    rewrite bool_decide_eq_true_2; [done|]. by apply Hp3. }
  done.
Qed.

Lemma feature_loop_defined tbc i ctx fights :
  (forall cap, realloc cap <> ReallocMoves) ->
  is_Some (feature_loop realloc tbc i ctx fights).
Proof.
  intros Hstay. revert i ctx. induction fights as [|f fights IH]; intros i ctx; [done|].
  simpl. unfold compute_features.
  destruct (lookup_records_defined f ctx Hstay) as [[recs ctx1] ->]. simpl.
  assert (is_Some (if i <? tbc then update_context_with_result realloc ctx1 f
                   else Some ctx1)) as [ctx2 ->].
  { destruct (i <? tbc); [|done]. by apply update_context_with_result_defined. }
  simpl. destruct (IH (i + 1) ctx2) as [rest ->]. done.
Qed.

End FeatureLoopFacts.

(** C1 (as amended).  In the feature loop of [train], whenever the loop reads
    no dangling slot pointer, (1) the feature vector of row [i] is the same
    for two datasets of equal size that agree on the rows before [i] inside
    the train-base prefix, agree up to the outcome on the other rows up to and
    including [i], and are arbitrary after [i]: it depends on no outcome of
    the validation subset, of row [i] or of later rows; (2) for [K <= N], the
    run on all [N] rows and the run on the first [K] rows (each with its own
    80% boundary) compute the same feature vectors for the first [m] rows
    whenever [m <= K] and either [m <= train_base_count K + 1] or both runs
    have the same boundary; (3) the loop reads no dangling pointer, and so
    yields the matrix, when no reallocation moves an array. *)
Theorem train_features_noninterference (realloc : Z -> ReallocResult) :
  (forall (A B : list UFCFight) (i : nat) rawA rawB,
      length A = length B ->
      (forall j a b, (j <= i)%nat -> A !! j = Some a -> B !! j = Some b ->
                     if decide ((j < i)%nat /\ Z.of_nat j < train_base_count (Z.of_nat (length A)))
                     then a = b else forget_label a = forget_label b) ->
      train_raw_features realloc A = Some rawA ->
      train_raw_features realloc B = Some rawB ->
      rawA !! i = rawB !! i)
  /\ (forall (fights : list UFCFight) (K m : nat) rawN rawK,
        (m <= K <= length fights)%nat ->
        Z.of_nat m <= train_base_count (Z.of_nat K) + 1
        \/ train_base_count (Z.of_nat (length fights)) = train_base_count (Z.of_nat K) ->
        train_raw_features realloc fights = Some rawN ->
        train_raw_features realloc (take K fights) = Some rawK ->
        take m rawN = take m rawK)
  /\ ((forall cap, realloc cap <> ReallocMoves) ->
      forall fights : list UFCFight, is_Some (train_raw_features realloc fights)).
Proof.
  split; [|split].
  - intros A B i rawA rawB Hlen Hagree HA HB.
    rewrite train_raw_features_loop in HA, HB. rewrite <- Hlen in HB.
    set (tbc := train_base_count (Z.of_nat (length A))) in *.
    apply (feature_loop_take _ _ _ _ _ (S i)) in HA, HB.
    apply (feature_loop_boundary _ tbc (Z.min tbc (Z.of_nat i))) in HA, HB; try lia.
    + rewrite (feature_loop_agree _ _ _ _ (take (S i) A) (take (S i) B)) in HA.
      * rewrite HA in HB. injection HB as HB.
        apply (f_equal (fun raw => raw !! i)) in HB.
        by rewrite !lookup_take_lt in HB by lia.
      * apply agree_from_lookup; [rewrite !length_take; lia|].
        intros j a b Ha Hb.
        apply lookup_take_Some in Ha as [Ha Hj]. apply lookup_take_Some in Hb as [Hb _].
        specialize (Hagree j a b ltac:(lia) Ha Hb).
        destruct (0 + Z.of_nat j <? Z.min tbc (Z.of_nat i)) eqn:Hlt.
        -- rewrite decide_True in Hagree by lia. done.
        -- case_decide; [by subst|done].
    + intros j Hj. rewrite length_take in Hj. destruct (j <? tbc) eqn:E; lia.
    + intros j Hj. rewrite length_take in Hj. destruct (j <? tbc) eqn:E; lia.
  - intros fights K m rawN rawK Hm Hb HN HK.
    rewrite train_raw_features_loop in HN, HK.
    rewrite length_take, Nat.min_l in HK by lia.
    pose proof (train_base_count_mono (Z.of_nat K) (Z.of_nat (length fights))
                  ltac:(lia)) as Hmono.
    apply (feature_loop_take _ _ _ _ _ m) in HN, HK.
    rewrite take_take, Nat.min_l in HK by lia.
    apply (feature_loop_boundary _ _ (train_base_count (Z.of_nat K))) in HN;
      [|intros j Hj; rewrite length_take in Hj|done].
    + rewrite HN in HK. by injection HK.
    + destruct Hb as [Hb|Hb]; [|by rewrite Hb].
      destruct (j <? _) eqn:E1, (j <? _) eqn:E2; lia.
  - intros Hstay fights. rewrite train_raw_features_loop.
    by apply feature_loop_defined.
Qed.

Lemma train_features_noninterference_witness :
  (5 <= 6 <= length seven_bouts)%nat
  /\ Z.of_nat 5 <= train_base_count 6 + 1
  /\ exists rawN rawK,
       train_raw_features (fun _ => ReallocInPlace) seven_bouts = Some rawN
       /\ train_raw_features (fun _ => ReallocInPlace) (take 6 seven_bouts) = Some rawK
       /\ take 5 rawN = take 5 rawK.
Proof.
  assert (5 <= 6 <= length seven_bouts)%nat as Hm by (simpl; lia).
  assert (Z.of_nat 5 <= train_base_count 6 + 1) as Hb by (vm_compute; discriminate).
  assert (forall cap : Z, (fun _ : Z => ReallocInPlace) cap <> ReallocMoves) as Hstay
    by discriminate.
  pose proof (train_features_noninterference (fun _ => ReallocInPlace))
    as (_ & Hruns & Hdef).
  destruct (Hdef Hstay seven_bouts) as [rawN HN].
  destruct (Hdef Hstay (take 6 seven_bouts)) as [rawK HK].
  split; [exact Hm|]. split; [exact Hb|].
  exists rawN, rawK. split; [exact HN|]. split; [exact HK|].
  exact (Hruns seven_bouts 6%nat 5%nat rawN rawK Hm (or_introl Hb) HN HK).
Defined.

(** The two-run statement as worded fails: with 7 chronological rows the
    boundary is 5, with the first 6 of them it is 4, so the fifth fight is
    recorded in one run only and the sixth row, which shares a fighter with
    it, gets a different fight-count delta. *)
Lemma train_features_future_rows :
  ~ (forall (fights : list UFCFight) (K : nat),
        chronological fights ->
        take K <$> train_raw_features (fun _ => ReallocInPlace) fights
        = train_raw_features (fun _ => ReallocInPlace) (take K fights)).
Proof.
  intros H. specialize (H seven_bouts 6%nat).
  rewrite !train_raw_features_loop in H.
  assert (chronological seven_bouts) as Hc by (repeat split).
  specialize (H Hc).
  apply (f_equal (fun o : option (list (list R)) =>
                    o ≫= (fun raw => raw !! 5%nat
                                       ≫= (fun v => v !! FEAT_TOTAL_FIGHTS_DELTA)))) in H.
  assert (forall (o : option (list (list R))) (g : list R -> option R),
             (take 6 <$> o) ≫= (fun raw => raw !! 5%nat ≫= g)
             = o ≫= (fun raw => raw !! 5%nat ≫= g)) as Htake.
  { intros [raw|] g; [|done]. simpl. by rewrite lookup_take_lt by lia. }
  rewrite Htake in H. clear Htake.
  change (Z.of_nat (length seven_bouts)) with 7 in H.
  change (Z.of_nat (length (take 6 seven_bouts))) with 6 in H.
  change (train_base_count 7) with 5 in H.
  change (train_base_count 6) with 4 in H.
  erewrite (feature_loop_fights_delta _ 5 0 init_context seven_bouts 5) in H;
    [|vm_compute; reflexivity|reflexivity|simpl; lia].
  erewrite (feature_loop_fights_delta _ 4 0 init_context (take 6 seven_bouts) 5) in H;
    [|vm_compute; reflexivity|reflexivity|simpl; lia].
  injection H as H. apply eq_IZR in H. vm_compute in H. discriminate H.
Qed.

(** C2 (as amended).  For every sequence of recorded fights with resolved
    labels, when every allocation succeeds and no write goes through a
    dangling slot pointer: the empty context satisfies the tracker predicate,
    every single [update_context_with_result] preserves it, and after
    recording the whole sequence every [FighterRecord] has [total] equal to
    the number of sides (fighter1 or fighter2) that carry its name in its
    weight class, and [wins + losses = total]; when no fight has the same name
    on both sides, [total] is the number of fights involving the fighter.  No
    pointer dangles when no reallocation moves an array. *)
Theorem update_context_counts (realloc : Z -> ReallocResult) :
  (forall cap, realloc cap <> ReallocFails) ->
  ctx_inv init_context []
  /\ (forall ctx fs fight ctx',
        ctx_inv ctx fs -> resolved fight ->
        update_context_with_result realloc ctx fight = Some ctx' ->
        ctx_inv ctx' (fs ++ [fight]))
  /\ (forall fights ctx r,
        Forall resolved fights ->
        record_all realloc init_context fights = Some ctx ->
        r ∈ fighters ctx ->
        total r = appearances (key r) fights
        /\ wins r + losses r = total r
        /\ (Forall (fun fight => fighter1 fight <> fighter2 fight) fights ->
            total r = involving (key r) fights))
  /\ ((forall cap, realloc cap <> ReallocMoves) ->
      forall ctx fights, is_Some (record_all realloc ctx fights)).
Proof.
  intros Hok. split; [apply ctx_inv_init|]. split; [|split].
  - intros ctx fs fight ctx'. by apply ctx_inv_step.
  - intros fights ctx r Hres Hctx Hr.
    destruct (ctx_inv_record_all realloc Hok init_context [] fights ctx
                ctx_inv_init Hres Hctx) as (_ & Hall & _).
    rewrite Forall_forall in Hall. destruct (Hall r Hr) as [Ht Hwl].
    split; [done|]. split; [done|]. intros Hdistinct.
    by rewrite <- appearances_involving.
  - intros Hstay ctx fights. by apply record_all_defined.
Qed.

Lemma update_context_counts_witness :
  Forall resolved two_bouts
  /\ exists ctx,
       record_all (fun _ => ReallocInPlace) init_context two_bouts = Some ctx
       /\ forall r, r ∈ fighters ctx ->
                    total r = appearances (key r) two_bouts
                    /\ wins r + losses r = total r
                    /\ (Forall (fun fight => fighter1 fight <> fighter2 fight) two_bouts ->
                        total r = involving (key r) two_bouts).
Proof.
  assert (Forall resolved two_bouts) as Hres.
  { constructor; [by left|]. constructor; [by right|]. constructor. }
  assert (forall cap : Z, (fun _ : Z => ReallocInPlace) cap <> ReallocFails) as Hok
    by discriminate.
  split; [exact Hres|]. eexists. split; [vm_compute; reflexivity|].
  intros r Hr.
  exact (proj1 (proj2 (proj2 (update_context_counts (fun _ => ReallocInPlace) Hok)))
           two_bouts _ r Hres eq_refl Hr).
Defined.

(** The claim as worded (total = number of fights involving the fighter) fails
    for a row that names the same fighter on both sides: one fight, total 2. *)
Lemma update_context_self_fight :
  ~ (forall fights ctx r,
        Forall resolved fights ->
        record_all (fun _ => ReallocInPlace) init_context fights = Some ctx ->
        r ∈ fighters ctx ->
        total r = involving (key r) fights).
Proof.
  intros H.
  assert (2 = 1) as Habs; [|discriminate Habs].
  eapply (H [sample_fight "2020-01-18" "Lightweight" "Ann" "Ann" 1] _
            {| name := "Ann"; r_weight_class := "Lightweight";
               wins := 1; losses := 1; total := 2 |}).
  - constructor; [by left|constructor].
  - vm_compute. reflexivity.
  - apply list_elem_of_here.
Qed.

(** ** Mirrored augmentation *)

Local Open Scope nat_scope.

Lemma augment_prefix (B : nat) (raw_features : list (list R)) (labels : list R)
    (aug_raw0 : list (list R)) (aug_labels0 : list R) (k : nat) :
  k <= B -> B <= length raw_features -> B <= length labels ->
  length aug_raw0 = 2 * B -> length aug_labels0 = 2 * B ->
  let bufs := fold_left (augment_step B raw_features labels) (seq 0 k)
                        (aug_raw0, aug_labels0) in
  length bufs.1 = 2 * B /\ length bufs.2 = 2 * B
  /\ forall i, i < k ->
       bufs.1 !! i = raw_features !! i
       /\ bufs.1 !! (i + B) = (fmap Ropp) <$> raw_features !! i
       /\ bufs.2 !! i = labels !! i
       /\ bufs.2 !! (i + B) = (fun l => (1 - l)%R) <$> labels !! i.
Proof.
  intros Hk Hraw Hlab Ha Hl. cbv zeta. induction k as [|k IH].
  - simpl. repeat split; try done; lia.
  - rewrite seq_S, fold_left_app. simpl.
    destruct IH as (Hlen1 & Hlen2 & IH); [lia|].
    set (bufs := fold_left _ _ _) in *. unfold augment_step; simpl.
    rewrite !length_insert. split; [done|]. split; [done|].
    destruct (nth_lookup_or_length raw_features k []) as [Hrow|]; [|lia].
    destruct (nth_lookup_or_length labels k 0%R) as [Hlk|]; [|lia].
    intros i Hi. destruct (decide (i = k)) as [->|Hne].
    + rewrite list_lookup_insert_ne, list_lookup_insert_eq by lia.
      rewrite list_lookup_insert_eq by (rewrite length_insert; lia).
      rewrite (list_lookup_insert_ne _ (k + B) k), list_lookup_insert_eq by lia.
      rewrite list_lookup_insert_eq by (rewrite length_insert; lia).
      by rewrite Hrow, Hlk.
    + destruct (IH i) as (H1 & H2 & H3 & H4); [lia|].
      by rewrite !list_lookup_insert_ne by lia.
Qed.

(** C3.  The augmented training set built by [train] for a train base of
    size [B] has exactly [2 * B] samples; for every [i < B] sample [i] is raw
    sample [i] with its label, and sample [i + B] has the entrywise negated
    feature vector and label [1 - label]; the validation set has [val_count]
    samples, sample [i] being the normalised raw row [B + i] with its own
    label (no mirrored twin). *)
Theorem augment_mirrored (B : nat) (raw_features : list (list R)) (labels : list R)
    (aug_raw0 : list (list R)) (aug_labels0 : list R) :
  1 <= B -> B <= length raw_features -> B <= length labels ->
  length aug_raw0 = 2 * B -> length aug_labels0 = 2 * B ->
  let aug := augment B raw_features labels aug_raw0 aug_labels0 in
  length aug.1 = 2 * B /\ length aug.2 = 2 * B
  /\ (forall i, i < B ->
        aug.1 !! i = raw_features !! i
        /\ aug.1 !! (i + B) = (fmap Ropp) <$> raw_features !! i
        /\ aug.2 !! i = labels !! i
        /\ aug.2 !! (i + B) = (fun l => (1 - l)%R) <$> labels !! i)
  /\ (forall m val_count,
        let val := validation_set B val_count raw_features labels m in
        length val.1 = val_count /\ length val.2 = val_count
        /\ forall i, i < val_count ->
             val.1 !! i = Some (normalize_features (nth (B + i) raw_features []) m)
             /\ val.2 !! i = Some (nth (B + i) labels 0%R)).
Proof.
  intros _ Hraw Hlab Ha Hl aug.
  destruct (augment_prefix B raw_features labels aug_raw0 aug_labels0 B)
    as (H1 & H2 & H3); try done.
  split; [done|]. split; [done|]. split; [done|].
  intros m val_count val. unfold val, validation_set; simpl.
  rewrite !length_fmap, !length_seq. split; [done|]. split; [done|].
  intros i Hi. by rewrite !list_lookup_fmap, !lookup_seq_lt.
Qed.

Lemma augment_mirrored_witness :
  1 <= 1 /\ 1 <= length two_rows
  /\ length (augment 1 two_rows [1%R; 0%R] [[]; []] [0%R; 0%R]).1 = 2 * 1.
Proof.
  assert (1 <= 1) as H1 by lia.
  assert (1 <= length two_rows) as H2 by (simpl; lia).
  assert (1 <= length [1%R; 0%R]) as H3 by (simpl; lia).
  split; [exact H1|]. split; [exact H2|].
  exact (proj1 (augment_mirrored 1 two_rows [1%R; 0%R] [[]; []] [0%R; 0%R]
                  H1 H2 H3 eq_refl eq_refl)).
Defined.

Local Close Scope nat_scope.

(** ** Activation functions *)

Section Activations.

Local Open Scope R_scope.

Lemma sigmoid_range x : 0 < sigmoid x < 1.
Proof.
  unfold sigmoid. pose proof (exp_pos (- x)) as He.
  assert (0 < / (1 + exp (- x)) < 1) as [H0 H1]; [|unfold Rdiv; lra].
  split.
  - apply Rinv_0_lt_compat. lra.
  - rewrite <- Rinv_1 at 2. apply Rinv_lt_contravar; lra.
Qed.

Lemma sigmoid_opp x : sigmoid (- x) = 1 - sigmoid x.
Proof.
  unfold sigmoid. rewrite Ropp_involutive, exp_Ropp.
  pose proof (exp_pos x). field. split; lra.
Qed.

Lemma sigmoid_monotone x y : x <= y -> sigmoid x <= sigmoid y.
Proof.
  intros [Hlt | ->]; [|lra]. unfold sigmoid, Rdiv. rewrite !Rmult_1_l.
  pose proof (exp_pos (- x)). pose proof (exp_pos (- y)).
  assert (exp (- y) < exp (- x)) by (apply exp_increasing; lra).
  left. apply Rinv_lt_contravar; [nra|lra].
Qed.

Lemma sigmoid_0 : sigmoid 0 = 1 / 2.
Proof. unfold sigmoid. rewrite Ropp_0, exp_0. lra. Qed.

Lemma tanh_act_opp x : tanh_act (- x) = - tanh_act x.
Proof.
  unfold tanh_act, tanh, sinh, cosh. rewrite Ropp_involutive.
  pose proof (exp_pos x). pose proof (exp_pos (- x)). field. lra.
Qed.

(** A sum with zero bias of negated terms is the negated sum. *)
Lemma weighted_sum_opp n (term term' : nat -> R) :
  (forall i, term' i = - term i) ->
  weighted_sum 0 n term' = - weighted_sum 0 n term.
Proof.
  intros Hterm. unfold weighted_sum.
  assert (forall l a, fold_left (fun sum i => sum + term' i) l (- a)
                      = - fold_left (fun sum i => sum + term i) l a) as Hgen.
  { induction l as [|i l IH]; intros a; simpl; [done|].
    rewrite <- IH. f_equal. rewrite Hterm. ring. }
  rewrite <- Hgen. by rewrite Ropp_0.
Qed.

Lemma nth_fmap_seq (f : nat -> R) n j :
  nth j (f <$> seq 0 n) 0 = if decide (j < n)%nat then f j else 0.
Proof.
  rewrite nth_lookup, list_lookup_fmap. case_decide.
  - by rewrite lookup_seq_lt.
  - by rewrite lookup_seq_ge by lia.
Qed.

Lemma nth_fmap_opp (l : list R) i : nth i (Ropp <$> l) 0 = - nth i l 0.
Proof.
  rewrite !nth_lookup, list_lookup_fmap. destruct (l !! i); simpl; [done|ring].
Qed.

Lemma nth_replicate_0 n i : nth i (replicate n 0) 0 = 0.
Proof.
  rewrite nth_lookup. destruct (replicate n 0 !! i) as [x|] eqn:E; [|done].
  by apply lookup_replicate in E as [-> _].
Qed.

End Activations.

(** ** Forward pass *)

Section ForwardFacts.

Local Open Scope R_scope.

Lemma predict_eq m inp :
  predict m inp
  = sigmoid (weighted_sum (nth 0 (b3 m) 0) HIDDEN_2_SIZE
               (fun j => nth j (h2 (forward m inp)) 0 * nth 0 (nth j (w3 m) []) 0)).
Proof. reflexivity. Qed.

Lemma predict_range m inp : 0 < predict m inp < 1.
Proof. rewrite predict_eq. apply sigmoid_range. Qed.

Lemma forward_h1 m inp j :
  nth j (h1 (forward m inp)) 0
  = if decide (j < HIDDEN_1_SIZE)%nat
    then tanh_act (weighted_sum (nth j (b1 m) 0) INPUT_SIZE
                     (fun i => nth i inp 0 * nth j (nth i (w1 m) []) 0))
    else 0.
Proof. exact (nth_fmap_seq _ _ _). Qed.

Lemma forward_h2 m inp j :
  nth j (h2 (forward m inp)) 0
  = if decide (j < HIDDEN_2_SIZE)%nat
    then tanh_act (weighted_sum (nth j (b2 m) 0) HIDDEN_1_SIZE
                     (fun i => nth i (h1 (forward m inp)) 0 * nth j (nth i (w2 m) []) 0))
    else 0.
Proof. exact (nth_fmap_seq _ _ _). Qed.

(** With zero biases the network is odd up to the output sigmoid. *)
Lemma predict_opp m inp :
  zero_biases m -> predict m (Ropp <$> inp) = 1 - predict m inp.
Proof.
  intros (Hb1 & Hb2 & Hb3). rewrite !predict_eq, Hb3, <- sigmoid_opp. f_equal.
  assert (forall j, nth j (h1 (forward m (Ropp <$> inp))) 0
                    = - nth j (h1 (forward m inp)) 0) as Hh1.
  { intros j. rewrite !forward_h1.
    case_decide; [|ring]. rewrite !Hb1, <- tanh_act_opp. f_equal.
    apply weighted_sum_opp. intros i. rewrite nth_fmap_opp. ring. }
  assert (forall j, nth j (h2 (forward m (Ropp <$> inp))) 0
                    = - nth j (h2 (forward m inp)) 0) as Hh2.
  { intros j. rewrite !forward_h2.
    case_decide; [|ring]. rewrite !Hb2, <- tanh_act_opp. f_equal.
    apply weighted_sum_opp. intros i. rewrite Hh1. ring. }
  apply weighted_sum_opp. intros j. rewrite Hh2. ring.
Qed.

Lemma init_model_zero_biases RAND_MAX rand : zero_biases (init_model RAND_MAX rand).
Proof. repeat split; intros j; apply nth_replicate_0. Qed.

End ForwardFacts.

(** ** Normalizer *)

Section NormalizerFacts.

Local Open Scope R_scope.

Lemma normalization_std_floor rows count j : 1e-8 <= normalization_std rows count j.
Proof. unfold normalization_std. destruct (Rlt_dec _ _); lra. Qed.

Lemma feat_std_compute_normalization raw count m j :
  nth j (feat_std (compute_normalization raw count m)) 0
  = if decide (j < INPUT_SIZE)%nat
    then normalization_std (take count raw) count j else 0.
Proof. exact (nth_fmap_seq _ _ _). Qed.

Lemma feat_mean_compute_normalization raw count m j :
  nth j (feat_mean (compute_normalization raw count m)) 0
  = if decide (j < INPUT_SIZE)%nat
    then normalization_mean (take count raw) count j else 0.
Proof. exact (nth_fmap_seq _ _ _). Qed.

Lemma normalize_features_nth features m i :
  nth i (normalize_features features m) 0
  = if decide (i < INPUT_SIZE)%nat
    then (nth i features 0 - nth i (feat_mean m) 0) / nth i (feat_std m) 0
    else 0.
Proof. exact (nth_fmap_seq _ _ _). Qed.

(** Normalising and mapping back through the same non-zero statistics. *)
Lemma denormalize_normalize features m :
  length features = INPUT_SIZE ->
  (forall j, (j < INPUT_SIZE)%nat -> nth j (feat_std m) 0 <> 0) ->
  denormalize_features (normalize_features features m) m = features.
Proof.
  intros Hlen Hstd. apply list_eq. intros i. unfold denormalize_features.
  rewrite list_lookup_fmap. destruct (decide (i < INPUT_SIZE)%nat) as [Hi|Hi].
  - rewrite lookup_seq_lt by done. cbn [fmap option_fmap option_map Nat.add].
    rewrite normalize_features_nth, decide_True by done.
    destruct (nth_lookup_or_length features i 0) as [->|]; [|lia].
    f_equal. field. by apply Hstd.
  - rewrite lookup_seq_ge by lia. simpl. symmetry. apply lookup_ge_None. lia.
Qed.

End NormalizerFacts.

(** C5.  After [compute_normalization] on a non-empty sample matrix every
    stored per-feature standard deviation is at least 1e-8, hence strictly
    positive and never a zero divisor in [normalize_features]; and for every
    raw feature vector, normalising and then applying [x * std + mean] with the
    same statistics gives the vector back (exact real arithmetic). *)
Theorem compute_normalization_roundtrip
    (raw : list (list R)) (count : nat) (m : Model) :
  (0 < count)%nat ->
  let m' := compute_normalization raw count m in
  (forall j, (j < INPUT_SIZE)%nat ->
             (1e-8 <= nth j (feat_std m') 0 /\ 0 < nth j (feat_std m') 0)%R)
  /\ (forall features, length features = INPUT_SIZE ->
                       denormalize_features (normalize_features features m') m'
                       = features).
Proof.
  intros _ m'.
  assert (forall j, (j < INPUT_SIZE)%nat -> (1e-8 <= nth j (feat_std m') 0)%R) as Hfloor.
  { intros j Hj. unfold m'. rewrite feat_std_compute_normalization, decide_True by done.
    apply normalization_std_floor. }
  split.
  - intros j Hj. specialize (Hfloor j Hj). lra.
  - intros features Hlen. apply denormalize_normalize; [done|].
    intros j Hj. specialize (Hfloor j Hj). lra.
Qed.

Lemma compute_normalization_roundtrip_witness :
  (0 < 2)%nat
  /\ denormalize_features
       (normalize_features (replicate INPUT_SIZE 2%R)
          (compute_normalization two_rows 2 (init_model 2147483647 (fun _ => 0))))
       (compute_normalization two_rows 2 (init_model 2147483647 (fun _ => 0)))
     = replicate INPUT_SIZE 2%R.
Proof.
  assert (0 < 2)%nat as H by lia. split; [exact H|].
  exact (proj2 (compute_normalization_roundtrip two_rows 2
                  (init_model 2147483647 (fun _ => 0)) H)
           (replicate INPUT_SIZE 2%R) eq_refl).
Defined.

Section LongDoubleFacts.

Local Open Scope R_scope.

Lemma bpow_pos e : 0 < bpow e.
Proof. apply powerRZ_lt. lra. Qed.

Lemma bpow_add a b : bpow (a + b) = bpow a * bpow b.
Proof. apply powerRZ_add. lra. Qed.

Lemma bpow_exp e : bpow e = exp (IZR e * ln 2).
Proof. unfold bpow. rewrite powerRZ_Rpower by lra. reflexivity. Qed.

Lemma ln_2_pos : 0 < ln 2.
Proof. pose proof ln_lt_2. lra. Qed.

Lemma bpow_lt a b : (a < b)%Z -> bpow a < bpow b.
Proof.
  intros Hab. rewrite !bpow_exp. apply exp_increasing.
  apply Rmult_lt_compat_r; [apply ln_2_pos|by apply IZR_lt].
Qed.

Lemma bpow_le a b : (a <= b)%Z -> bpow a <= bpow b.
Proof.
  intros Hab. destruct (Z.eq_dec a b) as [->|Hne]; [lra|].
  left. apply bpow_lt. lia.
Qed.

Lemma bpow_lt_inv a b : bpow a < bpow b -> (a < b)%Z.
Proof.
  intros Hlt. destruct (Z_lt_le_dec a b) as [|Hle]; [done|].
  pose proof (bpow_le b a Hle). lra.
Qed.

Lemma bpow_IZR e : (0 <= e)%Z -> bpow e = IZR (2 ^ e).
Proof.
  intros He. unfold bpow. rewrite <- (Z2Nat.id e) by done.
  by rewrite <- pow_powerRZ, pow_IZR.
Qed.

Lemma bpow_opp e : bpow (- e) = / bpow e.
Proof. apply powerRZ_neg'. Qed.

Lemma bpow_cancel e : bpow (- e) * bpow e = 1.
Proof. rewrite <- bpow_add. replace (- e + e)%Z with 0%Z by lia. reflexivity. Qed.

(** *** The exponent of a real *)

Lemma mag_bounds x : x <> 0 -> bpow (mag x - 1) <= Rabs x < bpow (mag x).
Proof.
  intros Hx. unfold mag.
  assert (0 < Rabs x) as Hpos by (by apply Rabs_pos_lt).
  pose proof ln_2_pos as H2.
  pose proof (Zfloor_bound (ln (Rabs x) / ln 2)) as [Hlo Hhi].
  set (f := Zfloor (ln (Rabs x) / ln 2)) in *.
  replace (f + 1 - 1)%Z with f by lia.
  rewrite !bpow_exp, plus_IZR.
  rewrite <- (exp_ln (Rabs x)) by done.
  set (l := ln (Rabs x)) in *.
  assert (l = l / ln 2 * ln 2) as Hl by (field; lra).
  split.
  - destruct Hlo as [Hlo|Hlo].
    + left. apply exp_increasing. rewrite Hl. by apply Rmult_lt_compat_r.
    + right. f_equal. rewrite Hlo. exact (eq_sym Hl).
  - apply exp_increasing. rewrite Hl at 1. by apply Rmult_lt_compat_r.
Qed.

Lemma mag_unique x e : bpow (e - 1) <= Rabs x < bpow e -> mag x = e.
Proof.
  intros [Hlo Hhi].
  assert (x <> 0) as Hx.
  { intros ->. rewrite Rabs_R0 in Hlo. pose proof (bpow_pos (e - 1)). lra. }
  destruct (mag_bounds x Hx) as [Hlo' Hhi'].
  assert (mag x - 1 < e)%Z by (apply bpow_lt_inv; lra).
  assert (e - 1 < mag x)%Z by (apply bpow_lt_inv; lra).
  lia.
Qed.

(** *** Rounding to an integer *)

Lemma Znearest_cases x : Znearest x = Zfloor x \/ Znearest x = (Zfloor x + 1)%Z.
Proof.
  unfold Znearest. repeat destruct (Rlt_dec _ _); try destruct (Z.even (Zfloor x)); auto.
Qed.

Lemma Znearest_IZR n : Znearest (IZR n) = n.
Proof.
  unfold Znearest. rewrite ZfloorZ.
  destruct (Rlt_dec _ _) as [|Hn]; [done|]. lra.
Qed.

Lemma Znearest_ge x n : IZR n <= x -> (n <= Znearest x)%Z.
Proof.
  intros Hn. pose proof (Zfloor_lub n x Hn).
  destruct (Znearest_cases x) as [-> | ->]; lia.
Qed.

Lemma Znearest_le x n : x <= IZR n -> (Znearest x <= n)%Z.
Proof.
  intros Hn. pose proof (Zfloor_bound x) as [Hlo Hhi].
  assert (Zfloor x <= n)%Z as Hf by (apply le_IZR; lra).
  destruct (Z.eq_dec (Zfloor x) n) as [E|E].
  - unfold Znearest. rewrite E in *.
    destruct (Rlt_dec _ _) as [|Hh]; [lia|]. lra.
  - destruct (Znearest_cases x) as [-> | ->]; lia.
Qed.

Lemma Znearest_small x : 0 <= x < / 2 -> Znearest x = 0%Z.
Proof.
  intros Hx. unfold Znearest.
  rewrite (Zfloor_eq 0 x) by lra.
  destruct (Rlt_dec _ _) as [|Hh]; [done|]. lra.
Qed.

(** *** Rounding to long double *)

Lemma ld_exponent_bounds x :
  (mag x - LDBL_MANT_DIG <= ld_exponent x)%Z /\ (ld_emin <= ld_exponent x)%Z
  /\ (ld_exponent x = mag x - LDBL_MANT_DIG \/ ld_exponent x = ld_emin)%Z.
Proof. unfold ld_exponent. lia. Qed.

Lemma round_unbounded_nonneg x : 0 <= x -> 0 <= round_unbounded x.
Proof.
  intros Hx. unfold round_unbounded.
  pose proof (bpow_pos (ld_exponent x)). pose proof (bpow_pos (- ld_exponent x)).
  assert (0 <= Znearest (x * bpow (- ld_exponent x)))%Z as Hn
    by (apply Znearest_ge; simpl; nra).
  apply IZR_le in Hn. nra.
Qed.

Lemma round_unbounded_upper x : 0 < x -> round_unbounded x <= bpow (mag x).
Proof.
  intros Hx. unfold round_unbounded.
  destruct (mag_bounds x ltac:(lra)) as [_ Hhi]. rewrite Rabs_pos_eq in Hhi by lra.
  set (c := ld_exponent x). set (e := mag x) in *.
  pose proof (bpow_pos c) as Hc. pose proof (bpow_pos (- c)) as Hc'.
  assert (x * bpow (- c) < bpow (e - c)) as Hs.
  { replace (e - c)%Z with (e + - c)%Z by lia. rewrite bpow_add. nra. }
  destruct (Z_lt_le_dec (e - c) 0) as [Hneg|Hnn].
  - rewrite Znearest_small.
    + pose proof (bpow_pos e). lra.
    + split; [nra|]. pose proof (bpow_le (e - c) (-1) ltac:(lia)) as Hle.
      change (bpow (-1)) with (/ (2 * 1)) in Hle. lra.
  - rewrite (bpow_IZR (e - c)) in Hs by done.
    assert (Znearest (x * bpow (- c)) <= 2 ^ (e - c))%Z as Hn
      by (apply Znearest_le; lra).
    apply IZR_le in Hn. rewrite <- (bpow_IZR (e - c)) in Hn by done.
    assert (bpow e = bpow (e - c) * bpow c) as ->
      by (rewrite <- bpow_add; f_equal; lia).
    nra.
Qed.

Lemma round_unbounded_lower x :
  0 < x -> (ld_emin + 1 <= mag x)%Z -> bpow (mag x - 1) <= round_unbounded x.
Proof.
  intros Hx He. unfold round_unbounded.
  destruct (mag_bounds x ltac:(lra)) as [Hlo _]. rewrite Rabs_pos_eq in Hlo by lra.
  pose proof (ld_exponent_bounds x) as (_ & _ & Hcase). unfold LDBL_MANT_DIG in Hcase.
  set (c := ld_exponent x) in *. set (e := mag x) in *.
  pose proof (bpow_pos c) as Hc. pose proof (bpow_pos (- c)) as Hc'.
  assert (0 <= e - 1 - c)%Z as Hnn by lia.
  assert (bpow (e - 1 - c) <= x * bpow (- c)) as Hs.
  { replace (e - 1 - c)%Z with (e - 1 + - c)%Z by lia. rewrite bpow_add. nra. }
  rewrite (bpow_IZR (e - 1 - c)) in Hs by done.
  assert (2 ^ (e - 1 - c) <= Znearest (x * bpow (- c)))%Z as Hn
    by (by apply Znearest_ge).
  apply IZR_le in Hn. rewrite <- (bpow_IZR (e - 1 - c)) in Hn by done.
  assert (bpow (e - 1) = bpow (e - 1 - c) * bpow c) as ->
    by (rewrite <- bpow_add; f_equal; lia).
  nra.
Qed.

Lemma mag_le x k : 0 < x -> x < bpow k -> (mag x <= k)%Z.
Proof.
  intros Hx Hk. destruct (mag_bounds x ltac:(lra)) as [Hlo _].
  rewrite Rabs_pos_eq in Hlo by lra.
  assert (mag x - 1 < k)%Z by (apply bpow_lt_inv; lra). lia.
Qed.

Lemma mag_gt x k : bpow k <= x -> (k < mag x)%Z.
Proof.
  intros Hk. pose proof (bpow_pos k).
  destruct (mag_bounds x ltac:(lra)) as [_ Hhi].
  rewrite Rabs_pos_eq in Hhi by lra. apply bpow_lt_inv. lra.
Qed.

Lemma ld_round_pos x :
  0 < x ->
  ld_round x = LFin (round_unbounded x) /\ round_unbounded x < bpow LDBL_MAX_EXP
  \/ ld_round x = LPInf /\ bpow LDBL_MAX_EXP <= round_unbounded x.
Proof.
  intros Hx. unfold ld_round.
  destruct (Req_EM_T x 0) as [|_]; [lra|]. cbv zeta.
  pose proof (round_unbounded_nonneg x ltac:(lra)) as Hy.
  rewrite Rabs_pos_eq by done.
  destruct (Rlt_dec _ _) as [Hlt|Hge]; [by left|].
  destruct (Rlt_dec 0 x); [|lra]. right. split; [done|lra].
Qed.

(** A non-negative real rounds to a non-negative number or to [+inf]. *)
Lemma ld_round_nonneg x :
  0 <= x -> ld_round x = LPInf \/ exists y, ld_round x = LFin y /\ 0 <= y.
Proof.
  intros [Hx| <-].
  - destruct (ld_round_pos x Hx) as [[-> _]|[-> _]]; [right|by left].
    eexists. split; [done|]. apply round_unbounded_nonneg. lra.
  - right. exists 0. split; [|lra]. unfold ld_round.
    by destruct (Req_EM_T 0 0).
Qed.

(** Integers below [2^64] in magnitude are long doubles. *)
Lemma ld_round_IZR n : (Z.abs n < 2 ^ 64)%Z -> ld_round (IZR n) = LFin (IZR n).
Proof.
  intros Hn. unfold ld_round.
  destruct (Req_EM_T (IZR n) 0) as [->|Hne]; [done|]. cbv zeta.
  assert (Rabs (IZR n) < bpow 64) as Hlt.
  { rewrite <- abs_IZR, bpow_IZR by lia. by apply IZR_lt. }
  assert (round_unbounded (IZR n) = IZR n) as ->.
  { unfold round_unbounded.
    destruct (mag_bounds (IZR n) Hne) as [Hlo _].
    assert (mag (IZR n) - 1 < 64)%Z by (apply bpow_lt_inv; lra).
    pose proof (ld_exponent_bounds (IZR n)) as (_ & Hmin & Hcase).
    unfold LDBL_MANT_DIG in Hcase. set (c := ld_exponent (IZR n)) in *.
    assert (c <= 0)%Z as Hc by (unfold ld_emin, LDBL_MAX_EXP, LDBL_MANT_DIG in *; lia).
    rewrite (bpow_IZR (- c)) by lia. rewrite <- mult_IZR, Znearest_IZR, mult_IZR.
    rewrite <- (bpow_IZR (- c)) by lia. rewrite Rmult_assoc, bpow_cancel. lra. }
  destruct (Rlt_dec _ _) as [|Hge]; [done|]. exfalso. apply Hge.
  pose proof (bpow_lt 64 LDBL_MAX_EXP ltac:(unfold LDBL_MAX_EXP; lia)). lra.
Qed.

(** A real in [[0, 1]] rounds to a number in [[0, 1]]. *)
Lemma ld_round_unit x :
  0 <= x <= 1 -> exists p, ld_round x = LFin p /\ 0 <= p <= 1.
Proof.
  intros [Hx0 Hx1].
  destruct (Req_EM_T x 0) as [->|Hn0];
    [exists 0; split; [exact (ld_round_IZR 0 ltac:(lia))|lra]|].
  destruct (Req_EM_T x 1) as [->|Hn1];
    [exists 1; split; [exact (ld_round_IZR 1 ltac:(lia))|lra]|].
  assert (0 < x) as Hx by lra. assert (x < 1) as Hlt by lra.
  assert (round_unbounded x <= 1) as Hle.
  { pose proof (round_unbounded_upper x Hx).
    pose proof (bpow_le (mag x) 0 (mag_le x 0 Hx Hlt)) as Hb.
    change (bpow 0) with 1 in Hb. lra. }
  pose proof (bpow_lt 0 LDBL_MAX_EXP ltac:(unfold LDBL_MAX_EXP; lia)) as Hmax.
  change (bpow 0) with 1 in Hmax.
  destruct (ld_round_pos x Hx) as [[-> _]|[_ Hinf]]; [|lra].
  eexists. split; [done|]. split; [apply round_unbounded_nonneg; lra|done].
Qed.

(** A real of at least 1 rounds to a number of at least 1, or to [+inf]. *)
Lemma ld_round_ge_1 x :
  1 <= x -> ld_round x = LPInf \/ exists u, ld_round x = LFin u /\ 1 <= u.
Proof.
  intros Hx. destruct (ld_round_pos x ltac:(lra)) as [[-> _]|[-> _]]; [right|by left].
  eexists. split; [done|].
  assert (0 < mag x)%Z as He by (apply mag_gt; change (bpow 0) with 1; lra).
  pose proof (round_unbounded_lower x ltac:(lra)
                ltac:(unfold ld_emin, LDBL_MAX_EXP, LDBL_MANT_DIG; lia)) as Hlo.
  pose proof (bpow_le 0 (mag x - 1) ltac:(lia)) as Hb.
  change (bpow 0) with 1 in Hb. lra.
Qed.

(** Between [2^k] and [2^16383] rounding stays finite and at least [2^k]. *)
Lemma ld_round_lower x k :
  (ld_emin <= k)%Z -> bpow k <= x -> x < bpow (LDBL_MAX_EXP - 1) ->
  exists a, ld_round x = LFin a /\ bpow k <= a.
Proof.
  intros Hk Hlo Hhi. pose proof (bpow_pos k) as Hpos.
  pose proof (mag_gt x k Hlo) as He.
  pose proof (mag_le x _ ltac:(lra) Hhi) as He'.
  pose proof (round_unbounded_lower x ltac:(lra) ltac:(lia)) as Hy.
  pose proof (round_unbounded_upper x ltac:(lra)) as Hy'.
  pose proof (bpow_le k (mag x - 1) ltac:(lia)).
  pose proof (bpow_le (mag x) (LDBL_MAX_EXP - 1) He').
  pose proof (bpow_lt (LDBL_MAX_EXP - 1) LDBL_MAX_EXP ltac:(lia)).
  destruct (ld_round_pos x ltac:(lra)) as [[-> _]|[_ Hinf]]; [|lra].
  eexists. split; [done|lra].
Qed.

(** Below [2^k] a positive real rounds to at most [2^k]. *)
Lemma ld_round_upper x k :
  (k < LDBL_MAX_EXP)%Z -> 0 < x -> x < bpow k ->
  exists t, ld_round x = LFin t /\ 0 <= t <= bpow k.
Proof.
  intros Hk Hx Hhi.
  pose proof (round_unbounded_upper x Hx) as Hy.
  pose proof (bpow_le (mag x) k (mag_le x k Hx Hhi)).
  pose proof (bpow_lt k LDBL_MAX_EXP Hk).
  destruct (ld_round_pos x Hx) as [[-> _]|[_ Hinf]]; [|lra].
  eexists. split; [done|]. split; [apply round_unbounded_nonneg; lra|lra].
Qed.

(** From [2^16384] on a real rounds to [+inf]. *)
Lemma ld_round_overflow x : bpow LDBL_MAX_EXP <= x -> ld_round x = LPInf.
Proof.
  intros Hx. pose proof (bpow_pos LDBL_MAX_EXP).
  pose proof (mag_gt x _ Hx) as He.
  pose proof (round_unbounded_lower x ltac:(lra)
                ltac:(unfold ld_emin, LDBL_MAX_EXP, LDBL_MANT_DIG in *; lia)) as Hlo.
  pose proof (bpow_le LDBL_MAX_EXP (mag x - 1) ltac:(lia)).
  destruct (ld_round_pos x ltac:(lra)) as [[_ Hfin]|[-> _]]; [lra|done].
Qed.

(** [1 + t] rounds to 1 when [t] is at most a quarter of the last place. *)
Lemma ld_round_1_plus t : 0 <= t <= bpow (-65) -> ld_round (1 + t) = LFin 1.
Proof.
  intros [Ht0 Ht].
  assert (bpow (-65) * bpow 63 = / 4) as Hq.
  { rewrite <- bpow_add. change (bpow (-65 + 63)) with (/ (2 * (2 * 1))). lra. }
  pose proof (bpow_pos 63) as H63.
  assert (0 <= t * bpow 63 <= / 4) as Htb.
  { rewrite <- Hq. split; [apply Rmult_le_pos; lra|].
    apply Rmult_le_compat_r; lra. }
  assert (mag (1 + t) = 1%Z) as He.
  { apply mag_unique. rewrite Rabs_pos_eq by lra.
    change (bpow (1 - 1)) with 1. change (bpow 1) with (2 * 1).
    pose proof (bpow_lt (-65) 0 ltac:(lia)) as Hb. change (bpow 0) with 1 in Hb. lra. }
  destruct (ld_round_pos (1 + t) ltac:(lra)) as [[-> _]|[_ Hinf]].
  - f_equal. unfold round_unbounded, ld_exponent. rewrite He.
    change (Z.max (1 - LDBL_MANT_DIG) ld_emin) with (-63)%Z.
    change (- -63)%Z with 63%Z.
    assert (Znearest ((1 + t) * bpow 63) = (2 ^ 63)%Z) as ->.
    { unfold Znearest.
      assert (Zfloor ((1 + t) * bpow 63) = (2 ^ 63)%Z) as ->.
      { apply Zfloor_eq. rewrite <- bpow_IZR by lia. lra. }
      rewrite <- bpow_IZR by lia.
      destruct (Rlt_dec _ _) as [|Hh]; [done|]. exfalso. apply Hh. lra. }
    rewrite <- bpow_IZR by lia. rewrite <- bpow_add. reflexivity.
  - exfalso. revert Hinf. unfold round_unbounded, ld_exponent. rewrite He.
    change (Z.max (1 - LDBL_MANT_DIG) ld_emin) with (-63)%Z.
    change (- -63)%Z with 63%Z.
    assert (Znearest ((1 + t) * bpow 63) <= 2 ^ 64)%Z as Hn.
    { apply Znearest_le. rewrite <- bpow_IZR by lia.
      change 64%Z with (1 + 63)%Z. rewrite bpow_add. change (bpow 1) with (2 * 1).
      pose proof (bpow_le 0 63 ltac:(lia)) as Hb. change (bpow 0) with 1 in Hb. lra. }
    apply IZR_le in Hn. rewrite <- bpow_IZR in Hn by lia.
    pose proof (bpow_lt 1 LDBL_MAX_EXP ltac:(unfold LDBL_MAX_EXP; lia)) as Hmax.
    pose proof (bpow_pos (-63)) as Hm.
    assert (bpow 64 * bpow (-63) = bpow 1) as Hprod by (by rewrite <- bpow_add).
    nra.
Qed.

End LongDoubleFacts.

Section SigmoidFacts.

Local Open Scope R_scope.

Variable expl : R -> ldouble.

(** [expl] of a finite number is a non-negative number or [+inf]. *)
Hypothesis expl_range : forall x, expl x = LPInf \/ exists t, expl x = LFin t /\ 0 <= t.

(** The divisor of [sigmoid] is at least 1, [+inf], or NaN for a NaN sum. *)
Lemma sigmoid_ld_divisor x :
  let d := ld_add (LFin 1) (ld_exp expl (ld_opp x)) in
  (x = LNaN /\ d = LNaN) \/ d = LPInf \/ exists u, d = LFin u /\ 1 <= u.
Proof.
  destruct x as [r| | |]; cbn [ld_opp ld_exp].
  - right. destruct (expl_range (- r)) as [->|(t & -> & Ht)]; [by left|].
    cbn [ld_add]. apply ld_round_ge_1. lra.
  - right. right. exists 1. split; [|lra]. cbn [ld_add].
    replace (1 + 0) with 1 by lra. exact (ld_round_IZR 1 ltac:(lia)).
  - right. by left.
  - by left.
Qed.

(** [sigmoid] in long double: NaN for a NaN sum, and otherwise a number of
    the closed interval [[0, 1]]. *)
Lemma sigmoid_ld_range x :
  (x = LNaN /\ sigmoid_ld expl x = LNaN)
  \/ exists p, sigmoid_ld expl x = LFin p /\ 0 <= p <= 1.
Proof.
  unfold sigmoid_ld.
  destruct (sigmoid_ld_divisor x) as [[-> ->]|[->|(u & -> & Hu)]].
  - by left.
  - right. exists 0. split; [done|lra].
  - right. cbn [ld_div]. destruct (Req_EM_T u 0) as [|_]; [lra|].
    apply ld_round_unit. split.
    + apply Rlt_le, Rdiv_lt_0_compat; lra.
    + apply (Rmult_le_reg_r u); [lra|]. unfold Rdiv. rewrite Rmult_assoc, Rinv_l by lra. lra.
Qed.

End SigmoidFacts.

Section LogArguments.

Local Open Scope R_scope.

Lemma bpow_m50 : bpow (-50) <= 1e-15 < bpow (-49).
Proof.
  replace (bpow (-50)) with (/ IZR (2 ^ 50))
    by (rewrite <- (bpow_IZR 50), <- bpow_opp by lia; reflexivity).
  replace (bpow (-49)) with (/ IZR (2 ^ 49))
    by (rewrite <- (bpow_IZR 49), <- bpow_opp by lia; reflexivity).
  change (2 ^ 50)%Z with 1125899906842624%Z. change (2 ^ 49)%Z with 562949953421312%Z.
  lra.
Qed.

(** The literal [1e-15L]. *)
Lemma ld_round_1em15 : exists c, ld_round 1e-15 = LFin c /\ bpow (-50) <= c <= bpow (-49).
Proof.
  destruct bpow_m50 as [Hlo Hhi]. pose proof (bpow_pos (-50)).
  destruct (ld_round_lower 1e-15 (-50)) as (a & Ha & Hla).
  { unfold ld_emin, LDBL_MAX_EXP, LDBL_MANT_DIG. lia. }
  { done. }
  { pose proof (bpow_lt (-49) (LDBL_MAX_EXP - 1) ltac:(unfold LDBL_MAX_EXP; lia)). lra. }
  destruct (ld_round_upper 1e-15 (-49)) as (t & Ht & Hlt).
  { unfold LDBL_MAX_EXP. lia. }
  { lra. }
  { done. }
  rewrite Ha in Ht. injection Ht as <-. exists a. split; [done|lra].
Qed.

(** Both arguments of [logl] are positive numbers for a [pred] in [[0, 1]]. *)
Lemma log_arguments_ld_pos p :
  0 <= p <= 1 ->
  exists a b, log_arguments_ld (LFin p) = (LFin a, LFin b) /\ 0 < a /\ 0 < b.
Proof.
  intros Hp. unfold log_arguments_ld.
  destruct ld_round_1em15 as (c & -> & Hc).
  pose proof (bpow_pos (-50)) as Hpos.
  pose proof (bpow_lt (-49) 0 ltac:(lia)) as H49. change (bpow 0) with 1 in H49.
  pose proof (bpow_lt 1 (LDBL_MAX_EXP - 1) ltac:(unfold LDBL_MAX_EXP; lia)) as Hmax.
  change (bpow 1) with (2 * 1) in Hmax.
  assert (forall d, 0 <= d <= 1 -> exists a, ld_round (d + c) = LFin a /\ 0 < a) as Hsum.
  { intros d Hd. destruct (ld_round_lower (d + c) (-50)) as (a & Ha & Hla).
    - unfold ld_emin, LDBL_MAX_EXP, LDBL_MANT_DIG. lia.
    - lra.
    - lra.
    - exists a. split; [done|lra]. }
  destruct (Hsum p Hp) as (a & Ha & Hapos).
  cbn [ld_sub ld_opp ld_add].
  destruct (ld_round_unit (1 + - p) ltac:(lra)) as (d & -> & Hd).
  destruct (Hsum d Hd) as (b & Hb & Hbpos).
  exists a, b. cbn [ld_add]. rewrite Ha, Hb. done.
Qed.

End LogArguments.

Section Saturation.

Local Open Scope R_scope.

Lemma exp_INR_mult n x : exp (INR n * x) = exp x ^ n.
Proof.
  induction n as [|n IH].
  - simpl. rewrite Rmult_0_l. apply exp_0.
  - rewrite S_INR, Rmult_plus_distr_r, Rmult_1_l, exp_plus, IH. simpl. ring.
Qed.

(** [e^50 > 2^65], from [e^(1/8) >= 9/8]. *)
Lemma exp_50_lower : bpow 65 < exp 50.
Proof.
  assert (exp 50 = exp (/ 8) ^ 400) as ->.
  { rewrite <- exp_INR_mult. f_equal. rewrite (INR_IZR_INZ 400).
    change (Z.of_nat 400) with 400%Z. lra. }
  assert ((1 + / 8) ^ 400 <= exp (/ 8) ^ 400) as Hpow.
  { apply pow_incr. pose proof (exp_ineq1_le (/ 8)). lra. }
  assert (bpow 65 * 8 ^ 400 < 9 ^ 400) as Hnum.
  { rewrite bpow_IZR by lia. rewrite !pow_IZR, <- mult_IZR. apply IZR_lt.
    vm_compute. reflexivity. }
  assert ((1 + / 8) ^ 400 * 8 ^ 400 = 9 ^ 400) as Hfrac.
  { rewrite <- Rpow_mult_distr. f_equal. lra. }
  assert (0 < 8 ^ 400) as Hpos by (apply pow_lt; lra).
  set (a := (1 + / 8) ^ 400) in *. set (b := 8 ^ 400) in *. set (c := 9 ^ 400) in *.
  apply Rlt_le_trans with (r2 := a); [|done].
  apply (Rmult_lt_reg_r b); [done|]. lra.
Qed.

(** [e^12000 >= 2^16384], from [e^(1/16) >= 17/16] and [e^8 >= 2^11]. *)
Lemma exp_12000_lower : bpow LDBL_MAX_EXP <= exp 12000.
Proof.
  assert (2 ^ 11 <= exp 8) as H8.
  { assert (exp 8 = exp (/ 16) ^ 128) as ->.
    { rewrite <- exp_INR_mult. f_equal. rewrite (INR_IZR_INZ 128).
      change (Z.of_nat 128) with 128%Z. lra. }
    assert ((1 + / 16) ^ 128 <= exp (/ 16) ^ 128) as Hpow.
    { apply pow_incr. pose proof (exp_ineq1_le (/ 16)). lra. }
    assert (2 ^ 11 * 16 ^ 128 < 17 ^ 128) as Hnum.
    { rewrite !pow_IZR, <- mult_IZR. apply IZR_lt. vm_compute. reflexivity. }
    assert ((1 + / 16) ^ 128 * 16 ^ 128 = 17 ^ 128) as Hfrac.
    { rewrite <- Rpow_mult_distr. f_equal. lra. }
    assert (0 < 16 ^ 128) as Hpos by (apply pow_lt; lra).
    set (a := (1 + / 16) ^ 128) in *. set (b := 16 ^ 128) in *.
    set (c := 17 ^ 128) in *. set (d := 2 ^ 11) in *.
    apply Rle_trans with (r2 := a); [|done].
    apply (Rmult_le_reg_r b); [done|]. lra. }
  assert (exp 12000 = exp 8 ^ 1500) as ->.
  { rewrite <- exp_INR_mult. f_equal. rewrite (INR_IZR_INZ 1500).
    change (Z.of_nat 1500) with 1500%Z. lra. }
  apply Rle_trans with (r2 := (2 ^ 11) ^ 1500).
  - rewrite <- pow_mult, pow_powerRZ. apply bpow_le. unfold LDBL_MAX_EXP. lia.
  - apply pow_incr. split; [apply pow_le; lra|done].
Qed.

(** [sigmoid(50)] is exactly 1 and [sigmoid(-12000)] exactly 0. *)
Lemma sigmoid_ld_50 : sigmoid_ld expl_rn (LFin 50) = LFin 1.
Proof.
  unfold sigmoid_ld, expl_rn. cbn [ld_opp ld_exp].
  destruct (ld_round_upper (exp (Ropp 50)) (-65)) as (t & -> & Ht).
  - unfold LDBL_MAX_EXP. lia.
  - apply exp_pos.
  - rewrite exp_Ropp. replace (bpow (-65)) with (/ bpow 65)
      by (rewrite <- bpow_opp; reflexivity).
    apply Rinv_lt_contravar; [|exact exp_50_lower].
    apply Rmult_lt_0_compat; [apply bpow_pos|apply exp_pos].
  - cbn [ld_add]. rewrite (ld_round_1_plus t Ht). cbn [ld_div].
    destruct (Req_EM_T 1 0) as [|_]; [lra|].
    replace (1 / 1) with 1 by lra. exact (ld_round_IZR 1 ltac:(lia)).
Qed.

Lemma sigmoid_ld_m12000 : sigmoid_ld expl_rn (LFin (-12000)) = LFin 0.
Proof.
  unfold sigmoid_ld, expl_rn. cbn [ld_opp ld_exp].
  replace (- -12000) with 12000 by lra.
  by rewrite (ld_round_overflow _ exp_12000_lower).
Qed.

End Saturation.

Section ConstantModel.

Local Open Scope R_scope.

Lemma nth_fmap_seq_ld (f : nat -> ldouble) n j :
  nth j (f <$> seq 0 n) (LFin 0) = if decide (j < n)%nat then f j else LFin 0.
Proof.
  rewrite nth_lookup, list_lookup_fmap. case_decide.
  - by rewrite lookup_seq_lt.
  - by rewrite lookup_seq_ge by lia.
Qed.

Lemma nth_zero_matrix rows cols i j :
  nth j (nth i (replicate rows (replicate cols 0)) []) 0 = 0.
Proof.
  rewrite (nth_lookup _ i). destruct (replicate rows _ !! i) as [row|] eqn:E.
  - apply lookup_replicate in E as [-> _]. simpl. apply nth_replicate_0.
  - simpl. by destruct j.
Qed.

Lemma ld_round_0 : ld_round 0 = LFin 0.
Proof. exact (ld_round_IZR 0 ltac:(lia)). Qed.

(** A sum of zero terms leaves a bias that is a long double as it is. *)
Lemma weighted_sum_ld_zero bias n term :
  ld_round bias = LFin bias -> (forall i, term i = LFin 0) ->
  weighted_sum_ld (LFin bias) n term = LFin bias.
Proof.
  intros Hb Hterm. unfold weighted_sum_ld. generalize 0%nat.
  induction n as [|n IH]; intros start; [done|].
  cbn [seq fold_left]. rewrite Hterm. cbn [ld_add].
  rewrite Rplus_0_r, Hb. apply IH.
Qed.

Lemma tanhl_rn_0 : tanhl_rn 0 = LFin 0.
Proof.
  unfold tanhl_rn. replace (tanh 0) with 0; [exact ld_round_0|].
  unfold tanh. rewrite sinh_0. lra.
Qed.

(** With zero weights the output is the sigmoid of the output bias. *)
Lemma predict_ld_constant_model bias inp :
  ld_round bias = LFin bias ->
  predict_ld expl_rn tanhl_rn (constant_model bias) inp = sigmoid_ld expl_rn (LFin bias).
Proof.
  intros Hb. unfold predict_ld, forward_ld. cbn [snd fst].
  change (seq 0 OUTPUT_SIZE) with [0%nat]. cbn [fmap list_fmap nth].
  f_equal. cbn [b3 constant_model nth]. apply weighted_sum_ld_zero; [done|].
  intros j. cbn [w3 constant_model]. rewrite nth_zero_matrix.
  rewrite nth_fmap_seq_ld.
  assert (forall j',
    ld_tanh tanhl_rn
      (weighted_sum_ld (LFin (nth j' (b2 (constant_model bias)) 0)) HIDDEN_1_SIZE
         (fun i =>
            ld_mul
              (nth i
                 ((fun j0 =>
                     ld_tanh tanhl_rn
                       (weighted_sum_ld (LFin (nth j0 (b1 (constant_model bias)) 0))
                          INPUT_SIZE
                          (fun i0 =>
                             ld_mul (LFin (nth i0 inp 0))
                               (LFin (nth j0 (nth i0 (w1 (constant_model bias)) []) 0)))))
                    <$> seq 0 HIDDEN_1_SIZE) (LFin 0))
              (LFin (nth j' (nth i (w2 (constant_model bias)) []) 0))))
    = LFin 0) as Hh2.
  { intros j'. cbn [b2 b1 w1 w2 constant_model]. rewrite nth_replicate_0.
    rewrite weighted_sum_ld_zero; [exact tanhl_rn_0|exact ld_round_0|].
    intros i. rewrite nth_zero_matrix, nth_fmap_seq_ld.
    case_decide; cbn [ld_mul]; [|by rewrite Rmult_0_r, ld_round_0].
    rewrite nth_replicate_0.
    rewrite weighted_sum_ld_zero; [|exact ld_round_0|].
    - cbn [ld_tanh]. rewrite tanhl_rn_0. cbn [ld_mul]. by rewrite Rmult_0_r, ld_round_0.
    - intros i0. rewrite nth_zero_matrix. cbn [ld_mul].
      by rewrite Rmult_0_r, ld_round_0. }
  case_decide.
  - rewrite Hh2. cbn [ld_mul]. by rewrite Rmult_0_r, ld_round_0.
  - cbn [ld_mul]. by rewrite Rmult_0_r, ld_round_0.
Qed.

End ConstantModel.

Lemma expl_rn_range (x : R) :
  expl_rn x = LPInf \/ exists t, expl_rn x = LFin t /\ (0 <= t)%R.
Proof. apply ld_round_nonneg. left. apply exp_pos. Qed.




(** ** Mirrored pairs before the first training step *)

Section MirroredLoss.

Local Open Scope R_scope.

Lemma column_sum_shift rows j a :
  fold_left (fun sum row => sum + nth j row 0) rows a = a + column_sum rows j.
Proof.
  unfold column_sum. revert a. induction rows as [|row rows IH]; intros a; simpl.
  - ring.
  - rewrite IH, (IH (0 + _)). ring.
Qed.

Lemma column_sum_app rows rows' j :
  column_sum (rows ++ rows') j = column_sum rows j + column_sum rows' j.
Proof. unfold column_sum at 1. by rewrite fold_left_app, column_sum_shift. Qed.

Lemma column_sum_cons row rows j :
  column_sum (row :: rows) j = nth j row 0 + column_sum rows j.
Proof.
  unfold column_sum at 1. simpl. rewrite column_sum_shift. ring.
Qed.

Lemma column_sum_opp (rows : list (list R)) j :
  column_sum (fmap (M:=list) Ropp <$> rows) j = - column_sum rows j.
Proof.
  induction rows as [|row rows IH].
  - unfold column_sum. simpl. ring.
  - rewrite fmap_cons, !column_sum_cons, IH, nth_fmap_opp. ring.
Qed.

(** The statistics of a mirrored sample matrix have mean zero. *)
Lemma normalization_mean_mirrored (rows : list (list R)) count j :
  normalization_mean (rows ++ (fmap (M:=list) Ropp <$> rows)) count j = 0.
Proof.
  unfold normalization_mean. rewrite column_sum_app, column_sum_opp.
  unfold Rdiv. ring.
Qed.

Lemma normalize_features_opp features m :
  (forall j, nth j (feat_mean m) 0 = 0) ->
  normalize_features (Ropp <$> features) m = Ropp <$> normalize_features features m.
Proof.
  intros Hmean. unfold normalize_features. rewrite <- list_fmap_compose.
  apply list_fmap_ext. intros _ i _. simpl.
  rewrite nth_fmap_opp, Hmean. unfold Rdiv. ring.
Qed.

Lemma cross_entropy_mirrored pred target :
  cross_entropy (1 - pred) (1 - target) = cross_entropy pred target.
Proof.
  unfold cross_entropy.
  replace (1 - (1 - pred) + 1e-15) with (pred + 1e-15) by ring. ring.
Qed.

(** The buffer filled by [augment] is the train base followed by its
    negated copy. *)
Lemma augment_rows (B : nat) raw_features labels aug_raw0 aug_labels0 :
  (B <= length raw_features)%nat -> (B <= length labels)%nat ->
  length aug_raw0 = (2 * B)%nat -> length aug_labels0 = (2 * B)%nat ->
  (augment B raw_features labels aug_raw0 aug_labels0).1
  = take B raw_features ++ (fmap (M:=list) Ropp <$> take B raw_features).
Proof.
  intros Hraw Hlab Ha Hl.
  destruct (augment_prefix B raw_features labels aug_raw0 aug_labels0 B)
    as (Hlen & _ & Hrows); try done.
  fold (augment B raw_features labels aug_raw0 aug_labels0) in Hlen, Hrows.
  apply list_eq. intros i.
  destruct (decide (i < B)%nat) as [Hi|Hi].
  - destruct (Hrows i Hi) as (-> & _).
    rewrite lookup_app_l by (rewrite length_take; lia).
    by rewrite lookup_take_lt.
  - destruct (decide (i < 2 * B)%nat) as [Hi2|Hi2].
    + replace i with ((i - B) + B)%nat at 1 by lia.
      destruct (Hrows (i - B)%nat) as (_ & -> & _); [lia|].
      rewrite lookup_app_r by (rewrite length_take; lia).
      rewrite length_take, Nat.min_l by lia.
      by rewrite list_lookup_fmap, lookup_take_lt by lia.
    + rewrite !lookup_ge_None_2; [done| |lia].
      rewrite length_app, length_fmap, length_take. lia.
Qed.

End MirroredLoss.

(** C4.  For a freshly initialised network (zero biases, weights drawn from
    any [rand] sequence, no backward step yet) whose normalisation statistics
    are computed from the mirrored augmented set: every feature mean is 0;
    the output on a negated raw vector is one minus the output on the vector;
    and for every augmented pair, sample [i] and its twin [i + B] (negated
    features, complemented label) contribute the same cross-entropy term
    (exact real arithmetic). *)
Theorem mirrored_pair_equal_loss (RAND_MAX : Z) (rand : nat -> Z) (B : nat)
    (raw_features : list (list R)) (labels : list R)
    (aug_raw0 : list (list R)) (aug_labels0 : list R) :
  (1 <= B)%nat ->
  (B <= length raw_features)%nat -> (B <= length labels)%nat ->
  length aug_raw0 = (2 * B)%nat -> length aug_labels0 = (2 * B)%nat ->
  let aug := augment B raw_features labels aug_raw0 aug_labels0 in
  let m := compute_normalization aug.1 (2 * B) (init_model RAND_MAX rand) in
  let loss x y := cross_entropy (predict m (normalize_features x m)) y in
  (forall j, nth j (feat_mean m) 0%R = 0%R)
  /\ (forall x, predict m (normalize_features (Ropp <$> x) m)
                = (1 - predict m (normalize_features x m))%R)
  /\ (forall i x y,
        (i < B)%nat -> aug.1 !! i = Some x -> aug.2 !! i = Some y ->
        aug.1 !! (i + B)%nat = Some (Ropp <$> x)
        /\ aug.2 !! (i + B)%nat = Some (1 - y)%R
        /\ loss (Ropp <$> x) (1 - y)%R = loss x y).
Proof.
  intros HB Hraw Hlab Ha Hl aug m loss.
  assert (forall j, nth j (feat_mean m) 0%R = 0%R) as Hmean.
  { intros j. unfold m. rewrite feat_mean_compute_normalization.
    case_decide; [|done]. unfold aug. rewrite augment_rows by done.
    rewrite take_ge by (rewrite length_app, length_fmap, length_take; lia).
    apply normalization_mean_mirrored. }
  assert (forall x, predict m (normalize_features (Ropp <$> x) m)
                    = (1 - predict m (normalize_features x m))%R) as Hodd.
  { intros x. rewrite normalize_features_opp by done.
    apply predict_opp. apply (init_model_zero_biases RAND_MAX rand). }
  split; [done|]. split; [done|].
  intros i x y Hi Hx Hy.
  destruct (augment_prefix B raw_features labels aug_raw0 aug_labels0 B)
    as (_ & _ & Hrows); try done.
  destruct (Hrows i Hi) as (H1 & H2 & H3 & H4).
  fold (augment B raw_features labels aug_raw0 aug_labels0) in H1, H2, H3, H4.
  fold aug in H1, H2, H3, H4.
  rewrite H2, H4, <- H1, <- H3, Hx, Hy. split; [done|]. split; [done|].
  unfold loss. rewrite Hodd. apply cross_entropy_mirrored.
Qed.

Lemma mirrored_pair_equal_loss_witness :
  (1 <= 1)%nat /\ (1 <= length two_rows)%nat
  /\ forall j,
       nth j (feat_mean
                (compute_normalization
                   (augment 1 two_rows [1%R; 0%R] [[]; []] [0%R; 0%R]).1 (2 * 1)
                   (init_model 2147483647 (fun n => Z.of_nat n)))) 0%R = 0%R.
Proof.
  assert (1 <= 1)%nat as H1 by lia.
  assert (1 <= length two_rows)%nat as H2 by (simpl; lia).
  assert (1 <= length [1%R; 0%R])%nat as H3 by (simpl; lia).
  split; [exact H1|]. split; [exact H2|].
  exact (proj1 (mirrored_pair_equal_loss 2147483647 (fun n => Z.of_nat n) 1 two_rows
                  [1%R; 0%R] [[]; []] [0%R; 0%R] H1 H2 H3 eq_refl eq_refl)).
Defined.

(** ** Future-matchup mode *)

Section FutureMode.

Local Open Scope R_scope.

Lemma nth_scale_feature k c (l : list R) i :
  nth i (scale_feature k c l) 0
  = if decide (k = i) then nth i l 0 * c else nth i l 0.
Proof.
  unfold scale_feature. rewrite !nth_lookup, list_lookup_alter.
  case_decide; [subst|done]. destruct (l !! i); simpl; [done|ring].
Qed.

Lemma nth_damp_future_features features i :
  nth i (damp_future_features features) 0 = nth i features 0 * future_scale i.
Proof.
  unfold damp_future_features. rewrite !nth_scale_feature.
  unfold future_scale, FEAT_H2H_DELTA, FEAT_WEIGHTED_SCORE_DELTA,
    FEAT_TOTAL_FIGHTS_DELTA, FEAT_TOTAL_WINS_DELTA, FEAT_WIN_RATE_DELTA.
  set (x := nth i features 0). clearbody x.
  do 20 (destruct i as [|i]; [vm_compute decide; vm_compute bool_decide; lra|]).
  rewrite !decide_False by lia. rewrite !bool_decide_eq_false_2 by lia. lra.
Qed.

Lemma clamp_probability_range p :
  1e-12 <= clamp_probability p <= 1 - 1e-12.
Proof.
  unfold clamp_probability, Rmin, Rmax.
  repeat destruct (Rle_dec _ _); lra.
Qed.

Lemma clamp_probability_monotone p q :
  p <= q -> clamp_probability p <= clamp_probability q.
Proof.
  intros Hpq. unfold clamp_probability, Rmin, Rmax.
  repeat destruct (Rle_dec _ _); lra.
Qed.

Lemma logit_monotone a b : 0 < a -> a <= b -> b < 1 -> logit a <= logit b.
Proof.
  intros Ha Hab Hb. unfold logit.
  assert (a / (1 - a) <= b / (1 - b)) as Hratio.
  { unfold Rdiv. apply Rmult_le_compat; [lra| |lra|].
    - left. apply Rinv_0_lt_compat. lra.
    - apply Rinv_le_contravar; lra. }
  assert (0 < a / (1 - a)) by (apply Rdiv_lt_0_compat; lra).
  destruct Hratio as [Hlt | ->]; [|lra].
  left. by apply ln_increasing.
Qed.

Lemma recalibrate_monotone p q : p <= q -> recalibrate p <= recalibrate q.
Proof.
  intros Hpq. unfold recalibrate. apply sigmoid_monotone.
  pose proof (clamp_probability_range p). pose proof (clamp_probability_range q).
  pose proof (clamp_probability_monotone p q Hpq).
  assert (logit (clamp_probability p) <= logit (clamp_probability q))
    by (apply logit_monotone; lra).
  lra.
Qed.

Lemma recalibrate_half : recalibrate (1 / 2) = 1 / 2.
Proof.
  unfold recalibrate.
  assert (clamp_probability (1 / 2) = 1 / 2) as ->.
  { unfold clamp_probability, Rmin, Rmax. repeat destruct (Rle_dec _ _); lra. }
  unfold logit. replace (1 / 2 / (1 - 1 / 2)) with 1 by field.
  rewrite ln_1. replace (0 / 4) with 0 by field. apply sigmoid_0.
Qed.

(** The code's clamp-and-rescale at temperature 4 is [recalibrate]. *)
Lemma temperature_scale_recalibrate p :
  temperature_scale_probability p 4.0 = recalibrate p.
Proof.
  unfold temperature_scale_probability, recalibrate, logit, clamp_probability,
    Rmin, Rmax.
  destruct (Rle_dec 4.0 1.0) as [Hle|_]; [lra|].
  replace 4.0 with 4 by lra. replace 1.0 with 1 by lra.
  destruct (Rlt_dec p 1e-12), (Rle_dec p 1e-12);
    repeat destruct (Rgt_dec _ _); repeat destruct (Rle_dec _ _);
    try lra; try reflexivity.
  all: assert (p = 1e-12) as -> by lra; reflexivity || lra.
Qed.

End FutureMode.

(** C9.  A prediction is reported from the feature vector computed for the
    query.  In future-matchup mode the four historical-context deltas are
    multiplied by 0.20 and the head-to-head bias by 0.05 (every other feature
    is kept) before normalisation, and the raw output [p] is replaced by
    [sigmoid (logit (clamp p) / 4)], a monotone map with fixed point 1/2; in
    historical mode the features and the raw output are used unchanged. *)
Theorem future_mode_damping (realloc : Z -> ReallocResult) (m : Model)
    (fight : UFCFight) (ctx : MatchContext) (features : list R) :
  let p_future := predict m (normalize_features (damp_future_features features) m) in
  let p_historical := predict m (normalize_features features m) in
  ((forall future_mode,
       predict_query realloc m fight ctx future_mode
       = (fun computed => report_prediction m computed.1 future_mode)
           <$> compute_features realloc fight ctx)
   /\ (forall i, nth i (damp_future_features features) 0
                 = nth i features 0 * future_scale i)
   /\ report_prediction m features true
      = (recalibrate p_future, 1 - recalibrate p_future)
   /\ report_prediction m features false = (p_historical, 1 - p_historical)
   /\ (forall p q, p <= q -> recalibrate p <= recalibrate q)
   /\ recalibrate (1 / 2) = 1 / 2)%R.
Proof.
  intros p_future p_historical.
  split.
  { intros future_mode. unfold predict_query.
    by destruct (compute_features realloc fight ctx) as [[computed ctx']|]. }
  split; [apply nth_damp_future_features|].
  split; [|split; [|split; [apply recalibrate_monotone|apply recalibrate_half]]].
  - unfold report_prediction. cbv zeta. fold p_future.
    rewrite temperature_scale_recalibrate. f_equal. lra.
  - unfold report_prediction. cbv zeta. fold p_historical.
    f_equal. lra.
Qed.

(** ** Early stopping *)

Section EpochLoopFacts.

Variable val_acc : nat -> Q.
Variable keep_running : nat -> bool.

(** The loop run from the start equals the loop resumed at the head of any
    epoch it reaches. *)
Lemma epoch_loop_resume n fuel best no_improve :
  state_before val_acc keep_running n = Some (best, no_improve) ->
  epoch_loop val_acc keep_running (n + fuel) 0 0 0
  = epoch_loop val_acc keep_running fuel n best no_improve.
Proof.
  revert fuel best no_improve.
  induction n as [|k IH]; intros fuel best no_improve Hstate; simpl in Hstate.
  - by injection Hstate as <- <-.
  - destruct (state_before val_acc keep_running k) as [[b ni]|] eqn:Hk; [|done].
    destruct (keep_running k) eqn:Hkeep; [|done].
    replace (S k + fuel)%nat with (k + S fuel)%nat by lia.
    rewrite (IH (S fuel) b ni eq_refl). simpl. by rewrite Hkeep, Hstate.
Qed.

(** [d] more epochs without improvement exhaust the patience window. *)
Lemma epoch_loop_plateau d fuel epoch best no_improve :
  no_improve + Z.of_nat (S d) = patience ->
  (S d <= fuel)%nat ->
  (forall e, (epoch <= e < epoch + S d)%nat ->
             keep_running e = true /\ (val_acc e <= best)%Q) ->
  epoch_loop val_acc keep_running fuel epoch best no_improve
  = {| epochs_completed := epoch + S d; loop_exit := EarlyStop;
       best_val_acc := best |}.
Proof.
  revert fuel epoch no_improve.
  induction d as [|d IH]; intros fuel epoch no_improve Hni Hfuel Hrun;
    (destruct fuel as [|fuel]; [lia|]); simpl;
    destruct (Hrun epoch) as [-> Hle]; try lia;
    unfold early_stopping_step;
    apply Qle_bool_iff in Hle; rewrite Hle; simpl.
  - replace (no_improve + 1 >=? patience) with true by lia.
    f_equal. lia.
  - replace (no_improve + 1 >=? patience) with false by lia.
    rewrite IH; [f_equal; lia|lia|lia|].
    intros e He. apply Hrun. lia.
Qed.

End EpochLoopFacts.

(** C6.  When the epoch loop reaches epoch [bestEpoch] with a best accuracy
    that epoch [bestEpoch] strictly improves, every one of the next 50 epochs
    has a validation accuracy less than or equal to it (equal counts as no
    improvement), [bestEpoch + 50 < 500] and the run is not cancelled, then
    the loop breaks right after completing epoch [bestEpoch + 50]. *)
Theorem early_stopping_halts (val_acc : nat -> Q) (keep_running : nat -> bool)
    (bestEpoch : nat) (best : Q) (no_improve : Z) :
  (bestEpoch + 50 < max_epochs)%nat ->
  (forall e, (e <= bestEpoch + 50)%nat -> keep_running e = true) ->
  state_before val_acc keep_running bestEpoch = Some (best, no_improve) ->
  (best < val_acc bestEpoch)%Q ->
  (forall e, (bestEpoch < e <= bestEpoch + 50)%nat ->
             (val_acc e <= val_acc bestEpoch)%Q) ->
  train_epochs val_acc keep_running
  = {| epochs_completed := S (bestEpoch + 50); loop_exit := EarlyStop;
       best_val_acc := val_acc bestEpoch |}.
Proof.
  intros Hmax Hkeep Hstate Himprove Hlater. unfold train_epochs.
  assert (max_epochs = bestEpoch + S (max_epochs - S bestEpoch))%nat as ->
    by (unfold max_epochs in *; lia).
  rewrite (epoch_loop_resume _ _ _ _ _ _ Hstate). simpl epoch_loop.
  rewrite Hkeep by lia. unfold early_stopping_step.
  destruct (Qle_bool (val_acc bestEpoch) best) eqn:Hle.
  - apply Qle_bool_iff in Hle. by apply Qlt_not_le in Himprove.
  - simpl. unfold max_epochs in Hmax.
    rewrite (epoch_loop_plateau _ _ 49); [f_equal; lia|done|lia|].
    intros e He. split; [apply Hkeep|apply Hlater]; lia.
Qed.

Lemma early_stopping_halts_witness :
  epochs_completed (train_epochs plateau_after_3 (fun _ => true)) = 54%nat
  /\ loop_exit (train_epochs plateau_after_3 (fun _ => true)) = EarlyStop.
Proof.
  assert (3 + 50 < max_epochs)%nat as H1 by (unfold max_epochs; lia).
  assert (forall e, (e <= 3 + 50)%nat -> (fun _ : nat => true) e = true) as H2 by done.
  assert (state_before plateau_after_3 (fun _ => true) 3 = Some (1 # 2, 2)) as H3
    by reflexivity.
  assert (1 # 2 < plateau_after_3 3)%Q as H4 by reflexivity.
  assert (forall e, (3 < e <= 3 + 50)%nat ->
                    (plateau_after_3 e <= plateau_after_3 3)%Q) as H5.
  { intros e He. unfold plateau_after_3.
    destruct (e =? 3)%nat eqn:E; [apply Nat.eqb_eq in E; lia|].
    simpl. unfold Qle. simpl. lia. }
  rewrite (early_stopping_halts plateau_after_3 (fun _ => true) 3 (1 # 2) 2
             H1 H2 H3 H4 H5).
  split; reflexivity.
Defined.

(** ** Persistence *)

Lemma sizeof_Model_value : sizeof_Model = 112512.
Proof. reflexivity. Qed.

Lemma load_model_small m path (fs : FileSystem) content :
  fs !! path = Some content ->
  Z.of_nat (length content) < sizeof_Model ->
  load_model m path fs = (-1, m).
Proof.
  intros Hfile Hsz. unfold load_model. rewrite Hfile.
  by rewrite (proj2 (Z.ltb_lt _ _) Hsz).
Qed.

Lemma load_model_large m path (fs : FileSystem) content :
  fs !! path = Some content ->
  sizeof_Model <= Z.of_nat (length content) ->
  load_model m path fs = (0, take (Z.to_nat sizeof_Model) content).
Proof.
  intros Hfile Hsz. unfold load_model. rewrite Hfile.
  by rewrite (proj2 (Z.ltb_ge _ _) Hsz).
Qed.




(** ** Threshold search *)

Section ThresholdSearchFacts.

Local Open Scope Q_scope.

Lemma keep_max_fold (f g : Z -> Q) (l : list Z) (best0 : Q * Q) :
  let r := fold_left (keep_max f g) l best0 in
  (r = best0 /\ forall s, s ∈ l -> f s <= best0.2)
  \/ (exists l1 s l2,
         l = (l1 ++ s :: l2)%list /\ r = (g s, f s) /\ best0.2 < f s
         /\ (forall s', s' ∈ l1 -> f s' < f s)
         /\ (forall s', s' ∈ l2 -> f s' <= f s)).
Proof.
  revert best0. induction l as [|s l IH]; intros best0; simpl.
  - left. split; [done|]. intros s Hs. by apply elem_of_nil in Hs.
  - destruct (Qle_bool (f s) best0.2) eqn:Hle.
    + assert (keep_max f g best0 s = best0) as ->
        by (unfold keep_max; by rewrite Hle).
      apply Qle_bool_iff in Hle.
      destruct (IH best0) as [[Hr Hall]|(l1 & s1 & l2 & El & Hr & Hlt & H1 & H2)].
      * left. split; [done|]. intros s' [->|Hs']%elem_of_cons; auto.
      * right. exists (s :: l1), s1, l2. subst l. repeat split; try done.
        intros s' [->|Hs']%elem_of_cons; [lra|auto].
    + assert (keep_max f g best0 s = (g s, f s)) as ->
        by (unfold keep_max; by rewrite Hle).
      assert (best0.2 < f s) as Hlt.
      { apply Qnot_le_lt. intros H. apply Qle_bool_iff in H. congruence. }
      destruct (IH (g s, f s))
        as [[Hr Hall]|(l1 & s1 & l2 & El & Hr & Hlt' & H1 & H2)]; simpl in *.
      * right. exists [], s, l. repeat split; try done.
        intros s' Hs'. by apply elem_of_nil in Hs'.
      * right. exists (s :: l1), s1, l2. subst l. repeat split; try done; [lra|].
        intros s' [->|Hs']%elem_of_cons; [lra|auto].
Qed.

Lemma count_sample_nonneg t c sample :
  counts_nonneg c -> counts_nonneg (count_sample t c sample).
Proof.
  unfold counts_nonneg, count_sample. intros H.
  repeat case_match; simpl; lia.
Qed.

Lemma fold_count_nonneg t samples c :
  counts_nonneg c -> counts_nonneg (fold_left (count_sample t) samples c).
Proof.
  revert c. induction samples as [|x samples IH]; intros c Hc; simpl; [done|].
  by apply IH, count_sample_nonneg.
Qed.

Lemma confusion_at_nonneg t samples : counts_nonneg (confusion_at t samples).
Proof. apply fold_count_nonneg. unfold counts_nonneg; simpl; lia. Qed.

Lemma rate_range num other :
  (0 <= num)%Z -> (0 <= other)%Z -> 0 <= rate num (num + other) <= 1.
Proof.
  intros Hn Ho. unfold rate. destruct (num + other >? 0)%Z eqn:Hden; [|lra].
  assert (0 < inject_Z (num + other)) as Hpos.
  { replace 0 with (inject_Z 0) by done. rewrite <- Zlt_Qlt. lia. }
  assert (0 <= inject_Z num) as Hnum.
  { replace 0 with (inject_Z 0) by done. rewrite <- Zle_Qle. lia. }
  assert (inject_Z num <= inject_Z (num + other)) as Hle
    by (rewrite <- Zle_Qle; lia).
  split.
  - apply Qle_shift_div_l; [done|]. lra.
  - apply Qle_shift_div_r; [done|]. lra.
Qed.

Lemma rate_all num : (0 < num)%Z -> rate num (num + 0) == 1.
Proof.
  intros Hn. unfold rate. rewrite Z.add_0_r.
  replace (num >? 0)%Z with true by lia.
  apply Qmult_inv_r. intros H.
  assert (inject_Z 0 < inject_Z num) as Hlt by (rewrite <- Zlt_Qlt; lia).
  change (inject_Z 0) with 0 in Hlt. lra.
Qed.

Lemma bal_acc_range t samples : 0 <= bal_acc t samples <= 1.
Proof.
  unfold bal_acc. destruct (confusion_at_nonneg t samples) as (H1 & H2 & H3 & H4).
  pose proof (rate_range _ _ H1 H4). pose proof (rate_range _ _ H2 H3).
  lra.
Qed.

Lemma separated_counts t samples c :
  separates t samples ->
  let c' := fold_left (count_sample t) samples c in
  (stp c' = stp c + class_count 1 samples
   /\ stn c' = stn c + class_count 0 samples
   /\ sfp c' = sfp c /\ sfn c' = sfn c)%Z.
Proof.
  intros Hsep. revert c. induction Hsep as [|[p y] samples Hx _ IH]; intros c.
  - unfold class_count; simpl. lia.
  - simpl. destruct (IH (count_sample t c (p, y))) as (E1 & E2 & E3 & E4).
    rewrite E1, E2, E3, E4. unfold class_count, count_sample, pred_class; simpl.
    simpl in Hx. destruct Hx as [[-> Hp]|[-> Hp]]; simpl in *.
    + apply Qle_bool_iff in Hp. rewrite Hp. simpl. lia.
    + assert (Qle_bool t p = false) as ->.
      { destruct (Qle_bool t p) eqn:E; [|done].
        apply Qle_bool_iff in E. lra. }
      simpl. lia.
Qed.

Lemma bal_acc_separated t samples :
  separates t samples ->
  (0 < class_count 1 samples)%Z -> (0 < class_count 0 samples)%Z ->
  bal_acc t samples == 1.
Proof.
  intros Hsep Hpos Hneg. unfold bal_acc, confusion_at.
  destruct (separated_counts t samples
              {| stp := 0; stn := 0; sfp := 0; sfn := 0 |} Hsep)
    as (-> & -> & -> & ->). simpl.
  rewrite !rate_all by done. lra.
Qed.

(** A split of the grid: what comes before the pivot is smaller, what
    comes after is larger. *)
Lemma seqZ_split m n (l1 : list Z) s l2 :
  seqZ m n = (l1 ++ s :: l2)%list ->
  (m <= s < m + n)%Z
  /\ (forall x, x ∈ l1 -> (m <= x < s)%Z)
  /\ (forall x, x ∈ l2 -> (s < x < m + n)%Z).
Proof.
  intros Hsplit.
  assert (forall i x, (l1 ++ s :: l2)%list !! i = Some x ->
                      x = (m + Z.of_nat i)%Z /\ (Z.of_nat i < n)%Z) as Hidx.
  { intros i x Hx. rewrite <- Hsplit in Hx. by apply lookup_seqZ in Hx. }
  destruct (Hidx (length l1) s) as [Hs Hn]; [by apply list_lookup_middle|].
  split; [lia|]. split.
  - intros x [i Hi]%list_elem_of_lookup_1.
    pose proof (lookup_lt_Some _ _ _ Hi) as Hlt.
    destruct (Hidx i x) as [-> _]; [by apply lookup_app_l_Some|]. lia.
  - intros x [i Hi]%list_elem_of_lookup_1.
    destruct (Hidx (length l1 + S i)%nat x) as [-> Hb]; [|lia].
    rewrite lookup_app_r by lia.
    by replace (length l1 + S i - length l1)%nat with (S i) by lia.
Qed.

Lemma threshold_search_keep_max samples :
  threshold_search samples
  = fold_left (keep_max (fun s => bal_acc (grid_threshold s) samples) grid_threshold)
              (seqZ 20 61) (1 # 2, - (1)).
Proof. reflexivity. Qed.

(** The grid search returns the first candidate of maximal balanced
    accuracy. *)
Lemma threshold_search_first_max samples :
  exists step,
    (20 <= step <= 80)%Z
    /\ threshold_search samples
       = (grid_threshold step, bal_acc (grid_threshold step) samples)
    /\ (forall step', (20 <= step' <= 80)%Z ->
           bal_acc (grid_threshold step') samples
           <= bal_acc (grid_threshold step) samples)
    /\ (forall step', (20 <= step' < step)%Z ->
           bal_acc (grid_threshold step') samples
           < bal_acc (grid_threshold step) samples).
Proof.
  rewrite threshold_search_keep_max.
  set (f := fun s => bal_acc (grid_threshold s) samples).
  destruct (keep_max_fold f grid_threshold (seqZ 20 61) (1 # 2, - (1)))
    as [[_ Hall]|(l1 & s & l2 & Hsplit & Hr & _ & H1 & H2)].
  - exfalso. specialize (Hall 20%Z). simpl in Hall.
    pose proof (bal_acc_range (grid_threshold 20) samples) as [Hge _].
    assert (f 20%Z <= - (1)) as Hle by (apply Hall, elem_of_seqZ; lia).
    unfold f in Hle. lra.
  - destruct (seqZ_split _ _ _ _ _ Hsplit) as (Hs & Hl1 & Hl2).
    exists s. split; [lia|]. split; [exact Hr|]. split.
    + intros step' Hstep'.
      assert (step' ∈ seqZ 20 61) as Hin by (apply elem_of_seqZ; lia).
      rewrite Hsplit in Hin.
      apply elem_of_app in Hin as [Hin|[->|Hin]%elem_of_cons].
      * specialize (H1 _ Hin). unfold f in H1. lra.
      * lra.
      * apply (H2 _ Hin).
    + intros step' Hstep'.
      assert (step' ∈ seqZ 20 61) as Hin by (apply elem_of_seqZ; lia).
      rewrite Hsplit in Hin.
      apply elem_of_app in Hin as [Hin|[->|Hin]%elem_of_cons].
      * apply (H1 _ Hin).
      * lia.
      * specialize (Hl2 _ Hin). lia.
Qed.

(** The error counters never decrease. *)
Lemma count_sample_errors_mono t c sample :
  (sfp c <= sfp (count_sample t c sample)
   /\ sfn c <= sfn (count_sample t c sample))%Z.
Proof. unfold count_sample. repeat case_match; simpl; lia. Qed.

Lemma fold_count_errors_mono t samples c :
  (sfp c <= sfp (fold_left (count_sample t) samples c)
   /\ sfn c <= sfn (fold_left (count_sample t) samples c))%Z.
Proof.
  revert c. induction samples as [|x samples IH]; intros c; simpl; [lia|].
  pose proof (IH (count_sample t c x)).
  pose proof (count_sample_errors_mono t c x). lia.
Qed.

(** No false positive and no false negative: the threshold separates. *)
Lemma no_errors_separates t samples c :
  Forall (fun sample => sample.2 = 1%Z \/ sample.2 = 0%Z) samples ->
  sfp (fold_left (count_sample t) samples c) = sfp c ->
  sfn (fold_left (count_sample t) samples c) = sfn c ->
  separates t samples.
Proof.
  intros Hlab. revert c.
  induction Hlab as [|[p y] samples Hy _ IH]; intros c Hfp Hfn; [constructor|].
  simpl in Hfp, Hfn, Hy.
  pose proof (fold_count_errors_mono t samples (count_sample t c (p, y))) as [M1 M2].
  pose proof (count_sample_errors_mono t c (p, y)) as [M3 M4].
  constructor; [|apply (IH (count_sample t c (p, y))); lia].
  assert (sfp (count_sample t c (p, y)) = sfp c) as E1 by lia.
  assert (sfn (count_sample t c (p, y)) = sfn c) as E2 by lia.
  unfold count_sample, pred_class in E1, E2. simpl in *.
  destruct (Qle_bool t p) eqn:Hle.
  - left. destruct Hy as [->| ->]; simpl in *; [|lia].
    split; [done|]. by apply Qle_bool_iff.
  - right. destruct Hy as [->| ->]; simpl in *; [lia|].
    split; [done|]. apply Qnot_le_lt. intros H.
    apply Qle_bool_iff in H. congruence.
Qed.

Lemma rate_one num other :
  (0 <= num)%Z -> (0 <= other)%Z -> rate num (num + other) == 1 ->
  (other = 0 /\ 0 < num)%Z.
Proof.
  intros Hn Ho. unfold rate. destruct (num + other >? 0)%Z eqn:Hden.
  - intros Hone.
    assert (~ inject_Z (num + other) == 0) as Hnz.
    { intros H. change 0 with (inject_Z 0) in H.
      apply (proj1 (inject_Z_injective _ _)) in H. lia. }
    pose proof (Qmult_div_r (inject_Z num) _ Hnz) as Hmul.
    rewrite Hone, Qmult_1_r in Hmul.
    apply (proj1 (inject_Z_injective _ _)) in Hmul. lia.
  - intros H. exfalso. revert H. apply Qlt_not_eq. reflexivity.
Qed.

Lemma bal_acc_one_separates t samples :
  Forall (fun sample => sample.2 = 1%Z \/ sample.2 = 0%Z) samples ->
  bal_acc t samples == 1 ->
  separates t samples
  /\ (0 < class_count 1 samples)%Z /\ (0 < class_count 0 samples)%Z.
Proof.
  intros Hlab Hone. unfold bal_acc in Hone.
  destruct (confusion_at_nonneg t samples) as (H1 & H2 & H3 & H4).
  pose proof (rate_range _ _ H1 H4) as [_ R1].
  pose proof (rate_range _ _ H2 H3) as [_ R2].
  assert (rate (stp (confusion_at t samples))
               (stp (confusion_at t samples) + sfn (confusion_at t samples)) == 1)
    as T1 by lra.
  assert (rate (stn (confusion_at t samples))
               (stn (confusion_at t samples) + sfp (confusion_at t samples)) == 1)
    as T2 by lra.
  apply rate_one in T1 as [Efn Ptp]; [|done|done].
  apply rate_one in T2 as [Efp Ptn]; [|done|done].
  assert (separates t samples) as Hsep.
  { apply (no_errors_separates t samples
             {| stp := 0; stn := 0; sfp := 0; sfn := 0 |}); done. }
  split; [done|].
  destruct (separated_counts t samples
              {| stp := 0; stn := 0; sfp := 0; sfn := 0 |} Hsep)
    as (E1 & E2 & _ & _).
  fold (confusion_at t samples) in E1, E2. simpl in E1, E2. lia.
Qed.

Lemma separates_labels t samples :
  separates t samples ->
  Forall (fun sample => sample.2 = 1%Z \/ sample.2 = 0%Z) samples.
Proof.
  intros Hsep. eapply Forall_impl; [exact Hsep|].
  intros x [[? _]|[? _]]; auto.
Qed.

(** Any threshold between a separating one and a larger separating one
    separates as well. *)
Lemma separates_between t1 t t2 samples :
  separates t1 samples -> separates t2 samples -> t1 <= t -> t <= t2 ->
  separates t samples.
Proof.
  intros H1 H2 Hlo Hhi. unfold separates in *.
  rewrite Forall_forall in *. intros x Hx.
  destruct (H1 x Hx) as [[Hy Hp]|[Hy Hp]], (H2 x Hx) as [[Hy' Hp']|[Hy' Hp']];
    try lia; [left|right]; split; try done; lra.
Qed.

Lemma grid_threshold_pred step :
  grid_threshold (step - 1) == grid_threshold step - (1 # 100).
Proof.
  unfold grid_threshold.
  replace (step - 1)%Z with (step + - 1)%Z by lia.
  rewrite inject_Z_plus. change (inject_Z (- 1)) with (- (1)). field.
Qed.

End ThresholdSearchFacts.




Section CsvFacts.

Lemma extract_field_length line in_quotes out_idx out_size :
  out_idx <= out_size - 1 ->
  out_idx + Z.of_nat (String.length (extract_field line in_quotes out_idx out_size))
  <= out_size - 1.
Proof.
  remember (String.length line) as n eqn:Hn.
  revert line Hn out_idx. induction n as [n IH] using lt_wf_ind.
  intros line -> out_idx Hle. destruct line as [|c rest]; simpl; [lia|].
  destruct (out_idx <? out_size - 1) eqn:E; [|simpl; lia].
  apply Z.ltb_lt in E.
  destruct (in_quotes && Ascii.eqb c dquote && _) eqn:E1.
  - destruct rest as [|c' rest']; [by rewrite andb_false_r in E1|]. simpl.
    specialize (IH (String.length rest') ltac:(simpl; lia) rest' eq_refl
                  (out_idx + 1) ltac:(lia)). lia.
  - destruct (in_quotes && Ascii.eqb c dquote); [simpl; lia|].
    destruct (negb in_quotes && Ascii.eqb c comma); [simpl; lia|]. simpl.
    specialize (IH (String.length rest) ltac:(simpl; lia) rest eq_refl
                  (out_idx + 1) ltac:(lia)). lia.
Qed.

(** The first loop stops at column [col_idx] outside quotes, or at the end
    of the line. *)
Lemma skip_columns_reached line col_idx current_col in_quotes rest col q :
  skip_columns line col_idx current_col in_quotes = (rest, col, q) ->
  current_col <= col_idx -> (current_col = col_idx -> in_quotes = false) ->
  col <= col_idx /\ (col = col_idx -> q = false) /\ (col < col_idx -> rest = EmptyString).
Proof.
  revert current_col in_quotes.
  induction line as [|c line IH]; intros current_col in_quotes; simpl.
  - intros [= <- <- <-] ? ?. auto.
  - destruct (current_col <? col_idx) eqn:E.
    + apply Z.ltb_lt in E. intros H _ _.
      destruct (Ascii.eqb c dquote).
      { apply IH in H; [done|lia|lia]. }
      destruct (Ascii.eqb c comma && negb in_quotes) eqn:E2.
      * apply IH in H; [done|lia|]. intros _.
        apply andb_true_iff in E2 as [_ E2]. by destruct in_quotes.
      * apply IH in H; [done|lia|lia].
    + apply Z.ltb_ge in E. intros [= <- <- <-] Hle Hq.
      split; [done|]. split; [intros; apply Hq; lia|lia].
Qed.

Lemma append_String c (s t : string) : String c s +:+ t = String c (s +:+ t).
Proof. reflexivity. Qed.

Lemma append_assoc (s t u : string) : (s +:+ t) +:+ u = s +:+ (t +:+ u).
Proof. induction s as [|c s IH]; [done|]. by rewrite !append_String, IH. Qed.

Lemma skip_columns_plain cell s col_idx current_col :
  plain cell = true ->
  current_col < col_idx ->
  skip_columns (cell +:+ s) col_idx current_col false
  = skip_columns s col_idx current_col false.
Proof.
  intros Hp Hlt. induction cell as [|c cell IH]; [done|].
  simpl in Hp. apply andb_true_iff in Hp as [Hc Hp].
  apply andb_true_iff in Hc as [Hq Hc].
  apply negb_true_iff in Hq, Hc.
  rewrite ?append_String; cbn [skip_columns]. rewrite (proj2 (Z.ltb_lt _ _) Hlt), Hq, Hc. simpl.
  by apply IH.
Qed.

Lemma skip_columns_quoted cell s col_idx current_col :
  current_col < col_idx ->
  skip_columns (double_quotes cell +:+ s) col_idx current_col true
  = skip_columns s col_idx current_col true.
Proof.
  intros Hlt. induction cell as [|c cell IH]; [done|].
  cbn [double_quotes]. destruct (Ascii.eqb c dquote) eqn:Hq.
  - rewrite ?append_String; cbn [skip_columns]. rewrite (proj2 (Z.ltb_lt _ _) Hlt).
    change (Ascii.eqb dquote dquote) with true. cbn [negb]. apply IH.
  - rewrite ?append_String; cbn [skip_columns]. rewrite (proj2 (Z.ltb_lt _ _) Hlt), Hq.
    rewrite andb_false_r. apply IH.
Qed.

(** Past one rendered cell and its comma. *)
Lemma skip_columns_cell cell s col_idx current_col :
  cell_ok cell = true ->
  current_col < col_idx ->
  skip_columns (render_cell cell +:+ String comma s) col_idx current_col false
  = skip_columns s col_idx (current_col + 1) false.
Proof.
  intros Hok Hlt. destruct cell as [[|] cell]; unfold render_cell; cbn [fst snd].
  - rewrite append_String. cbn [skip_columns]. rewrite (proj2 (Z.ltb_lt _ _) Hlt).
    change (Ascii.eqb dquote dquote) with true. cbn [negb].
    rewrite append_assoc. rewrite skip_columns_quoted by done.
    rewrite append_String. cbn [skip_columns]. rewrite (proj2 (Z.ltb_lt _ _) Hlt).
    change (Ascii.eqb dquote dquote) with true. cbn [negb].
    change (EmptyString +:+ String comma s) with (String comma s).
    cbn [skip_columns]. rewrite (proj2 (Z.ltb_lt _ _) Hlt).
    change (Ascii.eqb comma dquote) with false.
    change (Ascii.eqb comma comma) with true. done.
  - rewrite skip_columns_plain by done.
    cbn [skip_columns]. rewrite (proj2 (Z.ltb_lt _ _) Hlt).
    change (Ascii.eqb comma dquote) with false.
    change (Ascii.eqb comma comma) with true. done.
Qed.

(** What follows a rendered cell: the end of the line or a comma. *)
Lemma extract_field_plain cell s out_idx out_size :
  plain cell = true ->
  s = EmptyString \/ (exists s', s = String comma s') ->
  out_idx + Z.of_nat (String.length cell) <= out_size - 1 ->
  extract_field (cell +:+ s) false out_idx out_size = cell.
Proof.
  intros Hp Hs. revert out_idx. induction cell as [|c cell IH]; intros out_idx Hlen.
  - change (EmptyString +:+ s) with s.
    destruct Hs as [->|[s' ->]]; [done|]. cbn [extract_field].
    destruct (out_idx <? out_size - 1); [|done].
    change (Ascii.eqb comma comma) with true. done.
  - simpl in Hp. apply andb_true_iff in Hp as [Hc Hp].
    apply andb_true_iff in Hc as [Hq Hc]. apply negb_true_iff in Hq, Hc.
    rewrite append_String. cbn [extract_field]. cbn [String.length] in Hlen.
    rewrite (proj2 (Z.ltb_lt _ _)) by lia. rewrite Hc. cbn [andb negb].
    f_equal. apply IH; [done|lia].
Qed.

Lemma extract_field_quoted cell s out_idx out_size :
  s = EmptyString \/ (exists s', s = String comma s') ->
  out_idx + Z.of_nat (String.length cell) <= out_size - 1 ->
  extract_field (double_quotes cell +:+ String dquote s) true out_idx out_size = cell.
Proof.
  intros Hs. revert out_idx. induction cell as [|c cell IH]; intros out_idx Hlen.
  - change (double_quotes EmptyString +:+ String dquote s) with (String dquote s).
    cbn [extract_field]. destruct (out_idx <? out_size - 1); [|done].
    change (Ascii.eqb dquote dquote) with true.
    destruct Hs as [->|[s' ->]]; done.
  - cbn [double_quotes String.length] in *. destruct (Ascii.eqb c dquote) eqn:Hq.
    + apply Ascii.eqb_eq in Hq as ->. rewrite !append_String. cbn [extract_field].
      rewrite (proj2 (Z.ltb_lt _ _)) by lia.
      change (Ascii.eqb dquote dquote) with true. cbn [andb].
      f_equal. apply IH. lia.
    + rewrite append_String. cbn [extract_field].
      rewrite (proj2 (Z.ltb_lt _ _)) by lia. rewrite Hq. cbn [andb negb].
      f_equal. apply IH. lia.
Qed.

Lemma render_line_cons cell cells :
  render_line (cell :: cells)
  = render_cell cell +:+ match cells with
                         | [] => EmptyString
                         | _ => String comma (render_line cells)
                         end.
Proof.
  unfold render_line. destruct cells as [|cell' cells]; [|done].
  simpl. induction (render_cell cell) as [|c r IH]; [done|].
  by rewrite append_String, <- IH.
Qed.

(** Past the last rendered cell: the end of the line, same column. *)
Lemma skip_columns_last cell col_idx current_col :
  cell_ok cell = true ->
  current_col < col_idx ->
  skip_columns (render_cell cell +:+ EmptyString) col_idx current_col false
  = (EmptyString, current_col, false).
Proof.
  intros Hok Hlt. destruct cell as [[|] cell]; unfold render_cell; cbn [fst snd].
  - rewrite append_String. cbn [skip_columns]. rewrite (proj2 (Z.ltb_lt _ _) Hlt).
    change (Ascii.eqb dquote dquote) with true. cbn [negb].
    rewrite append_assoc. rewrite skip_columns_quoted by done.
    rewrite append_String. cbn [skip_columns]. rewrite (proj2 (Z.ltb_lt _ _) Hlt).
    change (Ascii.eqb dquote dquote) with true. done.
  - by rewrite skip_columns_plain.
Qed.

Lemma skip_columns_line cells k cell current_col :
  Forall (fun cell => cell_ok cell = true) cells -> cells !! k = Some cell ->
  skip_columns (render_line cells) (current_col + Z.of_nat k) current_col false
  = (render_line (drop k cells), current_col + Z.of_nat k, false).
Proof.
  revert cells current_col. induction k as [|k IH]; intros cells current_col Hok Hk.
  - rewrite Z.add_0_r, drop_0. destruct (render_line cells); simpl; [done|].
    by rewrite Z.ltb_irrefl.
  - destruct cells as [|c cells]; [done|]. simpl in Hk. apply Forall_cons in Hok as [Hc Hok].
    rewrite render_line_cons. destruct cells as [|c' cells]; [done|].
    rewrite skip_columns_cell by (done || lia).
    replace (current_col + Z.of_nat (S k)) with (current_col + 1 + Z.of_nat k) by lia.
    by rewrite (IH _ (current_col + 1) Hok Hk).
Qed.

Lemma skip_columns_short cells col_idx current_col :
  Forall (fun cell => cell_ok cell = true) cells ->
  current_col + Z.of_nat (length cells) <= col_idx -> current_col < col_idx ->
  exists col q, skip_columns (render_line cells) col_idx current_col false
                = (EmptyString, col, q) /\ col < col_idx.
Proof.
  revert current_col. induction cells as [|c cells IH]; intros current_col Hok Hlen Hlt.
  - exists current_col, false. done.
  - simpl in Hlen. apply Forall_cons in Hok as [Hc Hok].
    rewrite render_line_cons. destruct cells as [|c' cells].
    + rewrite skip_columns_last by done. by eexists _, _.
    + rewrite skip_columns_cell by (done || lia).
      apply IH; [done|simpl length in *; lia|simpl length in *; lia].
Qed.

Lemma parse_csv_field_cell cells k cell out out_size :
  Forall (fun cell => cell_ok cell = true) cells -> cells !! k = Some cell ->
  Z.of_nat (String.length cell.2) <= out_size - 1 ->
  parse_csv_field (render_line cells) (Z.of_nat k) out out_size = (0, cell.2).
Proof.
  intros Hok Hk Hlen. unfold parse_csv_field.
  rewrite <- (Z.add_0_l (Z.of_nat k)), (skip_columns_line cells k cell 0 Hok Hk).
  rewrite Z.eqb_refl. cbn [negb].
  assert (cell_ok cell = true) as Hc.
  { rewrite Forall_forall in Hok. eapply Hok, list_elem_of_lookup_2, Hk. }
  rewrite (drop_S _ _ _ Hk), render_line_cons.
  set (s := match drop (S k) cells with [] => EmptyString | _ => _ end).
  assert (s = EmptyString \/ (exists s', s = String comma s')) as Hs.
  { subst s. destruct (drop (S k) cells); eauto. }
  clearbody s. destruct cell as [[|] cell]; unfold render_cell; cbn [fst snd] in *.
  - rewrite append_String. change (Ascii.eqb dquote dquote) with true.
    rewrite append_assoc.
    change (String dquote EmptyString +:+ s) with (String dquote s).
    by rewrite extract_field_quoted by (done || lia).
  - unfold cell_ok in Hc. cbn [fst snd orb] in Hc.
    assert (extract_field (cell +:+ s) false 0 out_size = cell) as Hx
      by (apply extract_field_plain; (done || lia)).
    destruct (cell +:+ s) as [|c r] eqn:E; [by rewrite <- Hx|].
    destruct (Ascii.eqb c dquote) eqn:Ec; [|by rewrite Hx].
    exfalso. destruct cell as [|c0 cell].
    + change (EmptyString +:+ s) with s in E. destruct Hs as [->|[s' ->]]; [done|].
      injection E as <- _. done.
    + rewrite append_String in E. injection E as -> _. simpl in Hc. by rewrite Ec in Hc.
Qed.

Lemma parse_csv_field_missing cells k out out_size :
  Forall (fun cell => cell_ok cell = true) cells ->
  (length cells <= k)%nat -> (0 < k)%nat ->
  parse_csv_field (render_line cells) (Z.of_nat k) out out_size = (-1, out).
Proof.
  intros Hok Hlen Hk. unfold parse_csv_field.
  destruct (skip_columns_short cells (Z.of_nat k) 0 Hok) as (col & q & -> & Hcol); [lia..|].
  by rewrite (proj2 (Z.eqb_neq _ _)) by lia.
Qed.

Lemma parse_csv_field_bounds line col_idx out out_size :
  1 <= out_size ->
  (parse_csv_field line col_idx out out_size).1 = -1
  /\ (parse_csv_field line col_idx out out_size).2 = out
  \/ (parse_csv_field line col_idx out out_size).1 = 0
     /\ Z.of_nat (String.length (parse_csv_field line col_idx out out_size).2)
        <= out_size - 1.
Proof.
  intros Hsize. unfold parse_csv_field.
  destruct (skip_columns line col_idx 0 false) as [[rest col] q].
  destruct (col =? col_idx); cbn [negb]; [right|by left].
  match goal with |- context [let '(_, _) := ?x in _] => destruct x as [rest' q'] end.
  split; [done|]. cbn [snd].
  pose proof (extract_field_length rest' q' 0 out_size ltac:(lia)). lia.
Qed.

End CsvFacts.

(** [parse_csv_field] reads back what was written: on a line of cells
    separated by commas, where a cell holding a comma or a quote is written
    in quotes with its quotes doubled, column [k] comes back as the cell
    itself when it fits the buffer; a column past the last cell is reported
    missing (-1) and the buffer is left as it was. *)
Theorem parse_csv_field_roundtrip (cells : list (bool * string)) (k : nat)
    (out : string) (out_size : Z) :
  Forall (fun cell => cell_ok cell = true) cells ->
  (forall cell, cells !! k = Some cell ->
                Z.of_nat (String.length cell.2) <= out_size - 1 ->
                parse_csv_field (render_line cells) (Z.of_nat k) out out_size
                = (0, cell.2))
  /\ ((length cells <= k)%nat -> (0 < k)%nat ->
      parse_csv_field (render_line cells) (Z.of_nat k) out out_size = (-1, out)).
Proof.
  intros Hok. split.
  - intros cell Hk Hlen. by apply parse_csv_field_cell.
  - intros Hlen Hk. by apply parse_csv_field_missing.
Qed.

Lemma parse_csv_field_roundtrip_witness :
  parse_csv_field (render_line csv_sample) 1 "" 64 = (0, "Smith, Jr.")
  /\ parse_csv_field (render_line csv_sample) 3 "" 64 = (-1, "").
Proof.
  assert (Forall (fun cell => cell_ok cell = true) csv_sample) as Hok
    by (repeat constructor).
  destruct (parse_csv_field_roundtrip csv_sample 1 "" 64 Hok) as [Hcell _].
  destruct (parse_csv_field_roundtrip csv_sample 3 "" 64 Hok) as [_ Hmiss].
  split.
  - apply (Hcell (true, "Smith, Jr.")); [reflexivity|simpl; lia].
  - apply Hmiss; simpl; lia.
Defined.

(** [parse_csv_field] never writes past the buffer: for any line and column,
    with a buffer of at least one byte, it either returns -1 and leaves the
    buffer alone, or returns 0 and stores at most [out_size - 1] characters
    before the terminator. *)
Theorem parse_csv_field_in_buffer (line : string) (col_idx : Z) (out : string)
    (out_size : Z) :
  1 <= out_size ->
  let result := parse_csv_field line col_idx out out_size in
  result.1 = -1 /\ result.2 = out
  \/ result.1 = 0 /\ Z.of_nat (String.length result.2) <= out_size - 1.
Proof. intros Hsize. by apply parse_csv_field_bounds. Qed.

Lemma parse_csv_field_in_buffer_witness :
  let result := parse_csv_field "Featherweight,x" 0 "" 8 in
  result.1 = -1 /\ result.2 = ""
  \/ result.1 = 0 /\ Z.of_nat (String.length result.2) <= 8 - 1.
Proof.
  apply (parse_csv_field_in_buffer "Featherweight,x" 0 "" 8). lia.
Defined.

Lemma name_equals_ci_loop_lower a b :
  name_equals_ci_loop a b = true <-> lower a = lower b.
Proof.
  revert b. induction a as [|ca a IH]; intros [|cb b]; simpl; try done.
  destruct (Ascii.eqb (tolower ca) (tolower cb)) eqn:E; simpl.
  - apply Ascii.eqb_eq in E. rewrite IH, E. split; [by intros ->|by intros [= ->]].
  - apply Ascii.eqb_neq in E. split; [done|]. by intros [= ? _].
Qed.

Lemma sanitize_char_lower c :
  (if isalnum c then tolower c else "_"%char)
  = (if isalnum (tolower c) then tolower (tolower c) else "_"%char).
Proof. destruct c as [[] [] [] [] [] [] [] []]; reflexivity. Qed.

Lemma sanitize_char_slug c :
  slug_char (if isalnum c then tolower c else "_"%char) = true.
Proof. destruct c as [[] [] [] [] [] [] [] []]; reflexivity. Qed.

Lemma sanitize_loop_lower src out dst_size :
  sanitize_loop src out dst_size = sanitize_loop (lower src) out dst_size.
Proof.
  revert out. induction src as [|c src IH]; intros out; [done|]. simpl.
  destruct (out + 1 <? dst_size); [|done]. by rewrite <- sanitize_char_lower, IH.
Qed.

Lemma sanitize_loop_slug src out dst_size :
  all_chars slug_char (sanitize_loop src out dst_size) = true.
Proof.
  revert out. induction src as [|c src IH]; intros out; [done|]. simpl.
  destruct (out + 1 <? dst_size); [|done]. simpl. by rewrite sanitize_char_slug, IH.
Qed.

Lemma sanitize_loop_length src out dst_size :
  0 <= out -> out + 1 <= dst_size ->
  out + Z.of_nat (String.length (sanitize_loop src out dst_size)) + 1 <= dst_size.
Proof.
  revert out. induction src as [|c src IH]; intros out H0 H1; simpl; [lia|].
  destruct (out + 1 <? dst_size) eqn:E; simpl; [|lia]. apply Z.ltb_lt in E.
  specialize (IH (out + 1) ltac:(lia) ltac:(lia)). lia.
Qed.

Lemma name_equals_ci_sym a b : name_equals_ci a b = name_equals_ci b a.
Proof.
  destruct a as [a|], b as [b|]; try done. simpl.
  apply eq_true_iff_eq. rewrite !name_equals_ci_loop_lower. split; by intros ->.
Qed.

Lemma name_equals_ci_trans a b c :
  name_equals_ci a b = true -> name_equals_ci b c = true -> name_equals_ci a c = true.
Proof.
  destruct a as [a|], b as [b|], c as [c|]; try done. simpl.
  rewrite !name_equals_ci_loop_lower. by intros -> ->.
Qed.

Lemma lower_length s : String.length (lower s) = String.length s.
Proof. induction s as [|c s IH]; [done|]. simpl. by rewrite IH. Qed.

(** [name_equals_ci] is an equivalence on strings that identifies exactly the
    strings equal up to the case of the letters A-Z; a NULL argument compares
    unequal to everything. *)
Theorem name_equals_ci_equivalence :
  (forall a, name_equals_ci (Some a) (Some a) = true)
  /\ (forall a b, name_equals_ci a b = name_equals_ci b a)
  /\ (forall a b c, name_equals_ci a b = true -> name_equals_ci b c = true ->
                    name_equals_ci a c = true)
  /\ (forall a b, name_equals_ci (Some a) (Some b) = true <-> lower a = lower b)
  /\ (forall a, name_equals_ci None a = false /\ name_equals_ci a None = false).
Proof.
  split; [|split; [|split; [|split]]].
  - intros a. simpl. by apply name_equals_ci_loop_lower.
  - apply name_equals_ci_sym.
  - apply name_equals_ci_trans.
  - intros a b. apply name_equals_ci_loop_lower.
  - intros [a|]; done.
Qed.

Lemma name_equals_ci_equivalence_witness :
  name_equals_ci (Some "MARCH") (Some "March") = true
  /\ name_equals_ci (Some "March") (Some "march") = true
  /\ name_equals_ci (Some "MARCH") (Some "march") = true.
Proof.
  assert (name_equals_ci (Some "MARCH") (Some "March") = true) as H1 by reflexivity.
  assert (name_equals_ci (Some "March") (Some "march") = true) as H2 by reflexivity.
  split; [exact H1|]. split; [exact H2|].
  exact (proj1 (proj2 (proj2 name_equals_ci_equivalence)) _ _ _ H1 H2).
Defined.

Lemma months_distinct i j n n' :
  months !! i = Some n -> months !! j = Some n' -> i <> j ->
  name_equals_ci (Some n) (Some n') = false.
Proof.
  intros Hi Hj Hne.
  assert (i < 12)%nat as Hi' by (apply lookup_lt_Some in Hi; simpl in Hi; lia).
  assert (j < 12)%nat as Hj' by (apply lookup_lt_Some in Hj; simpl in Hj; lia).
  do 12 (destruct i as [|i]; [do 12 (destruct j as [|j];
    [first [done | injection Hi as <-; injection Hj as <-; reflexivity]|]); lia|]).
  lia.
Qed.

Lemma month_to_number_loop_first month rest i j name :
  rest !! j = Some name -> name_equals_ci month (Some name) = true ->
  (forall j' name', (j' < j)%nat -> rest !! j' = Some name' ->
                    name_equals_ci month (Some name') = false) ->
  month_to_number_loop month i rest = i + Z.of_nat j + 1.
Proof.
  revert i j. induction rest as [|m rest IH]; intros i j Hj Hm Hfirst; [done|].
  destruct j as [|j]; simpl in *.
  - injection Hj as ->. rewrite Hm. lia.
  - rewrite (Hfirst 0%nat m) by (done || lia).
    rewrite (IH (i + 1) j Hj Hm); [lia|].
    intros j' name' Hlt Hj'. apply (Hfirst (S j') name'); [lia|done].
Qed.

Lemma month_to_number_loop_range month rest i :
  month_to_number_loop month i rest = 0
  /\ (forall name, name ∈ rest -> name_equals_ci month (Some name) = false)
  \/ i + 1 <= month_to_number_loop month i rest <= i + Z.of_nat (length rest).
Proof.
  revert i. induction rest as [|m rest IH]; intros i; simpl.
  - left. split; [done|]. by intros name Hn%elem_of_nil.
  - destruct (name_equals_ci month (Some m)) eqn:E; [right; lia|].
    destruct (IH (i + 1)) as [[-> Hall]|Hr]; [left|right; lia].
    split; [done|]. intros name [->|Hn]%elem_of_cons; auto.
Qed.

(** [month_to_number] returns the number (1 to 12) of the English month name
    that equals the argument up to case, and 0 exactly when there is none. *)
Theorem month_to_number_spec (month : option string) :
  0 <= month_to_number month <= 12
  /\ (forall i name, months !! i = Some name ->
                     name_equals_ci month (Some name) = true ->
                     month_to_number month = Z.of_nat i + 1)
  /\ (month_to_number month = 0 <->
      forall name, name ∈ months -> name_equals_ci month (Some name) = false).
Proof.
  unfold month_to_number. split; [|split].
  - destruct (month_to_number_loop_range month months 0) as [[-> _]|H]; [lia|].
    change (length months) with 12%nat in H. lia.
  - intros i name Hi Hm.
    rewrite (month_to_number_loop_first month months 0 i name Hi Hm); [lia|].
    intros j' name' Hlt Hj'.
    destruct (name_equals_ci month (Some name')) eqn:E; [|done].
    rewrite name_equals_ci_sym in Hm.
    pose proof (name_equals_ci_trans _ _ _ Hm E) as Hnn.
    rewrite (months_distinct i j' name name') in Hnn by (done || lia). done.
  - destruct (month_to_number_loop_range month months 0) as [[-> Hall]|H].
    + done.
    + split; [intros Hz; lia|]. intros Hall. exfalso.
      assert (forall rest i, (forall name, name ∈ rest ->
                                 name_equals_ci month (Some name) = false) ->
                             month_to_number_loop month i rest = 0) as Hzero.
      { clear. induction rest as [|m rest IH]; intros i Hall; [done|]. simpl.
        rewrite (Hall m) by apply list_elem_of_here. apply IH.
        intros name Hn. apply Hall. by apply list_elem_of_further. }
      rewrite (Hzero months 0 Hall) in H. lia.
Qed.

Lemma month_to_number_spec_witness :
  months !! 2%nat = Some "March"
  /\ name_equals_ci (Some "MARCH") (Some "March") = true
  /\ month_to_number (Some "MARCH") = 3.
Proof.
  assert (months !! 2%nat = Some "March") as Hi by reflexivity.
  assert (name_equals_ci (Some "MARCH") (Some "March") = true) as Hm by reflexivity.
  split; [exact Hi|]. split; [exact Hm|].
  exact (proj1 (proj2 (month_to_number_spec (Some "MARCH"))) 2%nat "March" Hi Hm).
Defined.

Lemma length_append (s t : string) :
  String.length (s +:+ t) = (String.length s + String.length t)%nat.
Proof. induction s as [|c s IH]; [done|]. simpl. by rewrite IH. Qed.

Lemma sanitize_class_name_Some src dst_size :
  2 <= dst_size ->
  exists slug, sanitize_class_name (Some src) dst_size = Some slug
               /\ 1 <= Z.of_nat (String.length slug) <= dst_size - 1
               /\ all_chars slug_char slug = true.
Proof.
  intros Hsize. unfold sanitize_class_name.
  rewrite (proj2 (Z.ltb_ge _ _)) by lia. eexists. split; [reflexivity|].
  pose proof (sanitize_loop_length src 0 dst_size ltac:(lia) ltac:(lia)) as Hlen.
  pose proof (sanitize_loop_slug src 0 dst_size) as Hslug.
  destruct (sanitize_loop src 0 dst_size) as [|c s]; [simpl; split; [lia|done]|].
  split; [|done]. cbn [String.length] in *. lia.
Qed.

(** [sanitize_class_name] fails only for a NULL source or a buffer of fewer
    than two bytes; otherwise the slug is not empty, fits the buffer with its
    terminator, and holds only digits, lower-case letters and underscores;
    names equal up to case have the same slug. *)
Theorem sanitize_class_name_slug :
  (forall dst_size, sanitize_class_name None dst_size = None)
  /\ (forall src dst_size, dst_size < 2 -> sanitize_class_name (Some src) dst_size = None)
  /\ (forall src dst_size, 2 <= dst_size ->
        exists slug, sanitize_class_name (Some src) dst_size = Some slug
                     /\ 1 <= Z.of_nat (String.length slug) <= dst_size - 1
                     /\ all_chars slug_char slug = true)
  /\ (forall a b dst_size, name_equals_ci (Some a) (Some b) = true ->
        sanitize_class_name (Some a) dst_size = sanitize_class_name (Some b) dst_size).
Proof.
  split; [done|]. split; [|split].
  - intros src dst_size H. unfold sanitize_class_name.
    by rewrite (proj2 (Z.ltb_lt _ _)) by lia.
  - apply sanitize_class_name_Some.
  - intros a b dst_size Hab. apply name_equals_ci_loop_lower in Hab.
    unfold sanitize_class_name.
    by rewrite (sanitize_loop_lower a), (sanitize_loop_lower b), Hab.
Qed.

Lemma sanitize_class_name_slug_witness :
  exists slug, sanitize_class_name (Some "Women's Flyweight") 128 = Some slug
               /\ 1 <= Z.of_nat (String.length slug) <= 128 - 1
               /\ all_chars slug_char slug = true.
Proof.
  assert (2 <= 128) as H by lia.
  exact (proj1 (proj2 (proj2 sanitize_class_name_slug)) "Women's Flyweight" 128 H).
Defined.

(** With the 256-byte buffers of its callers, [build_class_model_path] never
    fails for a weight-class string: the path is [ufc_model_<slug>.bin];
    class names equal up to case share one path. *)
Theorem build_class_model_path_total :
  (forall weight_class,
      exists slug, sanitize_class_name (Some weight_class) 128 = Some slug
                   /\ build_class_model_path (Some weight_class) 256
                      = Some ("ufc_model_" +:+ slug +:+ ".bin"))
  /\ (forall a b path_size, name_equals_ci (Some a) (Some b) = true ->
        build_class_model_path (Some a) path_size
        = build_class_model_path (Some b) path_size).
Proof.
  split.
  - intros weight_class.
    destruct (sanitize_class_name_Some weight_class 128 ltac:(lia))
      as (slug & Hslug & Hlen & _).
    exists slug. split; [done|]. unfold build_class_model_path. rewrite Hslug.
    cbv zeta. rewrite !length_append.
    change (String.length "ufc_model_") with 10%nat.
    change (String.length ".bin") with 4%nat.
    rewrite (proj2 (Z.ltb_lt 0 _)) by lia.
    by rewrite (proj2 (Z.ltb_lt _ 256)) by lia.
  - intros a b path_size Hab. unfold build_class_model_path.
    apply name_equals_ci_loop_lower in Hab. unfold sanitize_class_name.
    by rewrite (sanitize_loop_lower a), (sanitize_loop_lower b), Hab.
Qed.

Lemma build_class_model_path_total_witness :
  build_class_model_path (Some "Lightweight") 256
  = build_class_model_path (Some "LIGHTWEIGHT") 256.
Proof.
  assert (name_equals_ci (Some "Lightweight") (Some "LIGHTWEIGHT") = true) as H
    by reflexivity.
  exact (proj2 build_class_model_path_total "Lightweight" "LIGHTWEIGHT" 256 H).
Defined.

Section LatestWeightClassFacts.

Variable event_date_to_key : string -> Z.

Lemma latest_of_step f seen latest cls fight :
  latest_of event_date_to_key f seen latest cls ->
  let key := event_date_to_key (event_date fight) in
  latest_of event_date_to_key f (seen ++ [fight])
    (if (0 <? key) && names_fighter fight f && (key >? latest) then key else latest)
    (if (0 <? key) && names_fighter fight f && (key >? latest)
     then strncpy (weight_class fight) 63 else cls).
Proof.
  intros (H0 & Hmax & Hwit) key.
  destruct ((0 <? key) && names_fighter fight f && (key >? latest)) eqn:E.
  - apply andb_true_iff in E as [E Hgt]. apply andb_true_iff in E as [Hpos Hn].
    apply Z.ltb_lt in Hpos. apply Z.gtb_lt in Hgt.
    split; [lia|]. split.
    + intros g [Hg|Hg%list_elem_of_singleton]%elem_of_app Hgn; [|subst g key; lia].
      specialize (Hmax g Hg Hgn). lia.
    + intros _. exists fight. split; [apply elem_of_app; right; apply list_elem_of_here|done].
  - split; [done|]. split.
    + intros g [Hg|Hg%list_elem_of_singleton]%elem_of_app Hgn; [by apply Hmax|].
      subst g.
      rewrite Hgn, andb_true_r in E. fold key.
      destruct (0 <? key) eqn:Hpos; simpl in E.
      * rewrite Z.gtb_ltb in E. apply Z.ltb_ge in E. lia.
      * apply Z.ltb_ge in Hpos. lia.
    + intros Hl. destruct (Hwit Hl) as (w & Hw & ?). exists w.
      split; [apply elem_of_app; by left|done].
Qed.

Lemma infer_step_latest f1 f2 st fight :
  let key := event_date_to_key (event_date fight) in
  let st' := infer_step event_date_to_key f1 f2 st fight in
  latest_f1 st' = (if (0 <? key) && names_fighter fight f1 && (key >? latest_f1 st)
                   then key else latest_f1 st)
  /\ class_f1 st' = (if (0 <? key) && names_fighter fight f1 && (key >? latest_f1 st)
                     then strncpy (weight_class fight) 63 else class_f1 st)
  /\ latest_f2 st' = (if (0 <? key) && names_fighter fight f2 && (key >? latest_f2 st)
                      then key else latest_f2 st)
  /\ class_f2 st' = (if (0 <? key) && names_fighter fight f2 && (key >? latest_f2 st)
                     then strncpy (weight_class fight) 63 else class_f2 st).
Proof.
  intros key st'. subst st'. unfold infer_step. fold key.
  destruct (key <=? 0) eqn:E.
  - apply Z.leb_le in E. by rewrite (proj2 (Z.ltb_ge 0 key)) by lia.
  - apply Z.leb_gt in E. rewrite (proj2 (Z.ltb_lt 0 key)) by lia. cbn [andb].
    destruct (names_fighter fight f1), (key >? latest_f1 st),
      (names_fighter fight f2); cbn [andb latest_f1 latest_f2 class_f1 class_f2];
      try done; by destruct (key >? latest_f2 st).
Qed.

Lemma infer_fold_latest f1 f2 fights seen st :
  latest_of event_date_to_key f1 seen (latest_f1 st) (class_f1 st) ->
  latest_of event_date_to_key f2 seen (latest_f2 st) (class_f2 st) ->
  let st' := fold_left (infer_step event_date_to_key f1 f2) fights st in
  latest_of event_date_to_key f1 (seen ++ fights) (latest_f1 st') (class_f1 st')
  /\ latest_of event_date_to_key f2 (seen ++ fights) (latest_f2 st') (class_f2 st').
Proof.
  revert seen st. induction fights as [|fight fights IH]; intros seen st H1 H2.
  - simpl. by rewrite app_nil_r.
  - cbn [fold_left]. replace (seen ++ fight :: fights) with ((seen ++ [fight]) ++ fights)
      by (by rewrite <- app_assoc).
    destruct (infer_step_latest f1 f2 st fight) as (E1 & E2 & E3 & E4).
    apply IH.
    + rewrite E1, E2. by apply latest_of_step.
    + rewrite E3, E4. by apply latest_of_step.
Qed.

Lemma latest_of_nil f : latest_of event_date_to_key f [] 0 "".
Proof. split; [done|]. split; [by intros g Hg%elem_of_nil|lia]. Qed.

Lemma infer_latest_weight_class_state fights f1 f2 :
  exists st,
    fold_left (infer_step event_date_to_key f1 f2) fights
      {| latest_f1 := 0; latest_f2 := 0; class_f1 := ""; class_f2 := "" |} = st
    /\ latest_of event_date_to_key f1 fights (latest_f1 st) (class_f1 st)
    /\ latest_of event_date_to_key f2 fights (latest_f2 st) (class_f2 st).
Proof.
  eexists. split; [reflexivity|].
  apply (infer_fold_latest f1 f2 fights []); apply latest_of_nil.
Qed.

Lemma fighter_exists_names fights n :
  fighter_exists_in_history fights (Some n) = true ->
  exists fight, fight ∈ fights /\ names_fighter fight n = true.
Proof.
  destruct n as [|c n]; [done|]. simpl.
  intros (fight & Hin & Hn)%existsb_exists. exists fight.
  split; [by apply list_elem_of_In|done].
Qed.

End LatestWeightClassFacts.

(** [infer_latest_weight_class] returns 0, leaving [out_class] as it was,
    exactly when no fight with a positive date key names either fighter; it
    cannot return 0 when every date has a positive key and
    [fighter_exists_in_history] found the first fighter. *)
Theorem infer_latest_weight_class_none (event_date_to_key : string -> Z)
    (fights : list UFCFight) (f1 f2 out_class : string) (out_size : Z) :
  let result := infer_latest_weight_class event_date_to_key fights f1 f2
                  out_class out_size in
  (result.1 = 0 <->
   forall fight, fight ∈ fights -> 0 < event_date_to_key (event_date fight) ->
                 names_fighter fight f1 = false /\ names_fighter fight f2 = false)
  /\ (result.1 = 0 -> result.2 = out_class)
  /\ (fighter_exists_in_history fights (Some f1) = true ->
      (forall fight, fight ∈ fights -> 0 < event_date_to_key (event_date fight)) ->
      result.1 <> 0).
Proof.
  intros result.
  destruct (infer_latest_weight_class_state event_date_to_key fights f1 f2)
    as (st & Hst & (H01 & Hmax1 & Hwit1) & (H02 & Hmax2 & Hwit2)).
  assert (result.1 = 0 <-> latest_f1 st = 0 /\ latest_f2 st = 0) as Hzero.
  { subst result. unfold infer_latest_weight_class. rewrite Hst.
    destruct (Z.eqb_spec (latest_f1 st) 0) as [E1|E1],
             (Z.eqb_spec (latest_f2 st) 0) as [E2|E2]; cbn [andb];
      [done|..]; repeat case_match; simpl; split; (lia || done). }
  assert (result.1 = 0 <->
          forall fight, fight ∈ fights -> 0 < event_date_to_key (event_date fight) ->
                        names_fighter fight f1 = false
                        /\ names_fighter fight f2 = false) as Hnone.
  { rewrite Hzero. split.
    - intros [E1 E2] fight Hin Hpos. split.
      + destruct (names_fighter fight f1) eqn:E; [|done].
        specialize (Hmax1 fight Hin E). lia.
      + destruct (names_fighter fight f2) eqn:E; [|done].
        specialize (Hmax2 fight Hin E). lia.
    - intros Hall. split.
      + destruct (decide (latest_f1 st = 0)) as [|Hne]; [done|].
        destruct (Hwit1 ltac:(lia)) as (w & Hw & Hn & Hk & _).
        destruct (Hall w Hw ltac:(lia)) as [Hf _]. congruence.
      + destruct (decide (latest_f2 st = 0)) as [|Hne]; [done|].
        destruct (Hwit2 ltac:(lia)) as (w & Hw & Hn & Hk & _).
        destruct (Hall w Hw ltac:(lia)) as [_ Hf]. congruence. }
  split; [exact Hnone|]. split.
  - intros Hr. apply Hzero in Hr as [E1 E2]. subst result.
    unfold infer_latest_weight_class. rewrite Hst, E1, E2. done.
  - intros Hex Hpos Hr. pose proof (proj1 Hnone Hr) as Hall.
    destruct (fighter_exists_names fights f1 Hex) as (w & Hw & Hn).
    destruct (Hall w Hw (Hpos w Hw)) as [Hf _]. congruence.
Qed.

Lemma infer_latest_weight_class_none_witness :
  fighter_exists_in_history seven_bouts (Some "ANN") = true
  /\ (forall fight, fight ∈ seven_bouts ->
                    0 < (fun _ : string => 20210710) (event_date fight))
  /\ (infer_latest_weight_class (fun _ => 20210710) seven_bouts "ANN" "Zed" "" 64).1
     <> 0.
Proof.
  assert (fighter_exists_in_history seven_bouts (Some "ANN") = true) as Hex
    by reflexivity.
  assert (forall fight, fight ∈ seven_bouts ->
                        0 < (fun _ : string => 20210710) (event_date fight)) as Hpos
    by (intros; lia).
  split; [exact Hex|]. split; [exact Hpos|].
  exact (proj2 (proj2 (infer_latest_weight_class_none (fun _ => 20210710)
                         seven_bouts "ANN" "Zed" "" 64)) Hex Hpos).
Defined.

(** When [infer_latest_weight_class] finds a class (return value 1 or 2),
    [out_class] is the class of a fight that names one of the two fighters and
    carries the newest positive date key among all such fights; the return
    value 2 means both fighters were found, with different latest classes. *)
Theorem infer_latest_weight_class_latest (event_date_to_key : string -> Z)
    (fights : list UFCFight) (f1 f2 out_class : string) (out_size : Z) :
  let result := infer_latest_weight_class event_date_to_key fights f1 f2
                  out_class out_size in
  result.1 <> 0 ->
  (result.1 = 1 \/ result.1 = 2)
  /\ exists fight,
      fight ∈ fights
      /\ names_fighter fight f1 || names_fighter fight f2 = true
      /\ 0 < event_date_to_key (event_date fight)
      /\ result.2 = strncpy (strncpy (weight_class fight) 63) (out_size - 1)
      /\ forall g, g ∈ fights -> names_fighter g f1 || names_fighter g f2 = true ->
                   event_date_to_key (event_date g)
                   <= event_date_to_key (event_date fight).
Proof.
  intros result.
  destruct (infer_latest_weight_class_state event_date_to_key fights f1 f2)
    as (st & Hst & (H01 & Hmax1 & Hwit1) & (H02 & Hmax2 & Hwit2)).
  subst result. unfold infer_latest_weight_class. rewrite Hst. clear Hst.
  assert (forall w, w ∈ fights ->
            names_fighter w f1 || names_fighter w f2 = true ->
            event_date_to_key (event_date w) <= Z.max (latest_f1 st) (latest_f2 st))
    as Hmax.
  { intros w Hw [Hn|Hn]%orb_true_iff;
      [specialize (Hmax1 w Hw Hn)|specialize (Hmax2 w Hw Hn)]; lia. }
  assert (0 < latest_f1 st -> latest_f2 st <= latest_f1 st ->
          forall cls, cls = class_f1 st ->
            exists fight,
              fight ∈ fights
              /\ names_fighter fight f1 || names_fighter fight f2 = true
              /\ 0 < event_date_to_key (event_date fight)
              /\ strncpy cls (out_size - 1)
                 = strncpy (strncpy (weight_class fight) 63) (out_size - 1)
              /\ forall g, g ∈ fights ->
                   names_fighter g f1 || names_fighter g f2 = true ->
                   event_date_to_key (event_date g)
                   <= event_date_to_key (event_date fight)) as Huse1.
  { intros Hpos Hle cls ->. destruct (Hwit1 Hpos) as (w & Hw & Hn & Hk & Hc).
    exists w. split; [done|]. split; [by rewrite Hn|]. split; [lia|].
    split; [by rewrite Hc|]. intros g Hg Hgn. specialize (Hmax g Hg Hgn). lia. }
  assert (0 < latest_f2 st -> latest_f1 st <= latest_f2 st ->
          forall cls, cls = class_f2 st ->
            exists fight,
              fight ∈ fights
              /\ names_fighter fight f1 || names_fighter fight f2 = true
              /\ 0 < event_date_to_key (event_date fight)
              /\ strncpy cls (out_size - 1)
                 = strncpy (strncpy (weight_class fight) 63) (out_size - 1)
              /\ forall g, g ∈ fights ->
                   names_fighter g f1 || names_fighter g f2 = true ->
                   event_date_to_key (event_date g)
                   <= event_date_to_key (event_date fight)) as Huse2.
  { intros Hpos Hle cls ->. destruct (Hwit2 Hpos) as (w & Hw & Hn & Hk & Hc).
    exists w. split; [done|]. split; [by rewrite Hn, orb_true_r|]. split; [lia|].
    split; [by rewrite Hc|]. intros g Hg Hgn. specialize (Hmax g Hg Hgn). lia. }
  destruct (Z.eqb_spec (latest_f1 st) 0) as [E1|E1],
           (Z.eqb_spec (latest_f2 st) 0) as [E2|E2]; cbn [andb].
  - done.
  - intros _. rewrite E1. cbn [Z.gtb Z.compare andb fst snd].
    split; [by left|]. apply Huse2; (lia || done).
  - intros _. rewrite (proj2 (Z.gtb_lt _ _)), E2 by lia.
    cbn [Z.gtb Z.compare andb fst snd].
    split; [by left|]. apply Huse1; (lia || done).
  - intros _. rewrite !(proj2 (Z.gtb_lt _ _)) by lia. cbn [andb].
    destruct (String.eqb_spec (class_f1 st) (class_f2 st)) as [Ec|Ec].
    + split; [by left|]. cbn [snd].
      destruct (Z.le_ge_cases (latest_f2 st) (latest_f1 st)).
      * apply Huse1; (lia || done).
      * apply Huse2; (lia || done).
    + destruct (latest_f1 st >=? latest_f2 st) eqn:Ege.
      * split; [by right|]. apply Huse1; [lia| |done].
        apply Z.geb_le in Ege. lia.
      * split; [by right|]. apply Huse2; [lia| |done].
        rewrite Z.geb_leb in Ege. apply Z.leb_gt in Ege. lia.
Qed.

Lemma infer_latest_weight_class_latest_witness :
  exists fight,
    fight ∈ seven_bouts
    /\ names_fighter fight "ann" || names_fighter fight "Zed" = true
    /\ (infer_latest_weight_class (fun d => Z.of_nat (String.length d))
          seven_bouts "ann" "Zed" "" 64).2
       = strncpy (strncpy (weight_class fight) 63) (64 - 1).
Proof.
  assert ((infer_latest_weight_class (fun d => Z.of_nat (String.length d))
             seven_bouts "ann" "Zed" "" 64).1 <> 0) as Hfound
    by (vm_compute; discriminate).
  destruct (infer_latest_weight_class_latest (fun d => Z.of_nat (String.length d))
              seven_bouts "ann" "Zed" "" 64 Hfound)
    as (_ & fight & Hin & Hn & _ & Hout & _).
  exists fight. split; [exact Hin|]. split; [exact Hn|exact Hout].
Defined.

(** [strcmp] is a total order on the bytes. *)
Lemma strcmp_le_trans a b c :
  String.compare a b <> Gt -> String.compare b c <> Gt -> String.compare a c <> Gt.
Proof.
  revert b c. induction a as [|ca a IH]; intros [|cb b] [|cc c]; simpl; try done.
  unfold Ascii.compare.
  destruct (N.compare_spec (N_of_ascii ca) (N_of_ascii cb)) as [E1|E1|E1];
    destruct (N.compare_spec (N_of_ascii cb) (N_of_ascii cc)) as [E2|E2|E2];
    destruct (N.compare_spec (N_of_ascii ca) (N_of_ascii cc)) as [E3|E3|E3];
    try done; try lia; try apply IH.
Qed.

Lemma strcmp_gt_spec a b : strcmp_gt a b = true <-> String.compare a b = Gt.
Proof. unfold strcmp_gt. by destruct (String.compare a b). Qed.

Lemma strcmp_not_gt_step g best new :
  strcmp_gt g best = false -> strcmp_gt new best = true -> strcmp_gt g new = false.
Proof.
  intros Hg Hn. apply not_true_iff_false. rewrite strcmp_gt_spec.
  apply not_true_iff_false in Hg. rewrite strcmp_gt_spec in Hg.
  apply strcmp_gt_spec in Hn.
  apply (strcmp_le_trans g best new); [done|].
  rewrite String.compare_antisym, Hn. done.
Qed.

Lemma strcmp_gt_irrefl a : strcmp_gt a a = false.
Proof.
  apply not_true_iff_false. rewrite strcmp_gt_spec.
  assert (String.compare a a = Eq) as ->; [|done].
  induction a as [|c a IH]; [done|]. simpl. unfold Ascii.compare.
  by rewrite N.compare_refl.
Qed.

Section SnapshotFacts.

Variables (wc n : string).

Lemma snapshot_loop_inv seen rest best_idx best_side :
  snapshot_inv wc n (seen ++ rest) seen best_idx best_side ->
  let result := snapshot_loop (seen ++ rest) rest (Z.of_nat (length seen)) wc n
                  best_idx best_side in
  snapshot_inv wc n (seen ++ rest) (seen ++ rest) result.1 result.2.
Proof.
  revert seen best_idx best_side.
  induction rest as [|fight rest IH]; intros seen best_idx best_side Hinv.
  - simpl. by rewrite app_nil_r in *.
  - cbn [snapshot_loop].
    replace (seen ++ fight :: rest) with ((seen ++ [fight]) ++ rest) in *
      by (by rewrite <- app_assoc).
    replace (Z.of_nat (length seen) + 1) with (Z.of_nat (length (seen ++ [fight])))
      by (rewrite length_app; simpl; lia).
    assert (((seen ++ [fight]) ++ rest) !! Z.to_nat (Z.of_nat (length seen))
            = Some fight) as Hhere.
    { rewrite Nat2Z.id, <- app_assoc, lookup_app_r by lia.
      by rewrite Nat.sub_diag. }
    assert (forall g, g ∈ seen ++ [fight] -> g ∈ seen \/ g = fight) as Hsnoc.
    { intros g [Hg|Hg%list_elem_of_singleton]%elem_of_app; auto. }
    assert (forall g, g ∈ seen -> g ∈ seen ++ [fight]) as Hold
      by (intros; apply elem_of_app; by left).
    assert (fight ∈ seen ++ [fight]) as Hnew
      by (apply elem_of_app; right; apply list_elem_of_here).
    destruct (String.eqb_spec (weight_class fight) wc) as [Ewc|Ewc]; cbn [negb].
    2:{ apply IH. destruct Hinv as [[-> Hno]|(b & H0 & Hb & Hin & Hm & Hs & Hmax)].
        - left. split; [done|]. intros g [Hg| ->]%Hsnoc; [auto|]. by intros [? _].
        - right. exists b. split; [done|]. split; [done|]. split; [by apply Hold|].
          split; [done|]. split; [done|].
          intros g [Hg| ->]%Hsnoc; [auto|]. by intros [? _]. }
    destruct (Z.eqb_spec (hit_side fight n) 0) as [Eh|Eh].
    { apply IH. destruct Hinv as [[-> Hno]|(b & H0 & Hb & Hin & Hm & Hs & Hmax)].
      - left. split; [done|]. intros g [Hg| ->]%Hsnoc; [auto|]. by intros [_ ?].
      - right. exists b. split; [done|]. split; [done|]. split; [by apply Hold|].
          split; [done|]. split; [done|].
        intros g [Hg| ->]%Hsnoc; [auto|]. by intros [_ ?]. }
    assert (snapshot_match wc n fight) as Hmatch by done.
    destruct Hinv as [[-> Hno]|(b & H0 & Hb & Hin & Hm & Hs & Hmax)].
    + cbn [Z.ltb Z.compare orb]. apply IH. right. exists fight.
      split; [lia|]. split; [done|]. split; [done|]. split; [done|]. split; [done|].
      intros g [Hg| ->]%Hsnoc Hgm; [by destruct (Hno g Hg)|apply strcmp_gt_irrefl].
    + rewrite (proj2 (Z.ltb_ge _ _)) by lia. cbn [orb]. rewrite Hb. cbn [from_option].
      destruct (strcmp_gt (event_date fight) (event_date b)) eqn:Egt; apply IH; right.
      * exists fight. split; [lia|]. split; [done|]. split; [done|].
        split; [done|]. split; [done|].
        intros g [Hg| ->]%Hsnoc Hgm; [|apply strcmp_gt_irrefl].
        eapply strcmp_not_gt_step; [by apply Hmax|done].
      * exists b. split; [done|]. split; [done|]. split; [by apply Hold|].
        split; [done|]. split; [done|].
        intros g [Hg| ->]%Hsnoc Hgm; [by apply Hmax|done].
Qed.

End SnapshotFacts.

Lemma copy_fighter_stats_sides dst dst_side src src_side :
  let result := copy_fighter_stats dst dst_side src src_side in
  side_stats result dst_side = side_stats src src_side
  /\ side_stats result (other_side dst_side) = side_stats dst (other_side dst_side)
  /\ fighter1 result = fighter1 dst /\ fighter2 result = fighter2 dst
  /\ weight_class result = weight_class dst /\ event_date result = event_date dst
  /\ label result = label dst.
Proof.
  unfold copy_fighter_stats, apply_fighter_stats, side_stats, other_side.
  destruct (dst_side =? 1), (src_side =? 1); done.
Qed.

(** [load_latest_fighter_snapshot] fails, leaving the query as it was, exactly
    when no fight of the class names the fighter (byte for byte); otherwise it
    copies to the chosen side of the query the statistics the fighter had in a
    fight of the class that no other such fight follows in date order, and
    changes nothing else of the query. *)
Theorem load_latest_fighter_snapshot_latest (fights : list UFCFight)
    (weight_class_name fighter_name : string) (query : UFCFight) (query_side : Z) :
  let result := load_latest_fighter_snapshot fights weight_class_name fighter_name
                  query query_side in
  (result = (-1, query)
   /\ forall g, g ∈ fights -> ~ snapshot_match weight_class_name fighter_name g)
  \/ (result.1 = 0
      /\ exists b,
          b ∈ fights /\ snapshot_match weight_class_name fighter_name b
          /\ (forall g, g ∈ fights -> snapshot_match weight_class_name fighter_name g ->
                        strcmp_gt (event_date g) (event_date b) = false)
          /\ side_stats result.2 query_side = side_stats b (hit_side b fighter_name)
          /\ side_stats result.2 (other_side query_side)
             = side_stats query (other_side query_side)
          /\ fighter1 result.2 = fighter1 query /\ fighter2 result.2 = fighter2 query
          /\ weight_class result.2 = weight_class query
          /\ event_date result.2 = event_date query
          /\ label result.2 = label query).
Proof.
  intros result. subst result. unfold load_latest_fighter_snapshot.
  assert (snapshot_inv weight_class_name fighter_name fights [] (-1) 0) as Hstart.
  { left. split; [done|]. by intros g Hg%elem_of_nil. }
  pose proof (snapshot_loop_inv weight_class_name fighter_name [] fights (-1) 0 Hstart)
    as Hinv.
  change ([] ++ fights) with fights in Hinv.
  change (Z.of_nat (length (@nil UFCFight))) with 0 in Hinv. cbv zeta in Hinv.
  destruct (snapshot_loop fights fights 0 weight_class_name fighter_name (-1) 0)
    as [best_idx best_side].
  destruct Hinv as [[Hidx Hno]|(b & H0 & Hb & Hin & Hm & Hs & Hmax)];
    cbn [fst snd] in *.
  - left. subst best_idx. done.
  - right. rewrite (proj2 (Z.ltb_ge _ _)) by lia. rewrite Hb.
    split; [done|]. exists b. split; [done|]. split; [done|]. split; [done|].
    subst best_side. apply copy_fighter_stats_sides.
Qed.

Section ContextSanity.

Variable realloc : Z -> ReallocResult.

Lemma get_or_add_fighter_sane ctx n wc :
  context_sane ctx -> context_sane (get_or_add_fighter realloc ctx n wc).2.
Proof.
  intros [Hf Hh]. unfold get_or_add_fighter.
  destruct (find_fighter_record ctx n wc) as [[i r]|]; [done|].
  destruct (ensure_fighter_cap realloc ctx) as [ctx1|] eqn:E; [|done].
  apply ensure_fighter_cap_frame in E as (Ef & Eh & _).
  split; simpl; [|by rewrite Eh]. rewrite Ef. apply Forall_app. split; [done|].
  repeat constructor; simpl; lia.
Qed.

Lemma get_or_add_h2h_sane ctx f1 f2 wc :
  context_sane ctx -> context_sane (get_or_add_h2h realloc ctx f1 f2 wc).2.
Proof.
  intros [Hf Hh]. unfold get_or_add_h2h.
  destruct (list_find _ _) as [[i r]|]; [done|].
  destruct (ensure_h2h_cap realloc ctx) as [ctx1|] eqn:E; [|done].
  apply ensure_h2h_cap_frame in E as (Ef & Eh & _).
  split; simpl; [by rewrite Ef|]. rewrite Eh. apply Forall_app. split; [done|].
  repeat constructor; simpl; lia.
Qed.

Lemma update_context_with_result_sane ctx fight ctx' :
  context_sane ctx ->
  update_context_with_result realloc ctx fight = Some ctx' ->
  context_sane ctx'.
Proof.
  intros Hctx. unfold update_context_with_result.
  pose proof (get_or_add_fighter_sane ctx (fighter1 fight) (weight_class fight) Hctx)
    as H1.
  destruct (get_or_add_fighter realloc ctx _ _) as [r1 ctx1]. cbn [snd] in H1.
  pose proof (get_or_add_fighter_sane ctx1 (fighter2 fight) (weight_class fight) H1)
    as H2.
  destruct (get_or_add_fighter realloc ctx1 _ _) as [r2 ctx2]. cbn [snd] in H2.
  pose proof (get_or_add_h2h_sane ctx2 (fighter1 fight) (fighter2 fight)
                (weight_class fight) H2) as H3.
  destruct (get_or_add_h2h realloc ctx2 _ _ _) as [h ctx3]. cbn [snd] in H3.
  destruct r1 as [[b1 i1]|], r2 as [[b2 i2]|], h as [[bh ih]|];
    try (by intros [= <-]).
  destruct (_ && _ && _); [|done]. cbn [ptr_slot].
  destruct H3 as [Hf Hh].
  assert (forall r, fighter_counts_sane r ->
                    fighter_counts_sane (inc_total r)
                    /\ fighter_counts_sane (inc_total (inc_total r))
                    /\ fighter_counts_sane (inc_wins (inc_total r))
                    /\ fighter_counts_sane (inc_losses (inc_total r))
                    /\ fighter_counts_sane (inc_losses (inc_wins (inc_total (inc_total r))))
                    /\ fighter_counts_sane (inc_wins (inc_losses (inc_total (inc_total r)))))
    as Hstep.
  { intros r (? & ? & ?). unfold fighter_counts_sane. simpl. lia. }
  assert (forall winner h0, h2h_counts_sane h0 ->
                            h2h_counts_sane (inc_h_total h0)
                            /\ h2h_counts_sane (inc_h_wins winner (inc_h_total h0)))
    as Hhstep.
  { intros winner h0 (? & ? & ?). unfold h2h_counts_sane, inc_h_wins. simpl.
    case_decide; simpl; lia. }
  rewrite Forall_lookup in Hf. rewrite Forall_lookup in Hh.
  destruct (label fight =? 1); [|destruct (label fight =? 0)]; intros [= <-];
    (split; simpl; apply Forall_lookup; intros j y; rewrite !list_lookup_alter;
     [ destruct (fighters ctx3 !! i1) as [x1|] eqn:E1,
         (fighters ctx3 !! i2) as [x2|] eqn:E2,
         (fighters ctx3 !! j) as [x|] eqn:Ej;
       repeat case_decide; subst; simplify_eq/=; try done;
       intros; simplify_eq/=; try (by eapply Hf);
       match goal with
       | E : fighters ctx3 !! _ = Some ?x |- fighter_counts_sane ?t =>
           match t with context [x] =>
             pose proof (Hstep x (Hf _ _ E)); by destruct_and!
           end
       end
     | destruct (h2h ctx3 !! ih) as [x1|] eqn:E1, (h2h ctx3 !! j) as [x|] eqn:Ej;
       repeat case_decide; subst; simplify_eq/=; try done;
       intros; simplify_eq/=; try (by eapply Hh);
       match goal with
       | E : h2h ctx3 !! _ = Some ?x |- h2h_counts_sane (inc_h_wins ?w _) =>
           pose proof (Hhstep w x (Hh _ _ E)); by destruct_and!
       | E : h2h ctx3 !! _ = Some ?x |- h2h_counts_sane _ =>
           pose proof (Hhstep "" x (Hh _ _ E)); by destruct_and!
       end ]).
Qed.

Lemma lookup_records_sane fight ctx recs ctx' :
  context_sane ctx ->
  lookup_records realloc fight ctx = Some (recs, ctx') ->
  context_sane ctx'
  /\ (forall r, recs.1.1 = Some r -> fighter_counts_sane r)
  /\ (forall r, recs.1.2 = Some r -> fighter_counts_sane r)
  /\ (forall h, recs.2 = Some h -> h2h_counts_sane h).
Proof.
  intros Hctx. unfold lookup_records.
  pose proof (get_or_add_fighter_sane ctx (fighter1 fight) (weight_class fight) Hctx)
    as H1.
  destruct (get_or_add_fighter realloc ctx _ _) as [r1 ctx1]. cbn [snd] in H1.
  pose proof (get_or_add_fighter_sane ctx1 (fighter2 fight) (weight_class fight) H1)
    as H2.
  destruct (get_or_add_fighter realloc ctx1 _ _) as [r2 ctx2]. cbn [snd] in H2.
  pose proof (get_or_add_h2h_sane ctx2 (fighter1 fight) (fighter2 fight)
                (weight_class fight) H2) as H3.
  destruct (get_or_add_h2h realloc ctx2 _ _ _) as [h ctx3]. cbn [snd] in H3.
  destruct H3 as [Hf Hh]. rewrite Forall_lookup in Hf. rewrite Forall_lookup in Hh.
  assert (forall p x, read_fighter ctx3 p = Some (Some x) -> fighter_counts_sane x)
    as Hread.
  { intros [p|] x; [|done]. unfold read_fighter. case_match; [|done].
    intros [= Hx]. by eapply Hf. }
  assert (forall p x, read_h2h ctx3 p = Some (Some x) -> h2h_counts_sane x) as Hreadh.
  { intros [p|] x; [|done]. unfold read_h2h. case_match; [|done].
    intros [= Hx]. by eapply Hh. }
  destruct (read_fighter ctx3 r1) as [x1|] eqn:E1; [|done].
  destruct (read_fighter ctx3 r2) as [x2|] eqn:E2; [|done].
  destruct (read_h2h ctx3 h) as [xh|] eqn:E3; [|done].
  intros [= <- <-]. cbn [fst snd].
  split; [by split; apply Forall_lookup|].
  split; [intros r ->; by eapply Hread|].
  split; [intros r ->; by eapply Hread|intros r ->; by eapply Hreadh].
Qed.

Lemma record_all_sane ctx fights ctx' :
  context_sane ctx -> record_all realloc ctx fights = Some ctx' -> context_sane ctx'.
Proof.
  revert ctx. induction fights as [|f fights IH]; intros ctx Hctx; simpl.
  - by intros [= <-].
  - destruct (update_context_with_result realloc ctx f) as [ctx1|] eqn:E; [|done].
    simpl. apply IH. by eapply update_context_with_result_sane.
Qed.

End ContextSanity.

(** Whatever the labels are (draws included), and whether allocations succeed
    or fail, every update that completes (one that writes through no record
    pointer taken before a [realloc] that moved the array) keeps every counter
    sane: in each fighter record [0 <= wins], [0 <= losses] and
    [wins + losses <= total]; in each head-to-head record [0 <= wins_a],
    [0 <= wins_b] and [wins_a + wins_b <= total].  When [realloc] never moves
    an array, replaying any list of fights from the empty context completes,
    with sane counters. *)
Theorem context_counts_sane (realloc : Z -> ReallocResult) :
  context_sane init_context
  /\ (forall ctx fight ctx',
        context_sane ctx ->
        update_context_with_result realloc ctx fight = Some ctx' ->
        context_sane ctx')
  /\ (forall ctx fight features ctx',
        context_sane ctx ->
        compute_features realloc fight ctx = Some (features, ctx') ->
        context_sane ctx')
  /\ (forall fights ctx,
        record_all realloc init_context fights = Some ctx -> context_sane ctx)
  /\ ((forall cap, realloc cap <> ReallocMoves) ->
      forall fights,
        exists ctx, record_all realloc init_context fights = Some ctx
                    /\ context_sane ctx).
Proof.
  assert (context_sane init_context) as Hinit by (split; constructor).
  split; [done|]. split; [|split; [|split]].
  - intros ctx fight ctx'. apply update_context_with_result_sane.
  - intros ctx fight features ctx' Hctx. unfold compute_features.
    destruct (lookup_records realloc fight ctx) as [[recs ctx1]|] eqn:E; [|done].
    intros [= _ <-]. by destruct (lookup_records_sane realloc fight ctx recs ctx1 Hctx E).
  - intros fights ctx. by apply record_all_sane.
  - intros Hstay fights.
    destruct (record_all_defined realloc init_context fights Hstay) as [ctx Hrun].
    exists ctx. split; [done|]. by eapply record_all_sane.
Qed.

Lemma context_counts_sane_witness :
  exists ctx,
    record_all (fun _ => ReallocInPlace) init_context
      [sample_fight "2020-01-18" "Lightweight" "Ann" "Bea" (-1)] = Some ctx
    /\ context_sane ctx.
Proof.
  assert (forall cap : Z, (fun _ : Z => ReallocInPlace) cap <> ReallocMoves) as Hstay
    by (intros cap; cbv beta; congruence).
  exact (proj2 (proj2 (proj2 (proj2 (context_counts_sane (fun _ => ReallocInPlace)))))
           Hstay [sample_fight "2020-01-18" "Lightweight" "Ann" "Bea" (-1)]).
Defined.

Section FeatureBounds.

Local Open Scope R_scope.

Lemma prior_win_rate_range r :
  (forall x, r = Some x -> fighter_counts_sane x) -> 0 < prior_win_rate r < 1.
Proof.
  intros Hr. unfold prior_win_rate. destruct r as [x|]; [|lra].
  destruct (total x =? 0)%Z; [lra|].
  destruct (Hr x eq_refl) as (Hw & Hl & Ht).
  assert (0 <= IZR (wins x)) by (by apply IZR_le).
  assert (IZR (wins x) <= IZR (total x)) by (apply IZR_le; lia).
  split.
  - apply Rdiv_lt_0_compat; lra.
  - apply (Rmult_lt_reg_r (IZR (total x) + 2.0)); [lra|].
    unfold Rdiv. rewrite Rmult_assoc, Rinv_l by lra. lra.
Qed.

Lemma head_to_head_bias_range h f1 f2 :
  (forall x, h = Some x -> h2h_counts_sane x) -> -1 <= head_to_head_bias h f1 f2 <= 1.
Proof.
  intros Hh. unfold head_to_head_bias. destruct h as [x|]; [|lra].
  destruct (Z.eqb_spec (h_total x) 0) as [|Hne]; [lra|].
  destruct (Hh x eq_refl) as (Ha & Hb & Ht).
  assert (0 < IZR (h_total x)) as Hpos by (apply IZR_lt; lia).
  assert (forall d, (- h_total x <= d <= h_total x)%Z ->
                    -1 <= IZR d / IZR (h_total x) <= 1) as Hdiv.
  { intros d [Hd1 Hd2]. apply IZR_le in Hd1, Hd2. rewrite opp_IZR in Hd1.
    split.
    - apply (Rmult_le_reg_r (IZR (h_total x))); [done|].
      unfold Rdiv. rewrite Rmult_assoc, Rinv_l by lra. lra.
    - apply (Rmult_le_reg_r (IZR (h_total x))); [done|].
      unfold Rdiv. rewrite Rmult_assoc, Rinv_l by lra. lra. }
  repeat case_match; simplify_eq; apply Hdiv; lia.
Qed.

Lemma sub_style_range x : (0 <= sub_style x <= 1)%Z.
Proof. unfold sub_style. case_match; lia. Qed.

End FeatureBounds.

(** For a context with sane counters, [compute_features] yields twenty
    features whose prior win-rate delta lies strictly between -1 and 1 and
    whose submission-style delta and head-to-head bias lie in [-1, 1]. *)
Theorem compute_features_bounded (realloc : Z -> ReallocResult) (fight : UFCFight)
    (ctx ctx' : MatchContext) (features : list R) :
  context_sane ctx ->
  compute_features realloc fight ctx = Some (features, ctx') ->
  length features = INPUT_SIZE
  /\ (-1 < nth FEAT_WIN_RATE_DELTA features 0 < 1)%R
  /\ (-1 <= nth FEAT_SUB_STYLE_DELTA features 0 <= 1)%R
  /\ (-1 <= nth FEAT_H2H_DELTA features 0 <= 1)%R.
Proof.
  intros Hctx. unfold compute_features.
  destruct (lookup_records realloc fight ctx) as [[[[r1 r2] h] ctx1]|] eqn:E; [|done].
  intros [= <- <-].
  destruct (lookup_records_sane realloc fight ctx _ _ Hctx E) as (_ & H1 & H2 & H3).
  cbn [fst snd] in *. split; [done|].
  pose proof (prior_win_rate_range r1 H1). pose proof (prior_win_rate_range r2 H2).
  pose proof (head_to_head_bias_range h (fighter1 fight) (fighter2 fight) H3).
  pose proof (sub_style_range (f1_sub_avg fight)) as [Hs1 Hs2].
  pose proof (sub_style_range (f2_sub_avg fight)) as [Hs3 Hs4].
  unfold feature_vector. cbn [nth FEAT_WIN_RATE_DELTA FEAT_SUB_STYLE_DELTA FEAT_H2H_DELTA].
  split; [lra|]. split; [|done].
  split; [replace (-1)%R with (IZR (-1)) by done|]; apply IZR_le; lia.
Qed.

Lemma compute_features_bounded_witness :
  exists features ctx',
    compute_features (fun _ => ReallocInPlace) (sample_fight "2020-01-18" "Lightweight" "Ann" "Bea" 1)
      init_context = Some (features, ctx')
    /\ length features = INPUT_SIZE.
Proof.
  assert (context_sane init_context) as Hinit by (split; constructor).
  assert (exists features ctx',
             compute_features (fun _ => ReallocInPlace)
               (sample_fight "2020-01-18" "Lightweight" "Ann" "Bea" 1) init_context
             = Some (features, ctx')) as (features & ctx' & E)
    by (eexists _, _; reflexivity).
  exists features, ctx'. split; [exact E|].
  exact (proj1 (compute_features_bounded (fun _ => ReallocInPlace) _ init_context ctx'
                  features Hinit E)).
Defined.

(** Exchanging the two corners of a fight negates every feature, provided the
    two names differ: the mirrored sample is the feature vector of the same
    fight seen from the other corner. *)
Theorem feature_vector_swap_corners (fight : UFCFight)
    (r1 r2 : option FighterRecord) (h : option HeadToHeadRecord) :
  fighter1 fight <> fighter2 fight ->
  feature_vector (swap_corners fight) r2 r1 h = Ropp <$> feature_vector fight r1 r2 h.
Proof.
  intros Hne.
  assert (head_to_head_bias h (fighter2 fight) (fighter1 fight)
          = (- head_to_head_bias h (fighter1 fight) (fighter2 fight))%R) as Hbias.
  { unfold head_to_head_bias. destruct h as [x|]; [|lra].
    destruct (h_total x =? 0); [lra|].
    repeat case_bool_decide; simpl; try congruence;
      rewrite <- ?Rdiv_opp_l, <- ?opp_IZR; try (f_equal; f_equal; lia).
    all: change (0 - 0) with 0; lra. }
  unfold feature_vector, swap_corners. cbn -[Rminus IZR head_to_head_bias prior_win_rate
                                            weighted_score sub_style Ropp].
  rewrite Hbias.
  repeat (f_equal; [first [lra | rewrite <- opp_IZR; apply (f_equal IZR); lia]|]).
  f_equal. rewrite <- opp_IZR. apply (f_equal IZR). lia.
Qed.

Lemma feature_vector_swap_corners_witness :
  feature_vector (swap_corners (sample_fight "2020-01-18" "Lightweight" "Ann" "Bea" 1))
    None None None
  = Ropp <$> feature_vector (sample_fight "2020-01-18" "Lightweight" "Ann" "Bea" 1)
               None None None.
Proof.
  assert (fighter1 (sample_fight "2020-01-18" "Lightweight" "Ann" "Bea" 1)
          <> fighter2 (sample_fight "2020-01-18" "Lightweight" "Ann" "Bea" 1)) as Hne
    by (simpl; discriminate).
  exact (feature_vector_swap_corners _ None None None Hne).
Defined.

Section ClassTrainingFacts.

Variable realloc : Z -> ReallocResult.
Hypothesis realloc_succeeds : forall cap, realloc cap <> ReallocFails.

Lemma strncpy_short s n :
  Z.of_nat (String.length s) <= n -> strncpy s n = s.
Proof.
  unfold strncpy. intros H.
  assert (String.length s <= Z.to_nat n)%nat as H' by lia. clear H.
  revert H'. generalize (Z.to_nat n). induction s as [|c s IH]; intros m Hm.
  - by destruct m.
  - destruct m as [|m]; simpl in *; [lia|]. rewrite IH; [done|lia].
Qed.

Lemma class_or_unknown_length f :
  Z.of_nat (String.length (weight_class f)) <= 63 ->
  Z.of_nat (String.length (class_or_unknown f)) <= 63.
Proof. unfold class_or_unknown. destruct (weight_class f); simpl; lia. Qed.

Lemma get_or_add_bucket_spec buckets cap wc :
  Z.of_nat (String.length wc) <= 63 ->
  exists i buckets' cap',
    get_or_add_bucket realloc buckets cap wc = (Some i, buckets', cap')
    /\ ((buckets' = buckets
         /\ exists b, buckets !! i = Some b /\ b_weight_class b = wc)
        \/ (buckets' = buckets ++ [ {| b_weight_class := wc; b_fights := [];
                                       b_cap := 0 |} ]
            /\ i = length buckets /\ wc ∉ (b_weight_class <$> buckets))).
Proof.
  intros Hlen. unfold get_or_add_bucket.
  destruct (list_find _ buckets) as [[i b]|] eqn:Hfind.
  - apply list_find_Some in Hfind as (Hi & Hb & _). eexists _, _, _.
    split; [reflexivity|]. left. eauto.
  - apply list_find_None in Hfind.
    assert (wc ∉ (b_weight_class <$> buckets)) as Hnew.
    { intros (b & Hb & Hin)%list_elem_of_fmap. rewrite Forall_forall in Hfind.
      by apply (Hfind b Hin). }
    rewrite strncpy_short by done.
    destruct (_ >=? _).
    + destruct (realloc _) eqn:E; [by destruct (realloc_succeeds _ E)|..];
        eexists _, _, _; (split; [reflexivity|]); right; done.
    + eexists _, _, _. split; [reflexivity|]. right. done.
Qed.

Lemma bucket_push_fight_spec bucket fight :
  exists cap, bucket_push_fight realloc bucket fight
              = Some {| b_weight_class := b_weight_class bucket;
                        b_fights := b_fights bucket ++ [fight]; b_cap := cap |}.
Proof.
  unfold bucket_push_fight. destruct (_ >=? _); [|by eexists].
  destruct (realloc _) eqn:E; [by destruct (realloc_succeeds _ E)|..]; by eexists.
Qed.

Lemma filter_class_snoc seen fight name :
  List.filter (fun f => String.eqb (class_or_unknown f) name) (seen ++ [fight])
  = List.filter (fun f => String.eqb (class_or_unknown f) name) seen
    ++ (if String.eqb (class_or_unknown fight) name then [fight] else []).
Proof. by rewrite List.filter_app. Qed.

Lemma filter_class_nil seen name :
  (forall f, f ∈ seen -> class_or_unknown f <> name) ->
  List.filter (fun f => String.eqb (class_or_unknown f) name) seen = [].
Proof.
  induction seen as [|g seen IH]; intros Hno; [done|]. simpl.
  rewrite (proj2 (String.eqb_neq _ _)) by (apply Hno, list_elem_of_here).
  apply IH. intros f Hf. by apply Hno, list_elem_of_further.
Qed.

Lemma buckets_of_step seen buckets cap fight :
  Z.of_nat (String.length (weight_class fight)) <= 63 ->
  buckets_of seen buckets ->
  exists i buckets1 cap1 b b',
    get_or_add_bucket realloc buckets cap (class_or_unknown fight)
    = (Some i, buckets1, cap1)
    /\ buckets1 !! i = Some b
    /\ bucket_push_fight realloc b fight = Some b'
    /\ buckets_of (seen ++ [fight]) (<[i := b']> buckets1).
Proof.
  intros Hlen (Hnd & Hall & Hcov).
  set (wc := class_or_unknown fight).
  assert (forall f, f ∈ seen ++ [fight] -> f ∈ seen \/ f = fight) as Hsnoc.
  { intros f [Hf|Hf%list_elem_of_singleton]%elem_of_app; auto. }
  destruct (get_or_add_bucket_spec buckets cap wc (class_or_unknown_length _ Hlen))
    as (i & buckets1 & cap1 & Hget & [[-> (b & Hi & Hb)]|(-> & -> & Hnew)]).
  - destruct (bucket_push_fight_spec b fight) as [cap' Hpush].
    eexists i, buckets, cap1, b, _. split; [done|]. split; [done|].
    split; [exact Hpush|].
    assert (b_weight_class <$> <[i := {| b_weight_class := b_weight_class b;
                                         b_fights := b_fights b ++ [fight];
                                         b_cap := cap' |}]> buckets
            = b_weight_class <$> buckets) as Hnames.
    { rewrite list_fmap_insert. apply list_insert_id.
      by rewrite list_lookup_fmap, Hi. }
    split; [by rewrite Hnames|]. split.
    + rewrite Forall_lookup in Hall. apply Forall_lookup. intros j bj Hj.
      destruct (decide (i = j)) as [<-|Hne].
      * rewrite list_lookup_insert_eq in Hj by (by eapply lookup_lt_Some).
        injection Hj as <-. cbn [b_fights b_weight_class].
        destruct (Hall i b Hi) as [Hfl _]. rewrite filter_class_snoc, <- Hfl.
        fold wc. rewrite Hb, String.eqb_refl. split; [done|].
        by destruct (b_fights b).
      * rewrite list_lookup_insert_ne in Hj by done.
        destruct (Hall j bj Hj) as [Hfl Hne']. rewrite filter_class_snoc.
        rewrite (proj2 (String.eqb_neq _ _)); [by rewrite app_nil_r|].
        fold wc. rewrite <- Hb. intros Heq. apply Hne.
        apply (NoDup_lookup _ i j (b_weight_class b) Hnd);
          rewrite list_lookup_fmap; [by rewrite Hi|by rewrite Hj, Heq].
    + rewrite Hnames. intros f [Hf| ->]%Hsnoc; [by apply Hcov|].
      apply list_elem_of_fmap. exists b. split; [done|].
      by eapply list_elem_of_lookup_2.
  - set (new := {| b_weight_class := wc; b_fights := []; b_cap := 0 |}).
    destruct (bucket_push_fight_spec new fight) as [cap' Hpush].
    eexists (length buckets), (buckets ++ [new]), cap1, new, _.
    split; [done|]. split; [by rewrite lookup_app_r, Nat.sub_diag by lia|].
    split; [exact Hpush|].
    replace (length buckets) with (length buckets + 0)%nat by lia.
    rewrite insert_app_r. cbn [insert list_insert b_weight_class b_fights app].
    split; [|split].
    + rewrite fmap_app. apply NoDup_app. split; [done|]. split.
      * intros x Hx [->|[]%elem_of_nil]%elem_of_cons. done.
      * apply NoDup_singleton.
    + apply Forall_app. split.
      * rewrite Forall_forall in Hall. apply Forall_forall. intros bj Hbj.
        destruct (Hall bj Hbj) as [Hfl Hne].
        split; [|done]. rewrite filter_class_snoc.
        destruct (String.eqb_spec (class_or_unknown fight) (b_weight_class bj))
          as [Heq|_]; [|by rewrite app_nil_r].
        exfalso. apply Hnew. fold wc in Heq. rewrite Heq.
        apply list_elem_of_fmap. by exists bj.
      * constructor; [|constructor]. subst new. cbn [b_fights b_weight_class app].
        split; [|done]. rewrite filter_class_snoc. fold wc.
        rewrite String.eqb_refl, filter_class_nil; [done|].
        intros f Hf Heq. apply Hnew. rewrite <- Heq. by apply Hcov.
    + intros f [Hf| ->]%Hsnoc; rewrite fmap_app, elem_of_app.
      * left. by apply Hcov.
      * right. apply list_elem_of_here.
Qed.

Lemma bucket_fights_spec fights seen buckets cap :
  Forall (fun f => Z.of_nat (String.length (weight_class f)) <= 63) fights ->
  buckets_of seen buckets ->
  exists buckets' cap',
    bucket_fights realloc fights buckets cap = Some (buckets', cap')
    /\ buckets_of (seen ++ fights) buckets'.
Proof.
  intros Hlen. revert seen buckets cap.
  induction Hlen as [|fight fights Hf _ IH]; intros seen buckets cap Hinv.
  - eexists _, _. split; [reflexivity|]. by rewrite app_nil_r.
  - destruct (buckets_of_step seen buckets cap fight Hf Hinv)
      as (i & buckets1 & cap1 & b & b' & Hget & Hi & Hpush & Hinv').
    cbn [bucket_fights]. rewrite Hget, Hi. cbn [mbind option_bind]. rewrite Hpush.
    cbn [mbind option_bind].
    replace (seen ++ fight :: fights) with ((seen ++ [fight]) ++ fights)
      by (by rewrite <- app_assoc).
    by apply IH.
Qed.

Lemma buckets_of_nil : buckets_of [] [].
Proof.
  split; [constructor|]. split; [constructor|]. by intros f Hf%elem_of_nil.
Qed.


End ClassTrainingFacts.

Section ClassModelFacts.

Variable trained : list UFCFight -> list Byte.byte.
Variable can_create : string -> bool.
Hypothesis trained_size : forall fights, length (trained fights) = Z.to_nat sizeof_Model.

Lemma train_buckets_keeps buckets fs fs' path :
  train_buckets trained can_create buckets fs = (0, fs') ->
  model_file fs path -> model_file fs' path.
Proof.
  revert fs. induction buckets as [|b buckets IH]; intros fs; simpl.
  - by intros [= <-].
  - destruct (_ <? 20); [apply IH|].
    destruct (build_class_model_path _ _) as [p|]; [|done].
    unfold save_model. destruct (can_create p); [|done].
    intros Hrest Hfile. apply (IH _ Hrest).
    destruct (decide (p = path)) as [->|Hne].
    + eexists. split; [apply lookup_insert_eq|].
      rewrite length_take, trained_size. lia.
    + destruct Hfile as (content & Hc & Hl). exists content.
      split; [|done]. rewrite <- Hc. by apply lookup_insert_ne.
Qed.

Lemma train_buckets_saved buckets fs fs' b :
  train_buckets trained can_create buckets fs = (0, fs') ->
  b ∈ buckets -> 20 <= Z.of_nat (length (b_fights b)) ->
  exists path, build_class_model_path (Some (b_weight_class b)) 256 = Some path
               /\ model_file fs' path.
Proof.
  revert fs. induction buckets as [|b0 buckets IH]; intros fs Hrun Hin Hcount.
  - by apply elem_of_nil in Hin.
  - simpl in Hrun. apply elem_of_cons in Hin as [->|Hin].
    + rewrite (proj2 (Z.ltb_ge _ _)) in Hrun by lia.
      destruct (build_class_model_path _ _) as [p|]; [|done].
      exists p. split; [done|]. revert Hrun. unfold save_model.
      destruct (can_create p); [|done]. intros Hrest.
      apply (train_buckets_keeps _ _ _ _ Hrest).
      eexists. split; [apply lookup_insert_eq|].
      rewrite length_take, trained_size. lia.
    + destruct (Z.of_nat (length (b_fights b0)) <? 20); [by eapply IH|].
      destruct (build_class_model_path (Some (b_weight_class b0)) 256) as [p|];
        [|done].
      revert Hrun. unfold save_model. destruct (can_create p); [|done].
      intros Hrest. by eapply IH.
Qed.

End ClassModelFacts.

(** When every allocation succeeds, the first loop of [train_models_by_class]
    splits the fights into one bucket per weight class (an empty class name
    counts as [Unknown]): the bucket names are distinct, every fight's class
    has a bucket, and each bucket holds exactly the fights of its class, in
    their original order. *)
Theorem bucket_fights_partition (realloc : Z -> ReallocResult)
    (fights : list UFCFight) :
  (forall cap, realloc cap <> ReallocFails) ->
  Forall (fun f => Z.of_nat (String.length (weight_class f)) <= 63) fights ->
  exists buckets bucket_cap,
    bucket_fights realloc fights [] 0 = Some (buckets, bucket_cap)
    /\ NoDup (b_weight_class <$> buckets)
    /\ (forall b, b ∈ buckets ->
          b_fights b = List.filter (fun f => String.eqb (class_or_unknown f)
                                               (b_weight_class b)) fights
          /\ b_fights b <> [])
    /\ (forall f, f ∈ fights -> class_or_unknown f ∈ (b_weight_class <$> buckets)).
Proof.
  intros Hok Hlen.
  destruct (bucket_fights_spec realloc Hok fights [] [] 0 Hlen buckets_of_nil)
    as (buckets & cap & Hrun & Hnd & Hall & Hcov).
  exists buckets, cap. split; [done|]. split; [done|]. split; [|done].
  by apply Forall_forall.
Qed.

Lemma bucket_fights_partition_witness :
  exists buckets bucket_cap,
    bucket_fights (fun _ => ReallocInPlace) two_bouts [] 0 = Some (buckets, bucket_cap)
    /\ NoDup (b_weight_class <$> buckets).
Proof.
  assert (forall cap : Z, (fun _ : Z => ReallocInPlace) cap <> ReallocFails) as Hok
    by discriminate.
  assert (Forall (fun f => Z.of_nat (String.length (weight_class f)) <= 63) two_bouts)
    as Hlen by (repeat constructor; simpl; lia).
  destruct (bucket_fights_partition (fun _ => ReallocInPlace) two_bouts Hok Hlen)
    as (buckets & cap & Hrun & Hnd & _).
  exists buckets, cap. split; [exact Hrun|exact Hnd].
Defined.

(** When [train_models_by_class] returns 0, every weight class with at least
    20 fights has its model file [ufc_model_<slug>.bin] in place, of the size
    of the [Model] record, so that [load_model] accepts it. *)
Theorem train_models_by_class_saved (realloc : Z -> ReallocResult)
    (trained : list UFCFight -> list Byte.byte) (can_create : string -> bool)
    (fights : list UFCFight) (fs fs' : FileSystem) (wc : string) (m : list Byte.byte) :
  (forall cap, realloc cap <> ReallocFails) ->
  (forall fights, length (trained fights) = Z.to_nat sizeof_Model) ->
  Forall (fun f => Z.of_nat (String.length (weight_class f)) <= 63) fights ->
  train_models_by_class realloc trained can_create fights fs = (0, fs') ->
  20 <= Z.of_nat (length (List.filter (fun f => String.eqb (class_or_unknown f) wc)
                            fights)) ->
  exists path content,
    build_class_model_path (Some wc) 256 = Some path
    /\ fs' !! path = Some content
    /\ load_model m path fs' = (0, content).
Proof.
  intros Hok Hsize Hlen Hrun Hcount. unfold train_models_by_class in Hrun.
  destruct (bucket_fights_spec realloc Hok fights [] [] 0 Hlen buckets_of_nil)
    as (buckets & cap & Hb & Hnd & Hall & Hcov).
  rewrite Hb in Hrun. cbn [app] in *.
  assert (exists f, f ∈ fights /\ class_or_unknown f = wc) as (f & Hf & Hwc).
  { destruct (List.filter _ fights) as [|f l] eqn:E; [simpl in Hcount; lia|].
    assert (In f (List.filter (fun f => String.eqb (class_or_unknown f) wc) fights))
      as Hin by (rewrite E; by left).
    apply filter_In in Hin as [Hin Heq]. exists f.
    split; [by apply list_elem_of_In|by apply String.eqb_eq]. }
  apply Hcov, list_elem_of_fmap in Hf as (b & Hname & Hbin).
  rewrite Forall_forall in Hall. destruct (Hall b Hbin) as [Hfl _].
  rewrite Hwc in Hname. subst wc.
  destruct (train_buckets_saved trained can_create Hsize buckets fs fs' b Hrun Hbin)
    as (path & Hpath & content & Hfile & Hl).
  { by rewrite Hfl. }
  exists path, content. split; [done|]. split; [done|].
  rewrite (load_model_large m path fs' content Hfile) by lia.
  by rewrite take_ge by lia.
Qed.

Lemma train_models_by_class_saved_witness :
  exists path content,
    build_class_model_path (Some "Lightweight") 256 = Some path
    /\ (<["ufc_model_lightweight.bin" := take (Z.to_nat sizeof_Model) blank_model]>
         (∅ : FileSystem)) !! path = Some content
    /\ load_model [] path
         (<["ufc_model_lightweight.bin" := take (Z.to_nat sizeof_Model) blank_model]> ∅)
       = (0, content).
Proof.
  apply (train_models_by_class_saved (fun _ => ReallocInPlace) (fun _ => blank_model)
           (fun _ => true) twenty_bouts ∅).
  - intros cap. cbv beta. congruence.
  - intros _. apply length_replicate.
  - apply Forall_replicate. simpl. lia.
  - cbv -[blank_model take Z.to_nat sizeof_Model]. reflexivity.
  - vm_compute. discriminate.
Defined.

Section ReportFacts.

Variable realloc : Z -> ReallocResult.

Lemma report_step_confusion t samples c stats cap :
  (fold_left (report_step realloc t) samples (c, stats, cap)).1.1
  = fold_left (count_sample t) (fst <$> samples) c.
Proof.
  revert c stats cap. induction samples as [|[[p y] wc] samples IH];
    intros c stats cap; [done|].
  cbn [fold_left fmap list_fmap fst]. unfold report_step at 2.
  destruct (get_or_add_class_stats realloc stats cap wc) as [[[i|] stats'] cap'];
    apply IH.
Qed.

Lemma sum_total_app l1 l2 : sum_total (l1 ++ l2) = sum_total l1 + sum_total l2.
Proof. induction l1 as [|s l1 IH]; simpl; [done|]. rewrite IH. lia. Qed.

Lemma sum_correct_app l1 l2 : sum_correct (l1 ++ l2) = sum_correct l1 + sum_correct l2.
Proof. induction l1 as [|s l1 IH]; simpl; [done|]. rewrite IH. lia. Qed.

Lemma sum_alter_count predicted true_class i stats s :
  stats !! i = Some s ->
  sum_total (alter (count_in_class predicted true_class) i stats) = sum_total stats + 1
  /\ sum_correct (alter (count_in_class predicted true_class) i stats)
     = sum_correct stats + (if predicted =? true_class then 1 else 0).
Proof.
  revert i. induction stats as [|s0 stats IH]; intros i Hi; [done|].
  destruct i as [|i]; simpl in Hi.
  - injection Hi as ->. simpl. case_match; lia.
  - destruct (IH i Hi) as [E1 E2].
    change (alter ?f (S i) (s0 :: stats)) with (s0 :: alter f i stats).
    cbn [sum_total sum_correct]. rewrite E1, E2. lia.
Qed.


Lemma get_or_add_class_stats_spec stats cap wc :
  (forall cap, realloc cap <> ReallocFails) ->
  exists i stats' cap' s,
    get_or_add_class_stats realloc stats cap wc = (Some i, stats', cap')
    /\ stats' !! i = Some s
    /\ sum_total stats' = sum_total stats
    /\ sum_correct stats' = sum_correct stats
    /\ (Forall class_counts_ok stats -> Forall class_counts_ok stats').
Proof.
  intros Hok. unfold get_or_add_class_stats.
  destruct (list_find _ stats) as [[i s]|] eqn:Hfind.
  - apply list_find_Some in Hfind as (Hi & _). by eexists i, stats, cap, s.
  - assert (forall slot (cap' : Z),
               cs_total slot = 0 -> cs_correct slot = 0 ->
               exists i stats' cap'' s,
                 (Some (length stats), stats ++ [slot], cap')
                 = (Some i, stats', cap'')
                 /\ stats' !! i = Some s
                 /\ sum_total stats' = sum_total stats
                 /\ sum_correct stats' = sum_correct stats
                 /\ (Forall class_counts_ok stats -> Forall class_counts_ok stats'))
      as Hnew.
    { intros slot cap' Ht Hc. eexists _, _, _, slot. split; [reflexivity|].
      split; [by rewrite lookup_app_r, Nat.sub_diag by lia|].
      rewrite sum_total_app, sum_correct_app. simpl. rewrite Ht, Hc.
      split; [lia|]. split; [lia|]. intros Hall. apply Forall_app. split; [done|].
      constructor; [|constructor]. unfold class_counts_ok. lia. }
    destruct (_ >=? _); [|by apply Hnew].
    destruct (realloc _) eqn:E; [by destruct (Hok _ E)|..]; by apply Hnew.
Qed.

Lemma report_fold_classes t samples c stats cap :
  (forall cap, realloc cap <> ReallocFails) ->
  let result := fold_left (report_step realloc t) samples (c, stats, cap) in
  sum_total result.1.2 = sum_total stats + Z.of_nat (length samples)
  /\ sum_correct result.1.2 - (stp result.1.1 + stn result.1.1)
     = sum_correct stats - (stp c + stn c)
  /\ (Forall class_counts_ok stats -> Forall class_counts_ok result.1.2).
Proof.
  intros Hok. revert c stats cap.
  induction samples as [|[[p y] wc] samples IH]; intros c stats cap.
  - simpl. split; [lia|]. split; [lia|done].
  - cbn [fold_left].
    destruct (get_or_add_class_stats_spec stats cap wc Hok)
      as (i & stats' & cap' & s & Hget & Hi & Ht & Hc & Hall).
    assert (report_step realloc t (c, stats, cap) (p, y, wc)
            = (count_sample t c (p, y),
               alter (count_in_class (pred_class p t) y) i stats', cap')) as ->
      by (unfold report_step; by rewrite Hget).
    destruct (sum_alter_count (pred_class p t) y i stats' s Hi) as [Et Ec].
    destruct (IH (count_sample t c (p, y))
                 (alter (count_in_class (pred_class p t) y) i stats') cap')
      as (IH1 & IH2 & IH3).
    cbv zeta. split; [rewrite IH1, Et, Ht; simpl length; lia|].
    split.
    + etrans; [exact IH2|]. rewrite Ec, Hc. unfold count_sample. cbn [fst snd].
      unfold pred_class. destruct (Qle_bool t p); repeat case_match; simpl; lia.
    + intros Hs. apply IH3, Forall_alter; [by apply Hall|].
      intros x _ [H1 H2]. unfold class_counts_ok, count_in_class. simpl.
      case_match; lia.
Qed.

Lemma fold_count_total t samples c :
  Forall (fun sample : Q * Z => sample.2 = 0 \/ sample.2 = 1) samples ->
  let c' := fold_left (count_sample t) samples c in
  stp c' + stn c' + sfp c' + sfn c'
  = stp c + stn c + sfp c + sfn c + Z.of_nat (length samples).
Proof.
  intros Hall. revert c. induction Hall as [|[p y] samples Hy _ IH]; intros c.
  - simpl. lia.
  - cbn [fold_left]. cbv zeta in IH. rewrite IH. unfold count_sample, pred_class.
    cbn [fst snd] in *.
    destruct (Qle_bool t p), Hy as [-> | ->]; simpl; lia.
Qed.

End ReportFacts.

Section MetricFacts.

Local Open Scope Q_scope.

Lemma rate_range' num den : (0 <= num <= den)%Z -> 0 <= rate num den <= 1.
Proof.
  intros H. replace den with (num + (den - num))%Z by lia.
  apply rate_range; lia.
Qed.

Lemma f1_range p r :
  0 <= p <= 1 -> 0 <= r <= 1 ->
  0 <= (if negb (Qle_bool (p + r) 0) then 2 * p * r / (p + r) else 0) <= 1.
Proof.
  intros Hp Hr. destruct (Qle_bool (p + r) 0) eqn:E; cbn [negb]; [lra|].
  assert (0 < p + r) as Hpos.
  { apply Qnot_le_lt. intros Hle. apply Qle_bool_iff in Hle. congruence. }
  split.
  - apply Qle_shift_div_l; [done|]. nra.
  - apply Qle_shift_div_r; [done|]. nra.
Qed.

End MetricFacts.

Lemma evaluate_report_fold realloc samples :
  exists stats cap,
    fold_left (report_step realloc (threshold_search (fst <$> samples)).1) samples
      ({| stp := 0; stn := 0; sfp := 0; sfn := 0 |}, [], 0)
    = (confusion_at (threshold_search (fst <$> samples)).1 (fst <$> samples),
       stats, cap).
Proof.
  pose proof (report_step_confusion realloc (threshold_search (fst <$> samples)).1
                samples {| stp := 0; stn := 0; sfp := 0; sfn := 0 |} [] 0) as Hc.
  destruct (fold_left _ samples _) as [[c stats] cap]. cbn [fst] in Hc.
  exists stats, cap. by rewrite Hc.
Qed.

(** Every rate of the report of [evaluate_model] lies in [0, 1]; the balanced
    accuracy it prints is the one the threshold search ended with, the largest
    over the grid; with labels 0 or 1 the four counts add up to the number of
    validation samples. *)
Theorem evaluate_report_metrics (realloc : Z -> ReallocResult)
    (samples : list (Q * Z * string)) :
  let r := evaluate_report realloc samples in
  (0 <= accuracy r <= 1 /\ 0 <= precision r <= 1 /\ 0 <= recall r <= 1
   /\ 0 <= specificity r <= 1 /\ 0 <= f1 r <= 1)%Q
  /\ balanced_accuracy r = (threshold_search (fst <$> samples)).2
  /\ (forall step, 20 <= step <= 80 ->
        (bal_acc (grid_threshold step) (fst <$> samples) <= balanced_accuracy r)%Q)
  /\ (Forall (fun sample : Q * Z * string => sample.1.2 = 0 \/ sample.1.2 = 1) samples ->
      tp r + tn r + fp r + fn r = Z.of_nat (length samples)).
Proof.
  intros r. subst r. unfold evaluate_report.
  destruct (evaluate_report_fold realloc samples) as (stats & cap & ->).
  set (probs := fst <$> samples).
  set (c := confusion_at (threshold_search probs).1 probs).
  destruct (confusion_at_nonneg (threshold_search probs).1 probs) as (H1 & H2 & H3 & H4).
  fold c in H1, H2, H3, H4.
  cbn [accuracy precision recall specificity f1 balanced_accuracy tp tn fp fn].
  assert (0 <= rate (stp c) (stp c + sfp c) <= 1)%Q as Hp by (apply rate_range; lia).
  assert (0 <= rate (stp c) (stp c + sfn c) <= 1)%Q as Hr by (apply rate_range; lia).
  assert (0 <= rate (stn c) (stn c + sfp c) <= 1)%Q as Hs by (apply rate_range; lia).
  split; [|split; [|split]].
  - split; [apply rate_range'; lia|]. split; [done|]. split; [done|].
    split; [done|]. by apply f1_range.
  - destruct (threshold_search_first_max probs) as (step & _ & Hts & _).
    subst c. rewrite Hts. reflexivity.
  - intros step Hstep.
    destruct (threshold_search_first_max probs) as (step0 & _ & Hts & Hmax & _).
    subst c. rewrite Hts. cbn [fst]. by apply Hmax.
  - intros Hlabels.
    pose proof (fold_count_total (threshold_search probs).1 probs
                  {| stp := 0; stn := 0; sfp := 0; sfn := 0 |}) as Htot.
    cbv zeta in Htot. fold (confusion_at (threshold_search probs).1 probs) in Htot.
    fold c in Htot. rewrite Htot.
    + subst probs. rewrite length_fmap. simpl. lia.
    + subst probs. apply Forall_fmap. eapply Forall_impl; [exact Hlabels|].
      by intros [[p y] wc].
Qed.

Lemma evaluate_report_metrics_witness :
  let r := evaluate_report (fun _ => ReallocInPlace)
             [ ((9 # 10)%Q, 1, "Lightweight"); ((1 # 10)%Q, 0, "Welterweight") ] in
  tp r + tn r + fp r + fn r = 2.
Proof.
  assert (Forall (fun sample : Q * Z * string => sample.1.2 = 0 \/ sample.1.2 = 1)
            [ ((9 # 10)%Q, 1, "Lightweight"); ((1 # 10)%Q, 0, "Welterweight") ])
    as Hlabels by (repeat constructor; simpl; auto).
  exact (proj2 (proj2 (proj2 (evaluate_report_metrics (fun _ => ReallocInPlace)
           [ ((9 # 10)%Q, 1, "Lightweight"); ((1 # 10)%Q, 0, "Welterweight") ])))
           Hlabels).
Defined.

(** When every allocation succeeds, the per-class table of [evaluate_model]
    accounts for every validation sample once: the class totals add up to the
    number of samples, the class hits to [tp + tn], and no class has more hits
    than samples. *)
Theorem evaluate_report_classes (realloc : Z -> ReallocResult)
    (samples : list (Q * Z * string)) :
  (forall cap, realloc cap <> ReallocFails) ->
  let r := evaluate_report realloc samples in
  sum_total (class_stats r) = Z.of_nat (length samples)
  /\ sum_correct (class_stats r) = tp r + tn r
  /\ Forall (fun s => 0 <= cs_correct s <= cs_total s) (class_stats r).
Proof.
  intros Hok r. subst r. unfold evaluate_report.
  pose proof (report_fold_classes realloc (threshold_search (fst <$> samples)).1
                samples {| stp := 0; stn := 0; sfp := 0; sfn := 0 |} [] 0 Hok)
    as (Ht & Hc & Hall).
  destruct (fold_left _ samples _) as [[c stats] cap].
  cbn [fst snd class_stats tp tn sum_total sum_correct stp stn] in *.
  split; [lia|]. split; [lia|]. by apply Hall.
Qed.

Lemma evaluate_report_classes_witness :
  let r := evaluate_report (fun _ => ReallocInPlace)
             [ ((9 # 10)%Q, 1, "Lightweight"); ((1 # 10)%Q, 0, "Welterweight") ] in
  sum_total (class_stats r) = 2.
Proof.
  assert (forall cap : Z, (fun _ : Z => ReallocInPlace) cap <> ReallocFails) as Hok
    by discriminate.
  exact (proj1 (evaluate_report_classes (fun _ => ReallocInPlace)
           [ ((9 # 10)%Q, 1, "Lightweight"); ((1 # 10)%Q, 0, "Welterweight") ] Hok)).
Defined.

Lemma swap_slots_Some {A} (a : list A) (i j : Z) :
  0 <= j <= i -> i < Z.of_nat (length a) ->
  exists a', swap_slots a i j = Some a' /\ length a' = length a /\ a' ≡ₚ a
             /\ forall (B : Type) (b b' : list B),
                  length b = length a -> swap_slots b i j = Some b' ->
                  zip a' b' ≡ₚ zip a b.
Proof.
  intros Hj Hi. unfold swap_slots.
  rewrite (proj2 (Z.leb_le 0 i)), (proj2 (Z.leb_le 0 j)) by lia. cbn [andb].
  destruct (lookup_lt_is_Some_2 a (Z.to_nat i)) as [x Ex]; [lia|].
  destruct (lookup_lt_is_Some_2 a (Z.to_nat j)) as [y Ey]; [lia|].
  rewrite Ex, Ey. eexists. split; [reflexivity|].
  split; [by rewrite !length_insert|]. split; [by apply Permutation_insert_swap|].
  intros B b b' Hlen.
  destruct (lookup_lt_is_Some_2 b (Z.to_nat i)) as [x' Ex']; [lia|].
  destruct (lookup_lt_is_Some_2 b (Z.to_nat j)) as [y' Ey']; [lia|].
  rewrite Ex', Ey'. intros [= <-]. rewrite <- !insert_zip_with.
  apply Permutation_insert_swap; by apply lookup_zip_Some.
Qed.

Lemma shuffle_from_spec rand i calls data labels :
  (forall k, 0 <= rand k) ->
  length data = length labels -> (i < length data \/ i = 0)%nat ->
  exists data' labels',
    shuffle_from rand i calls data labels = Some (data', labels', (calls + i)%nat)
    /\ zip data' labels' ≡ₚ zip data labels
    /\ length data' = length data /\ length labels' = length labels.
Proof.
  intros Hrand. revert calls data labels.
  induction i as [|i IH]; intros calls data labels Hlen Hi.
  - exists data, labels. rewrite Nat.add_0_r. done.
  - cbn [shuffle_from]. cbv zeta.
    set (j := Z.rem (rand calls) (Z.of_nat (S i) + 1)).
    assert (0 <= j <= Z.of_nat (S i)) as Hj.
    { pose proof (Z.rem_bound_pos (rand calls) (Z.of_nat (S i) + 1) (Hrand calls)).
      lia. }
    destruct (swap_slots_Some data (Z.of_nat (S i)) j Hj ltac:(lia))
      as (data1 & -> & Hd & _ & Hzip).
    destruct (swap_slots_Some labels (Z.of_nat (S i)) j Hj ltac:(lia))
      as (labels1 & Hl1 & Hl & _ & _).
    rewrite Hl1. cbn [mbind option_bind].
    destruct (IH (S calls) data1 labels1) as (data' & labels' & -> & Hp & Hd' & Hl');
      [lia|lia|].
    exists data', labels'. replace (S calls + i)%nat with (calls + S i)%nat by lia.
    split; [done|]. split; [|lia]. rewrite Hp. by apply Hzip.
Qed.

(** With [rand] never negative, the shuffle of an epoch stays inside the
    arrays, permutes the training samples keeping every label with its row,
    and makes [train_count - 1] calls of [rand]. *)
Theorem shuffle_permutes (rand : nat -> Z) (calls : nat)
    (data : list (list R)) (labels : list R) :
  (forall k, 0 <= rand k) ->
  length data = length labels ->
  exists data' labels',
    shuffle rand calls data labels
    = Some (data', labels', (calls + (length data - 1))%nat)
    /\ zip data' labels' ≡ₚ zip data labels
    /\ length data' = length data /\ length labels' = length labels.
Proof. intros Hrand Hlen. apply shuffle_from_spec; (done || lia). Qed.

Lemma shuffle_permutes_witness :
  exists data' labels',
    shuffle (fun k => Z.of_nat k + 7) 0 two_rows [1%R; 0%R] = Some (data', labels', 1%nat)
    /\ zip data' labels' ≡ₚ zip two_rows [1%R; 0%R].
Proof.
  assert (forall k, 0 <= (fun k => Z.of_nat k + 7) k) as Hrand by (intros; lia).
  assert (length two_rows = length [1%R; 0%R]) as Hlen by reflexivity.
  destruct (shuffle_permutes (fun k => Z.of_nat k + 7) 0 two_rows [1%R; 0%R] Hrand Hlen)
    as (data' & labels' & Hrun & Hp & _).
  exists data', labels'. split; [exact Hrun|exact Hp].
Defined.

Section LoaderFacts.

Variable atof : string -> R.

Lemma read_text_length line col size :
  1 <= size -> Z.of_nat (String.length (read_text line col size)) <= size - 1.
Proof.
  intros Hsize. unfold read_text.
  destruct (parse_csv_field_bounds line col "" size Hsize) as [[_ ->]|[_ H]];
    [simpl; lia|done].
Qed.

Lemma outcome_label_resolved outcome :
  (outcome_label outcome >=? 0) = true ->
  outcome_label outcome = 1 \/ outcome_label outcome = 0.
Proof. unfold outcome_label. repeat case_match; auto. done. Qed.

Lemma Rltb_true x y : Rltb x y = true -> (x < y)%R.
Proof. unfold Rltb. by destruct (Rlt_dec x y). Qed.

Lemma load_row_kept line field fight field' :
  load_row atof line field = (Some fight, field') -> loaded_ok fight.
Proof.
  unfold load_row, read_number. cbv beta iota zeta.
  destruct (_ || _); [done|].
  destruct (_ && _) eqn:Hkeep; [|done]. intros [= <- _].
  repeat (apply andb_true_iff in Hkeep as [Hkeep ?]).
  unfold loaded_ok, resolved. cbn [label f1_height f2_height f1_age f2_age
    weight_class event_date fighter1 fighter2].
  split; [by apply outcome_label_resolved|].
  split; [auto using Rltb_true|].
  split; [by destruct (read_text line 2 64)|].
  pose proof (read_text_length line 1 32 ltac:(lia)).
  pose proof (read_text_length line 2 64 ltac:(lia)).
  pose proof (read_text_length line 4 64 ltac:(lia)).
  pose proof (read_text_length line 5 64 ltac:(lia)).
  split; [lia|]. split; [lia|]. split; lia.
Qed.

Lemma load_rows_kept lines field :
  Forall loaded_ok (load_rows atof lines field)
  /\ (length (load_rows atof lines field) <= length lines)%nat.
Proof.
  revert field. induction lines as [|line lines IH]; intros field; [by split|].
  cbn [load_rows].
  destruct (load_row atof line field) as [[fight|] field'] eqn:E;
    destruct (IH field') as [IH1 IH2]; simpl; (split; [|lia]); [|done].
  constructor; [by eapply load_row_kept|done].
Qed.

End LoaderFacts.

(** [load_ufc_data] fails exactly when the file cannot be opened or has no
    first line; every fight it counts has label 0 or 1, positive heights and
    ages, a non-empty weight class, and texts that fit their fields with the
    terminator; it counts at most one fight per line after the header. *)
Theorem load_ufc_data_kept (atof : string -> R) (file : option (list string)) :
  let result := load_ufc_data atof file in
  (result.1 = -1 <-> file = None \/ file = Some [])
  /\ (result.1 = -1 \/ result.1 = 0)
  /\ Forall loaded_ok result.2
  /\ (forall lines, file = Some lines -> (length result.2 <= length lines - 1)%nat).
Proof.
  destruct file as [[|header lines]|]; simpl.
  - split; [split; auto|]. split; [auto|]. split; [constructor|]. by intros ? [= <-].
  - destruct (load_rows_kept atof lines "") as [H1 H2].
    split; [split; [done|by intros [|]]|]. split; [auto|]. split; [done|].
    intros ? [= <-]. simpl. lia.
  - split; [split; auto|]. split; [auto|]. split; [constructor|]. done.
Qed.

Section VerdictFacts.

Local Open Scope R_scope.

Lemma sigmoid_logit c : 0 < c < 1 -> sigmoid (logit c) = c.
Proof.
  intros Hc. unfold sigmoid, logit.
  assert (0 < c / (1 - c)) as Hr by (apply Rdiv_lt_0_compat; lra).
  rewrite exp_Ropp, exp_ln by done. field. lra.
Qed.

Lemma sigmoid_strict x y : x < y -> sigmoid x < sigmoid y.
Proof.
  intros Hlt. unfold sigmoid, Rdiv. rewrite !Rmult_1_l.
  pose proof (exp_pos (- x)). pose proof (exp_pos (- y)).
  assert (exp (- y) < exp (- x)) by (apply exp_increasing; lra).
  apply Rinv_lt_contravar; [nra|lra].
Qed.

Lemma sigmoid_ge_iff c y : 0 < c < 1 -> c <= sigmoid y <-> logit c <= y.
Proof.
  intros Hc. rewrite <- (sigmoid_logit c Hc) at 1. split.
  - intros Hle. destruct (Rle_or_lt (logit c) y) as [|Hlt]; [done|].
    apply sigmoid_strict in Hlt. lra.
  - apply sigmoid_monotone.
Qed.

Lemma sigmoid_le_iff c y : 0 < c < 1 -> sigmoid y <= c <-> y <= logit c.
Proof.
  intros Hc. rewrite <- (sigmoid_logit c Hc) at 1. split.
  - intros Hle. destruct (Rle_or_lt y (logit c)) as [|Hlt]; [done|].
    apply sigmoid_strict in Hlt. lra.
  - apply sigmoid_monotone.
Qed.

Lemma logit_le_iff a b : 0 < a < 1 -> 0 < b < 1 -> logit a <= logit b <-> a <= b.
Proof.
  intros Ha Hb. split.
  - intros Hle. destruct (Rle_or_lt a b) as [|Hlt]; [done|].
    assert (logit b < logit a); [|lra].
    unfold logit. apply ln_increasing; [apply Rdiv_lt_0_compat; lra|].
    unfold Rdiv. apply Rmult_gt_0_lt_compat; try lra.
    + apply Rinv_0_lt_compat. lra.
    + apply Rinv_lt_contravar; nra.
  - intros Hle. apply logit_monotone; lra.
Qed.

Lemma logit_high : 4 * logit (19 / 20) = logit (130321 / 130322).
Proof.
  unfold logit.
  replace (19 / 20 / (1 - 19 / 20)) with 19 by lra.
  replace (130321 / 130322 / (1 - 130321 / 130322)) with ((19 * 19) * (19 * 19)) by lra.
  rewrite !ln_mult by lra. lra.
Qed.

Lemma logit_low : 4 * logit (1 / 20) = logit (1 / 130322).
Proof.
  unfold logit.
  replace (1 / 20 / (1 - 1 / 20)) with (/ 19) by lra.
  replace (1 / 130322 / (1 - 1 / 130322)) with (/ ((19 * 19) * (19 * 19))) by lra.
  rewrite !ln_Rinv, !ln_mult by lra. lra.
Qed.

Lemma clamp_ge_iff c p :
  1e-12 < c < 1 - 1e-12 -> c <= clamp_probability p <-> c <= p.
Proof.
  intros Hc. unfold clamp_probability, Rmin, Rmax.
  repeat destruct (Rle_dec _ _); lra.
Qed.

Lemma clamp_le_iff c p :
  1e-12 < c < 1 - 1e-12 -> clamp_probability p <= c <-> p <= c.
Proof.
  intros Hc. unfold clamp_probability, Rmin, Rmax.
  repeat destruct (Rle_dec _ _); lra.
Qed.

Lemma recalibrate_high p : 0.95 <= recalibrate p <-> 130321 / 130322 <= p.
Proof.
  unfold recalibrate. pose proof (clamp_probability_range p) as Hq.
  replace 0.95 with (19 / 20) by lra.
  rewrite sigmoid_ge_iff by lra.
  rewrite <- (clamp_ge_iff (130321 / 130322) p) by lra.
  rewrite <- (logit_le_iff (130321 / 130322) (clamp_probability p)) by lra.
  rewrite <- logit_high. split; lra.
Qed.

Lemma recalibrate_low p : recalibrate p <= 0.05 <-> p <= 1 / 130322.
Proof.
  unfold recalibrate. pose proof (clamp_probability_range p) as Hq.
  replace 0.05 with (1 / 20) by lra.
  rewrite sigmoid_le_iff by lra.
  rewrite <- (clamp_le_iff (1 / 130322) p) by lra.
  rewrite <- (logit_le_iff (clamp_probability p) (1 / 130322)) by lra.
  rewrite <- logit_low. split; lra.
Qed.

End VerdictFacts.

(** In historical mode a winner is announced when the network output is at
    least 0.95 (fighter 1) or at most 0.05 (fighter 2).  In future mode the
    recalibration moves these bounds to 130321/130322 and 1/130322 of the raw
    output: a winner is announced only above 0.99999 or below 0.00001. *)
Theorem report_verdict_thresholds (m : Model) (features : list R) :
  let p_future := predict m (normalize_features (damp_future_features features) m) in
  let p_historical := predict m (normalize_features features m) in
  ((report_verdict m features false = WinnerFighter1 <-> 0.95 <= p_historical)
   /\ (report_verdict m features false = WinnerFighter2 <-> p_historical <= 0.05)
   /\ (report_verdict m features true = WinnerFighter1 <-> 130321 / 130322 <= p_future)
   /\ (report_verdict m features true = WinnerFighter2 <-> p_future <= 1 / 130322))%R.
Proof.
  intros p_future p_historical.
  assert (forall p1 : R,
             (predicted_winner p1 (1.0 - p1) = WinnerFighter1 <-> 0.95 <= p1)
             /\ (predicted_winner p1 (1.0 - p1) = WinnerFighter2 <-> p1 <= 0.05))%R
    as Hwinner.
  { intros p1. unfold predicted_winner.
    destruct (Rle_dec 0.95 p1), (Rle_dec 0.95 (1.0 - p1)); split; split;
      intros; try done; try lra. }
  unfold report_verdict, report_prediction. cbv zeta. fold p_future p_historical.
  rewrite temperature_scale_recalibrate.
  rewrite <- recalibrate_high, <- recalibrate_low.
  pose proof (Hwinner p_historical) as [H1 H2].
  pose proof (Hwinner (recalibrate p_future)) as [H3 H4].
  done.
Qed.

Section LearningRate.

Local Open Scope R_scope.

Lemma Rpower_095_antitone x y : x <= y -> Rpower 0.95 y <= Rpower 0.95 x.
Proof.
  intros Hxy. unfold Rpower.
  assert (ln 0.95 < 0) as Hln.
  { rewrite <- ln_1. apply ln_increasing; lra. }
  destruct Hxy as [Hlt| ->]; [|lra]. left. apply exp_increasing. nra.
Qed.

Lemma Rpower_095_25 : 0.01 <= Rpower 0.95 25.
Proof.
  replace 25 with (INR 25) by (simpl; lra). rewrite Rpower_pow by lra.
  simpl. lra.
Qed.

End LearningRate.

(** The learning rate starts at 0.01, never rises from one epoch to the next
    and never leaves [0.0001, 0.01]; during the 500 epochs of [train] the
    floor [min_lr] is not reached: the rate is [0.01 * 0.95^(epoch/20)]. *)
Theorem learning_rate_schedule (epoch : nat) :
  (0.0001 <= learning_rate epoch <= 0.01
   /\ learning_rate (S epoch) <= learning_rate epoch
   /\ learning_rate 0 = 0.01
   /\ ((epoch < max_epochs)%nat ->
       learning_rate epoch = 0.01 * Rpower 0.95 (INR epoch / 20.0)))%R.
Proof.
  assert (forall e, 0 < Rpower 0.95 (INR e / 20.0) <= 1)%R as Hpow.
  { intros e. split; [unfold Rpower; apply exp_pos|].
    rewrite <- (Rpower_O 0.95) by lra. apply Rpower_095_antitone.
    pose proof (pos_INR e). lra. }
  assert (Rpower 0.95 (INR (S epoch) / 20.0) <= Rpower 0.95 (INR epoch / 20.0))%R
    as Hstep.
  { apply Rpower_095_antitone. rewrite S_INR. lra. }
  pose proof (Hpow epoch) as He. pose proof (Hpow (S epoch)) as He'.
  unfold learning_rate. cbv zeta.
  split; [|split; [|split]].
  - destruct (Rlt_dec _ _); lra.
  - repeat destruct (Rlt_dec _ _); lra.
  - simpl INR. replace (0 / 20.0)%R with 0%R by lra.
    rewrite Rpower_O by lra. destruct (Rlt_dec _ _); lra.
  - intros Hlt. unfold max_epochs in Hlt.
    assert (Rpower 0.95 25 <= Rpower 0.95 (INR epoch / 20.0))%R as Hfloor.
    { apply Rpower_095_antitone.
      assert (INR epoch <= INR 500)%R as Hle by (apply le_INR; lia).
      rewrite (INR_IZR_INZ 500) in Hle. change (Z.of_nat 500) with 500%Z in Hle.
      lra. }
    pose proof Rpower_095_25. destruct (Rlt_dec _ _); lra.
Qed.

Lemma learning_rate_schedule_witness :
  (learning_rate 499 = 0.01 * Rpower 0.95 (INR 499 / 20.0))%R.
Proof.
  assert (499 < max_epochs)%nat as Hlt by (unfold max_epochs; lia).
  exact (proj2 (proj2 (proj2 (learning_rate_schedule 499))) Hlt).
Defined.

(** For a dataset of at least two fights, [train] and [evaluate_model] split
    it at [floor(0.8 n)]: both parts are non-empty and the validation part is
    the last fifth rounded up; for every [n] the validation count is at least
    1, so the [not enough samples] return is never taken. *)
Theorem train_base_count_split (num_samples : Z) :
  1 <= num_samples - train_base_count num_samples
  /\ (2 <= num_samples ->
      train_base_count num_samples = num_samples * 8 / 10
      /\ 1 <= train_base_count num_samples <= num_samples - 1
      /\ 5 * (num_samples - train_base_count num_samples) <= num_samples + 4
      /\ num_samples <= 5 * (num_samples - train_base_count num_samples)).
Proof.
  unfold train_base_count. split.
  - repeat case_match; lia.
  - intros Hn. rewrite Z.quot_div_nonneg by lia.
    pose proof (Z.div_mod (num_samples * 8) 10 ltac:(lia)).
    pose proof (Z.mod_pos_bound (num_samples * 8) 10 ltac:(lia)).
    repeat case_match; lia.
Qed.

Lemma train_base_count_split_witness :
  train_base_count 7 = 7 * 8 / 10.
Proof.
  assert (2 <= 7) as Hn by lia.
  exact (proj1 (proj2 (train_base_count_split 7) Hn)).
Defined.

Section CommandLineFacts.

Lemma parse_args_snoc args a : parse_args (args ++ [a]) = parse_arg (parse_args args) a.
Proof. unfold parse_args. by rewrite fold_left_app. Qed.

Lemma predict_flags_spec (s : string) :
  s ∈ predict_flags
  <-> s = "--predict" \/ s = "--predict-future" \/ s = "--predict-historical".
Proof.
  unfold predict_flags. rewrite !elem_of_cons, elem_of_nil. tauto.
Qed.

Ltac arg_cases a :=
  unfold parse_arg;
  destruct (String.eqb_spec a "--load") as [->|?];
  [|destruct (String.eqb_spec a "--predict") as [->|?];
    [|destruct (String.eqb_spec a "--predict-future") as [->|?];
      [|destruct (String.eqb_spec a "--predict-historical") as [->|?];
        [|destruct (String.eqb_spec a "--eval") as [->|?];
          [|destruct (String.eqb_spec a "--global") as [->|?];
            [|destruct (String.eqb_spec a "--matchup") as [->|?]]]]]]].

Lemma parse_args_flags args :
  let flags := parse_args args in
  (flag_load flags = true <-> "--load" ∈ args)
  /\ (flag_eval flags = true <-> "--eval" ∈ args)
  /\ (flag_global flags = true <-> "--global" ∈ args)
  /\ (flag_matchup flags = true <-> "--matchup" ∈ args)
  /\ (flag_predict flags = true <-> exists a, a ∈ args /\ a ∈ predict_flags)
  /\ (flag_predict_future flags = false <->
      last (List.filter (fun a => bool_decide (a ∈ predict_flags)) args)
      = Some "--predict-historical").
Proof.
  induction args as [|a args IH] using rev_ind.
  - simpl. repeat split; try done; try (by intros ?%elem_of_nil).
    by intros (a & ?%elem_of_nil & _).
  - rewrite parse_args_snoc. cbv zeta in *.
    destruct IH as (Hl & He & Hg & Hm & Hp & Hf).
    assert (forall s : string, s ∈ args ++ [a] <-> s ∈ args \/ s = a) as Hin.
    { intros s. rewrite elem_of_app, list_elem_of_singleton. done. }
    rewrite List.filter_app. cbn [List.filter].
    assert (forall b : bool, (b = true <-> "--load" ∈ args) -> a <> "--load" ->
                             (b = true <-> "--load" ∈ args ++ [a])) as Kl
      by (intros b Hb Hne; rewrite Hin, Hb; split; [auto|intros [|]; congruence]).
    assert (forall b : bool, (b = true <-> "--eval" ∈ args) -> a <> "--eval" ->
                             (b = true <-> "--eval" ∈ args ++ [a])) as Ke
      by (intros b Hb Hne; rewrite Hin, Hb; split; [auto|intros [|]; congruence]).
    assert (forall b : bool, (b = true <-> "--global" ∈ args) -> a <> "--global" ->
                             (b = true <-> "--global" ∈ args ++ [a])) as Kg
      by (intros b Hb Hne; rewrite Hin, Hb; split; [auto|intros [|]; congruence]).
    assert (forall b : bool, (b = true <-> "--matchup" ∈ args) -> a <> "--matchup" ->
                             (b = true <-> "--matchup" ∈ args ++ [a])) as Km
      by (intros b Hb Hne; rewrite Hin, Hb; split; [auto|intros [|]; congruence]).
    assert (forall s : string, (true = true <-> s ∈ args ++ [s])) as Kt
      by (intros s; split; [intros _|done]; apply elem_of_app; right; apply list_elem_of_here).
    assert ((exists x, x ∈ args ++ [a] /\ x ∈ predict_flags)
            <-> (exists x, x ∈ args /\ x ∈ predict_flags) \/ a ∈ predict_flags) as Kp.
    { split.
      - intros (x & [Hx| ->]%Hin & Hpf); eauto.
      - intros [(x & Hx & Hpf)|Hpf]; [exists x|exists a]; rewrite Hin; auto. }
    assert (bool_decide (a ∈ predict_flags) = false ->
            last (List.filter (fun a => bool_decide (a ∈ predict_flags)) args ++ [])
            = last (List.filter (fun a => bool_decide (a ∈ predict_flags)) args)) as Kf
      by (intros _; by rewrite app_nil_r).
    arg_cases a; cbn [flag_load flag_predict flag_eval flag_global flag_matchup
                        flag_predict_future];
      rewrite ?Kp;
      try (rewrite (bool_decide_eq_true_2 (_ ∈ predict_flags))
            by (apply predict_flags_spec; tauto);
           rewrite last_snoc);
      try (match goal with
           | |- context [bool_decide (?s ∈ predict_flags)] =>
               assert (s ∉ predict_flags) as Hnp
                 by (rewrite predict_flags_spec; intros [?|[?|?]]; congruence);
               rewrite (bool_decide_eq_false_2 _ Hnp), app_nil_r
           end);
      rewrite <- ?Hp;
      repeat split; try (by apply Kt); try (by apply Kl); try (by apply Ke);
      try (by apply Kg); try (by apply Km); try done; try tauto;
      try (by intros _; right; apply predict_flags_spec; tauto);
      try (by apply Hf).
Qed.

End CommandLineFacts.

(** What [main] does, read off the command line: the global model is
    evaluated exactly when the data loads and both [--eval] and [--global]
    are given; the per-class models are trained exactly when the data loads
    and neither [--global] nor [--load] is given; with [--load] and without
    [--global] nothing is trained; the interactive predictor runs exactly
    when [main] gets that far and a predict flag is given, and it runs in
    future mode unless the last predict flag is [--predict-historical]; the
    exit status is 0 unless the data fails to load or the per-class training
    fails. *)
Theorem main_dispatch (args : list string)
  (data_loaded classes_trained model_loaded : bool) :
  let run := main_steps (parse_args args) data_loaded classes_trained model_loaded in
  let last_predict_flag :=
    last (List.filter (fun a => bool_decide (a ∈ predict_flags)) args) in
  (EvaluateModel ∈ snd run
   <-> data_loaded = true /\ "--eval" ∈ args /\ "--global" ∈ args)
  /\ (TrainModelsByClass ∈ snd run
      <-> data_loaded = true /\ ("--global" ∉ args) /\ ("--load" ∉ args))
  /\ (("--load" ∈ args) -> ("--global" ∉ args) -> InitTrainSave ∉ snd run)
  /\ (forall future_mode,
        PredictInteractive future_mode ∈ snd run
        <-> fst run = 0 /\ (exists a, a ∈ args /\ a ∈ predict_flags)
            /\ (future_mode = false
                <-> last_predict_flag = Some "--predict-historical"))
  /\ (fst run = 0
      <-> data_loaded = true
          /\ ("--global" ∈ args \/ "--load" ∈ args \/ classes_trained = true)).
Proof.
  cbv zeta.
  destruct (parse_args_flags args) as (Hl & He & Hg & Hm & Hp & Hf).
  setoid_rewrite <- Hl. setoid_rewrite <- He. setoid_rewrite <- Hg.
  setoid_rewrite <- Hp. setoid_rewrite <- Hf.
  destruct (parse_args args) as [l p e g m f].
  cbn [flag_load flag_predict flag_eval flag_global flag_matchup flag_predict_future].
  clear. unfold main_steps.
  cbn [flag_load flag_predict flag_eval flag_global flag_matchup flag_predict_future].
  destruct data_loaded, l, p, e, g, m, classes_trained, model_loaded;
    cbn [negb andb fst snd app];
    (split; [|split; [|split; [|split]]]);
    try intros fm; rewrite ?elem_of_cons, ?elem_of_nil;
    try (destruct f, fm); intuition congruence.
Qed.
